(** * Verification of the normalization and merge engine (utils/data_cleaner.py)

    The development embeds [DataCleaner] of [src/utils/data_cleaner.py]
    together with the part of the Python/pandas run time it calls:

    - Python values are a tagged union ([value]); a raw record is a Python
      [dict], kept as an association list in insertion order.
    - Python [float]s are modelled by exact rationals ([Q]) plus a separate
      NaN; infinities and rounding are outside the model.
    - Python [str]s are sequences of code points below 256, which CPython
      stores one byte per character.
    - A [DataFrame] is column oriented, as in pandas: a row count and an
      ordered list of named, typed columns.  Index labels are not modelled:
      every operation of [DataCleaner] is positional on one frame or resets
      the index ([ignore_index=True]).
    - An exception is a value of [error]; a function that can raise returns
      [result].  [OutOfModel] marks pandas behaviour left outside the
      embedding (duplicate column labels, exotic dtype promotions, ...).
    - pandas is taken as in its 1.x and 2.x releases: an in-place [fillna]
      on [df[col]] reaches the frame (no copy-on-write), a frame without
      rows has no say in the dtypes of a concatenation, [drop_duplicates]
      returns an empty frame as it is, and [pd.cut] closes its bins on the
      right.
    - The wall-clock time of [scraped_at] and the hash secret of the running
      interpreter are explicit arguments.  Logging is left out. *)

From Stdlib Require Import List ZArith QArith Qround String Ascii Bool Lia Lqa.
Import ListNotations.
Set Warnings "-register-all".
Open Scope string_scope.
Open Scope Z_scope.

(* ================================================================= *)
(** ** Python values *)

Inductive value : Type :=
| VNone                                  (* None *)
| VNaN                                   (* float('nan') *)
| VNA                                    (* pandas.NA *)
| VInt (z : Z)
| VFloat (q : Q)
| VBool (b : bool)
| VStr (s : string)
| VList (l : list value)
| VDict (d : list (string * value)).

(** A raw record: a dict from field name to value. *)
Definition record := list (string * value).

(** Exceptions raised by the modelled code. *)
Inductive error : Type :=
| KeyError (what : string)
| TypeError (what : string)
| AttributeError (what : string)
| ValueError (what : string)
| OutOfModel (what : string).

Inductive result (A : Type) : Type :=
| Ok (a : A)
| Raise (e : error).
Arguments Ok {A} a.
Arguments Raise {A} e.

Definition bind {A B} (m : result A) (k : A -> result B) : result B :=
  match m with
  | Ok a => k a
  | Raise e => Raise e
  end.

Notation "x <- m ;; k" := (bind m (fun x => k))
  (at level 61, m at next level, right associativity).

Fixpoint mapM {A B} (f : A -> result B) (l : list A) : result (list B) :=
  match l with
  | [] => Ok []
  | a :: l' => b <- f a ;; bs <- mapM f l' ;; Ok (b :: bs)
  end.

(* ================================================================= *)
(** ** The interpreter's string hash

    [hash(str)] in CPython 3.11 is SipHash-1-3 over the bytes of the string,
    keyed by the process-wide hash secret.  The secret is drawn at random
    when the interpreter starts, unless [PYTHONHASHSEED] fixes it. *)

Module PyHash.

Definition mask64 : Z := 2 ^ 64 - 1.
Definition wrap64 (x : Z) : Z := Z.land x mask64.
Definition add64 (x y : Z) : Z := wrap64 (x + y).
Definition rotl64 (x : Z) (b : Z) : Z :=
  wrap64 (Z.lor (Z.shiftl x b) (Z.shiftr x (64 - b))).

(** The four lanes v0..v3. *)
Record lanes := Lanes { v0 : Z; v1 : Z; v2 : Z; v3 : Z }.

(** SINGLE_ROUND: HALF_ROUND(v0,v1,v2,v3,13,16); HALF_ROUND(v2,v1,v0,v3,17,21). *)
Definition single_round (s : lanes) : lanes :=
  let a := add64 (v0 s) (v1 s) in
  let c := add64 (v2 s) (v3 s) in
  let b := Z.lxor (rotl64 (v1 s) 13) a in
  let d := Z.lxor (rotl64 (v3 s) 16) c in
  let a := rotl64 a 32 in
  let c := add64 c b in
  let a := add64 a d in
  let b := Z.lxor (rotl64 b 17) c in
  let d := Z.lxor (rotl64 d 21) a in
  let c := rotl64 c 32 in
  Lanes a b c d.

(** Little-endian value of at most eight bytes. *)
Fixpoint le_bytes (l : list Z) : Z :=
  match l with
  | [] => 0
  | b :: l' => b + 256 * le_bytes l'
  end.

Definition absorb (s : lanes) (m : Z) : lanes :=
  let s := Lanes (v0 s) (v1 s) (v2 s) (Z.lxor (v3 s) m) in
  let s := single_round s in
  Lanes (Z.lxor (v0 s) m) (v1 s) (v2 s) (v3 s).

(** The [while (src_sz >= 8)] loop; [fuel] bounds the number of blocks. *)
Fixpoint blocks (fuel : nat) (s : lanes) (l : list Z) : lanes * list Z :=
  match fuel with
  | O => (s, l)
  | S fuel' =>
      if Nat.leb 8 (List.length l)
      then blocks fuel' (absorb s (le_bytes (firstn 8 l))) (skipn 8 l)
      else (s, l)
  end.

Definition siphash13 (k0 k1 : Z) (src : list Z) : Z :=
  let b := wrap64 (Z.shiftl (Z.of_nat (List.length src)) 56) in
  let s := Lanes (Z.lxor k0 0x736f6d6570736575) (Z.lxor k1 0x646f72616e646f6d)
                 (Z.lxor k0 0x6c7967656e657261) (Z.lxor k1 0x7465646279746573) in
  let '(s, rest) := blocks (List.length src) s src in
  let b := Z.lor b (le_bytes rest) in
  let s := absorb s b in
  let s := Lanes (v0 s) (v1 s) (Z.lxor (v2 s) 0xff) (v3 s) in
  let s := single_round (single_round (single_round s)) in
  Z.lxor (Z.lxor (v0 s) (v1 s)) (Z.lxor (v2 s) (v3 s)).

(** The process-wide secret [_Py_HashSecret.siphash]. *)
Record secret := Secret { k0 : Z; k1 : Z }.

Definition bytes_of_string (s : string) : list Z :=
  map (fun c => Z.of_N (N_of_ascii c)) (list_ascii_of_string s).

(** Reinterpretation of a 64-bit word as the signed [Py_hash_t]. *)
Definition to_signed64 (x : Z) : Z :=
  if x <? 2 ^ 63 then x else x - 2 ^ 64.

(** [_Py_HashBytes]: the empty string hashes to 0 and -1 is reserved. *)
Definition hash_str (k : secret) (s : string) : Z :=
  match s with
  | EmptyString => 0
  | _ =>
      let x := to_signed64 (siphash13 (k0 k) (k1 k) (bytes_of_string s)) in
      if x =? -1 then -2 else x
  end.

(** [lcg_urandom]: the secret's bytes when [PYTHONHASHSEED] is a non-zero
    integer; seed 0 switches randomization off (an all-zero secret). *)
Fixpoint lcg_urandom (n : nat) (x : Z) : list Z :=
  match n with
  | O => []
  | S n' =>
      let x := Z.land (x * 214013 + 2531011) (2 ^ 32 - 1) in
      Z.land (Z.shiftr x 16) 255 :: lcg_urandom n' x
  end.

Definition secret_of_seed (seed : Z) : secret :=
  if seed =? 0 then Secret 0 0
  else
    let bs := lcg_urandom 16 seed in
    Secret (le_bytes (firstn 8 bs)) (le_bytes (skipn 8 bs)).

End PyHash.

(* ================================================================= *)
(** ** Series and DataFrame *)

Inductive dtype : Type :=
| DInt64                                 (* numpy int64 *)
| DFloat64                               (* numpy float64 *)
| DBool                                  (* numpy bool *)
| DObject                                (* Python objects, text included *)
| DInt64N                                (* nullable Int64 *)
| DCategory.                             (* categorical, produced by pd.cut *)

Definition dtype_eqb (a b : dtype) : bool :=
  match a, b with
  | DInt64, DInt64 | DFloat64, DFloat64 | DBool, DBool
  | DObject, DObject | DInt64N, DInt64N | DCategory, DCategory => true
  | _, _ => false
  end.

Record Series := mkSeries { s_dtype : dtype; s_values : list value }.

Record DataFrame := mkDF { nrows : nat; cols : list (string * Series) }.

(** [pd.DataFrame()]: no rows, no columns. *)
Definition empty_frame : DataFrame := mkDF 0 [].

Definition columns (df : DataFrame) : list string := map fst (cols df).

(** [df.empty]: some axis has length zero. *)
Definition df_empty (df : DataFrame) : bool :=
  Nat.eqb (nrows df) 0 || Nat.eqb (List.length (cols df)) 0.

(** [pd.isna] on a scalar. *)
Definition isna (v : value) : bool :=
  match v with
  | VNone | VNaN | VNA => true
  | _ => false
  end.

Definition count_na (vs : list value) : nat := List.length (filter isna vs).

Definition mem_str (x : string) (l : list string) : bool :=
  existsb (String.eqb x) l.

Fixpoint lookup {A} (k : string) (l : list (string * A)) : option A :=
  match l with
  | [] => None
  | (k', a) :: l' => if String.eqb k k' then Some a else lookup k l'
  end.

(** [col in df.columns] *)
Definition has_col (c : string) (df : DataFrame) : bool :=
  mem_str c (columns df).

(** [df[c]]; a missing label is a KeyError. *)
Definition get_col (c : string) (df : DataFrame) : result Series :=
  match lookup c (cols df) with
  | Some s => Ok s
  | None => Raise (KeyError c)
  end.

Fixpoint replace_col (c : string) (s : Series) (l : list (string * Series))
  : list (string * Series) :=
  match l with
  | [] => []
  | (k, s') :: l' =>
      if String.eqb c k then (k, s) :: l' else (k, s') :: replace_col c s l'
  end.

(** [df[c] = s]: overwrite the column in place, or append a new one. *)
Definition set_col (c : string) (s : Series) (df : DataFrame) : DataFrame :=
  if has_col c df
  then mkDF (nrows df) (replace_col c s (cols df))
  else mkDF (nrows df) (cols df ++ [(c, s)]).

(** [df.drop(c, axis=1)] *)
Definition drop_col (c : string) (df : DataFrame) : DataFrame :=
  mkDF (nrows df) (filter (fun p => negb (String.eqb c (fst p))) (cols df)).

(** A scalar broadcast to a whole column. *)
Definition const_series (d : dtype) (v : value) (n : nat) : Series :=
  mkSeries d (repeat v n).

(* ----------------------------------------------------------------- *)
(** *** dtype inference ([lib.maybe_convert_objects])

    Integers are assumed to fit an int64. *)

Definition is_objectlike (v : value) : bool :=
  match v with
  | VStr _ | VList _ | VDict _ | VNA => true
  | _ => false
  end.
Definition is_bool (v : value) : bool :=
  match v with VBool _ => true | _ => false end.
Definition is_int (v : value) : bool :=
  match v with VInt _ => true | _ => false end.
Definition is_float (v : value) : bool :=
  match v with VFloat _ => true | _ => false end.
Definition is_nan (v : value) : bool :=
  match v with VNaN => true | _ => false end.
Definition is_none (v : value) : bool :=
  match v with VNone => true | _ => false end.

(** The cast of a numeric-or-null cell into a float64 array. *)
Definition to_float_cell (v : value) : value :=
  match v with
  | VInt z => VFloat (inject_Z z)
  | VNone => VNaN
  | _ => v
  end.

Definition infer_series (vs : list value) : Series :=
  if existsb is_objectlike vs then mkSeries DObject vs
  else if existsb is_bool vs then
    if forallb is_bool vs then mkSeries DBool vs else mkSeries DObject vs
  else if existsb is_none vs || existsb is_nan vs then
    if existsb is_float vs || existsb is_int vs || existsb is_nan vs
    then mkSeries DFloat64 (map to_float_cell vs)
    else mkSeries DObject vs
  else if existsb is_float vs then mkSeries DFloat64 (map to_float_cell vs)
  else if existsb is_int vs then mkSeries DInt64 vs
  else mkSeries DObject vs.

(* ----------------------------------------------------------------- *)
(** *** [pd.DataFrame(list_of_dicts)] *)

(** Column labels: the union of the keys, in order of first appearance. *)
Fixpoint add_keys (seen : list string) (ks : list string) : list string :=
  match ks with
  | [] => seen
  | k :: ks' => add_keys (if mem_str k seen then seen else seen ++ [k]) ks'
  end.

Definition union_keys (rs : list record) : list string :=
  fold_left (fun seen r => add_keys seen (map fst r)) rs [].

(** A key absent from a record gives NaN. *)
Definition cell (k : string) (r : record) : value :=
  match lookup k r with
  | Some v => v
  | None => VNaN
  end.

Definition frame_of_records (rs : list record) : DataFrame :=
  mkDF (List.length rs)
       (map (fun k => (k, infer_series (map (cell k) rs))) (union_keys rs)).

(** [series.apply(f)]: the results go through dtype inference. *)
Definition series_apply (f : value -> result value) (s : Series) : result Series :=
  vs <- mapM f (s_values s) ;; Ok (infer_series vs).

(* ================================================================= *)
(** ** Text helpers of the run time *)

(** [str.lower()] on code points below 256: A-Z and the Latin-1 capitals. *)
Definition lower_ascii (c : ascii) : ascii :=
  let n := nat_of_ascii c in
  if (Nat.leb 65 n && Nat.leb n 90)
     || (Nat.leb 192 n && Nat.leb n 222 && negb (Nat.eqb n 215))
  then ascii_of_nat (n + 32) else c.

Fixpoint str_lower (s : string) : string :=
  match s with
  | EmptyString => EmptyString
  | String c s' => String (lower_ascii c) (str_lower s')
  end.

(** [s.replace(' ', '_')] *)
Fixpoint replace_spaces (s : string) : string :=
  match s with
  | EmptyString => EmptyString
  | String c s' =>
      String (if Ascii.eqb c " "%char then "_"%char else c) (replace_spaces s')
  end.

(** [str.split()] splits on runs of white space; only the word count is used. *)
Definition is_space (c : ascii) : bool :=
  let n := nat_of_ascii c in
  (Nat.leb 9 n && Nat.leb n 13) || (Nat.leb 28 n && Nat.leb n 32)
  || Nat.eqb n 133 || Nat.eqb n 160.

Fixpoint word_count_from (in_word : bool) (s : string) : nat :=
  match s with
  | EmptyString => 0
  | String c s' =>
      if is_space c then word_count_from false s'
      else if in_word then word_count_from true s'
      else S (word_count_from true s')
  end.

Definition word_count (s : string) : nat := word_count_from false s.

(** What an f-string prints for a cell.  The printed form of numbers (which
    depends on the dtype the row was gathered under) is not modelled. *)
Definition py_format (v : value) : result string :=
  match v with
  | VStr s => Ok s
  | VNone => Ok "None"
  | VNaN => Ok "nan"
  | _ => Raise (OutOfModel "f-string of a non-text cell")
  end.

(* ----------------------------------------------------------------- *)
(** *** Numeric text, as [pd.to_numeric] reads it

    The model reads plain decimal literals.  Text that holds no digit and no
    letter i cannot be a number (nor an infinity) and is invalid; any other
    text is left outside the model. *)

Inductive parsed : Type :=
| PInt (z : Z)
| PFloat (q : Q)
| PInvalid
| PUnmodelled.

Definition is_digit (c : ascii) : bool :=
  let n := nat_of_ascii c in Nat.leb 48 n && Nat.leb n 57.

Fixpoint span_digits (l : list ascii) : list ascii * list ascii :=
  match l with
  | c :: l' =>
      if is_digit c
      then let '(ds, rest) := span_digits l' in (c :: ds, rest)
      else ([], l)
  | [] => ([], [])
  end.

Definition digits_val (ds : list ascii) : Z :=
  fold_left (fun acc c => 10 * acc + (Z.of_nat (nat_of_ascii c) - 48)) ds 0.

Definition split_sign (l : list ascii) : bool * list ascii :=
  match l with
  | c :: r =>
      if Ascii.eqb c "-"%char then (true, r)
      else if Ascii.eqb c "+"%char then (false, r)
      else (false, l)
  | [] => (false, [])
  end.

Definition not_a_literal (l : list ascii) : parsed :=
  if existsb (fun c => is_digit c || Ascii.eqb c "i"%char || Ascii.eqb c "I"%char) l
  then PUnmodelled else PInvalid.

Definition parse_numeric (s : string) : parsed :=
  let l := list_ascii_of_string s in
  let '(neg, body) := split_sign l in
  let sgn := if neg then (-1) else 1 in
  let '(ip, rest) := span_digits body in
  match rest with
  | [] =>
      match ip with
      | [] => not_a_literal l
      | _ => let z := sgn * digits_val ip in
             if (- 2 ^ 63 <=? z) && (z <? 2 ^ 63) then PInt z else PUnmodelled
      end
  | c :: fr =>
      if Ascii.eqb c "."%char then
        let '(fp, rest') := span_digits fr in
        match rest', (ip, fp) with
        | [], ([], []) => not_a_literal l
        | [], _ =>
            let den := 10 ^ Z.of_nat (List.length fp) in
            PFloat (Qmake (sgn * (digits_val ip * den + digits_val fp))
                          (Z.to_pos den))
        | _, _ => not_a_literal l
        end
      else not_a_literal l
  end.

(* ================================================================= *)
(** ** Duplicate detection ([DataFrame.duplicated])

    Cells are compared the way the hash table of pandas does: all nulls are
    one key, numbers compare by value (so [1], [1.0] and [True] coincide),
    text compares by content; a list or a dict cannot be hashed. *)

Inductive hkey : Type :=
| HNull
| HNum (q : Q)                           (* always in lowest terms *)
| HStr (s : string).

Definition hash_key (v : value) : result hkey :=
  match v with
  | VNone | VNaN | VNA => Ok HNull
  | VInt z => Ok (HNum (inject_Z z))
  | VFloat q => Ok (HNum (Qred q))
  | VBool b => Ok (HNum (inject_Z (if b then 1 else 0)))
  | VStr s => Ok (HStr s)
  | VList _ => Raise (TypeError "unhashable type: 'list'")
  | VDict _ => Raise (TypeError "unhashable type: 'dict'")
  end.

Definition hkey_eqb (a b : hkey) : bool :=
  match a, b with
  | HNull, HNull => true
  | HNum p, HNum q => Z.eqb (Qnum p) (Qnum q) && Pos.eqb (Qden p) (Qden q)
  | HStr s, HStr t => String.eqb s t
  | _, _ => false
  end.

(** The key of a row: one [hkey] per column of the subset. *)
Definition rowkey := list hkey.

Fixpoint rowkey_eqb (a b : rowkey) : bool :=
  match a, b with
  | [], [] => true
  | x :: a', y :: b' => hkey_eqb x y && rowkey_eqb a' b'
  | _, _ => false
  end.

Definition seen_before (k : rowkey) (seen : list rowkey) : bool :=
  existsb (rowkey_eqb k) seen.

(** One pass over the rows with the set of keys seen so far;
    [true] marks a row whose key occurred earlier ([keep='first']). *)
Fixpoint duplicated (seen : list rowkey) (ks : list rowkey) : list bool :=
  match ks with
  | [] => []
  | k :: ks' =>
      if seen_before k seen
      then true :: duplicated seen ks'
      else false :: duplicated (k :: seen) ks'
  end.

Fixpoint row_keys (n : nat) (colkeys : list (list hkey)) : list rowkey :=
  match colkeys with
  | [] => repeat [] n
  | ks :: rest => map (fun p => fst p :: snd p) (combine ks (row_keys n rest))
  end.

(** Boolean-mask row selection. *)
Fixpoint select {A} (mask : list bool) (l : list A) : list A :=
  match mask, l with
  | b :: m, x :: l' => if b then x :: select m l' else select m l'
  | _, _ => []
  end.

Definition count_true (mask : list bool) : nat :=
  List.length (filter (fun b => b) mask).

Definition take (keep : list bool) (s : Series) : Series :=
  mkSeries (s_dtype s) (select keep (s_values s)).

Definition select_rows (keep : list bool) (df : DataFrame) : DataFrame :=
  mkDF (count_true keep) (map (fun p => (fst p, take keep (snd p))) (cols df)).

(** [df.drop_duplicates(subset=..., keep='first')] *)
Definition drop_duplicates (subset : list string) (df : DataFrame)
  : result DataFrame :=
  if df_empty df then Ok df
  else
    ss <- mapM (fun c => get_col c df) subset ;;
    ks <- mapM (fun s => mapM hash_key (s_values s)) ss ;;
    let keep := map negb (duplicated [] (row_keys (nrows df) ks)) in
    Ok (select_rows keep df).

(* ================================================================= *)
(** ** Column statistics used by the cleaner *)

(** The number held by a numeric cell; [None] for a null. *)
Definition num_of (v : value) : option Q :=
  match v with
  | VInt z => Some (inject_Z z)
  | VFloat q => Some q
  | VBool b => Some (inject_Z (if b then 1 else 0))
  | _ => None
  end.

Fixpoint numbers (vs : list value) : list Q :=
  match vs with
  | [] => []
  | v :: vs' =>
      match num_of v with
      | Some q => q :: numbers vs'
      | None => numbers vs'
      end
  end.

Fixpoint insert_sorted (x : Q) (l : list Q) : list Q :=
  match l with
  | [] => [x]
  | y :: l' => if Qle_bool x y then x :: l else y :: insert_sorted x l'
  end.

Definition sort_q (l : list Q) : list Q := fold_right insert_sorted [] l.

(** [series.median()], nulls skipped; NaN when nothing is left. *)
Definition median (vs : list value) : value :=
  let s := sort_q (numbers vs) in
  let n := List.length s in
  match s with
  | [] => VNaN
  | _ =>
      if Nat.odd n then VFloat (nth (Nat.div n 2) s 0%Q)
      else VFloat ((nth (Nat.div n 2 - 1) s 0%Q + nth (Nat.div n 2) s 0%Q) / 2)
  end.

(** [series.fillna(fill)] *)
Definition fillna (fill : value) (vs : list value) : list value :=
  map (fun v => if isna v then fill else v) vs.

Definition map_cols (f : string -> Series -> Series) (df : DataFrame)
  : DataFrame :=
  mkDF (nrows df) (map (fun p => (fst p, f (fst p) (snd p))) (cols df)).

(* ================================================================= *)
(** ** DataCleaner *)

Definition quantity_columns : list string := ["price"; "rating"; "stock"].
Definition identity_text_columns : list string :=
  ["description"; "title"; "category"; "brand"].
Definition bool_candidates : list string := ["in_stock"; "onsale"; "returnable"].

(** Loop over [select_dtypes(include=['float64', 'int64'])]. *)
Definition fill_numeric (c : string) (s : Series) : Series :=
  match s_dtype s with
  | DFloat64 | DInt64 =>
      if Nat.ltb 0 (count_na (s_values s)) then
        if mem_str c quantity_columns
        then mkSeries (s_dtype s) (fillna (VFloat 0) (s_values s))
        else mkSeries (s_dtype s) (fillna (median (s_values s)) (s_values s))
      else s
  | _ => s
  end.

(** Loop over [select_dtypes(include=['object'])]. *)
Definition fill_string (c : string) (s : Series) : Series :=
  match s_dtype s with
  | DObject =>
      if Nat.ltb 0 (count_na (s_values s)) then
        if mem_str c identity_text_columns
        then mkSeries DObject (fillna (VStr "Unknown") (s_values s))
        else mkSeries DObject (fillna (VStr "") (s_values s))
      else s
  | _ => s
  end.

(** Loop over [select_dtypes(include=['bool'])]. *)
Definition fill_bool (c : string) (s : Series) : Series :=
  match s_dtype s with
  | DBool => mkSeries DBool (fillna (VBool false) (s_values s))
  | _ => s
  end.

(** The in-place [fillna] calls are taken to reach the frame, as they do
    without copy-on-write. *)
Definition _handle_missing_values (df : DataFrame) : DataFrame :=
  map_cols fill_bool (map_cols fill_string (map_cols fill_numeric df)).

(* ----------------------------------------------------------------- *)
(** *** Type coercion *)

Definition to_numeric_cell (v : value) : result value :=
  match v with
  | VStr s =>
      match parse_numeric s with
      | PInt z => Ok (VInt z)
      | PFloat q => Ok (VFloat q)
      | PInvalid => Ok VNaN
      | PUnmodelled => Raise (OutOfModel "numeric text outside the model")
      end
  | VInt _ | VFloat _ | VBool _ => Ok v
  | VNone | VNaN | VNA => Ok VNaN
  | VList _ | VDict _ => Raise (OutOfModel "to_numeric of a container")
  end.

Definition bool_to_int (v : value) : value :=
  match v with
  | VBool b => VInt (if b then 1 else 0)
  | _ => v
  end.

(** [pd.to_numeric(series, errors='coerce')] *)
Definition to_numeric (s : Series) : result Series :=
  match s_dtype s with
  | DObject =>
      vs <- mapM to_numeric_cell (s_values s) ;;
      if existsb is_float vs || existsb is_nan vs
      then Ok (mkSeries DFloat64 (map (fun v => to_float_cell (bool_to_int v)) vs))
      else if existsb is_int vs then Ok (mkSeries DInt64 (map bool_to_int vs))
      else if existsb is_bool vs then Ok (mkSeries DBool vs)
      else Ok (mkSeries DInt64 vs)
  | DCategory => Raise (OutOfModel "to_numeric of a categorical")
  | _ => Ok s
  end.

Definition to_Int64_cell (v : value) : result value :=
  match v with
  | VInt z => Ok (VInt z)
  | VBool b => Ok (VInt (if b then 1 else 0))
  | VFloat q =>
      if Pos.eqb (Qden (Qred q)) 1 then Ok (VInt (Qnum (Qred q)))
      else Raise (TypeError "cannot safely cast non-equivalent float64 to int64")
  | VNone | VNaN | VNA => Ok VNA
  | _ => Raise (TypeError "cannot cast to Int64")
  end.

(** [series.astype('Int64')] *)
Definition astype_Int64 (s : Series) : result Series :=
  vs <- mapM to_Int64_cell (s_values s) ;; Ok (mkSeries DInt64N vs).

(** Python truth value of a cell. *)
Definition truthy (v : value) : result bool :=
  match v with
  | VNone => Ok false
  | VNaN => Ok true
  | VNA => Raise (TypeError "boolean value of NA is ambiguous")
  | VInt z => Ok (negb (Z.eqb z 0))
  | VFloat q => Ok (negb (Qeq_bool q 0))
  | VBool b => Ok b
  | VStr s => Ok (negb (String.eqb s ""))
  | VList l => Ok (negb (Nat.eqb (List.length l) 0))
  | VDict d => Ok (negb (Nat.eqb (List.length d) 0))
  end.

(** [series.astype(bool)] *)
Definition astype_bool (s : Series) : result Series :=
  bs <- mapM truthy (s_values s) ;; Ok (mkSeries DBool (map VBool bs)).

(** [if c in df.columns: df[c] = f(df[c])] *)
Definition update_col (c : string) (f : Series -> result Series)
  (df : DataFrame) : result DataFrame :=
  match lookup c (cols df) with
  | Some s => s' <- f s ;; Ok (set_col c s' df)
  | None => Ok df
  end.

Definition _validate_data_types (df : DataFrame) : result DataFrame :=
  df <- update_col "price" to_numeric df ;;
  df <- update_col "rating" to_numeric df ;;
  df <- update_col "stock" to_numeric df ;;
  df <- update_col "id" (fun s => n <- to_numeric s ;; astype_Int64 n) df ;;
  fold_left (fun acc c => df <- acc ;; update_col c astype_bool df)
            bool_candidates (Ok df).

(* ----------------------------------------------------------------- *)
(** *** Flattening of the nested API fields *)

Definition is_dict (v : value) : bool :=
  match v with VDict _ => true | _ => false end.

(** One row of [pd.json_normalize]: a flat dict is taken as it is, a cell
    that is no dict gives an empty row.  Nested levels are not modelled. *)
Definition dimension_row (v : value) : result record :=
  match v with
  | VDict d =>
      if existsb (fun p => is_dict (snd p)) d
      then Raise (OutOfModel "nested dimensions")
      else Ok d
  | VList _ => Raise (OutOfModel "list in dimensions")
  | _ => Ok []
  end.

Definition flatten_dimensions (df : DataFrame) : result DataFrame :=
  s <- get_col "dimensions" df ;;
  rows <- mapM dimension_row (s_values s) ;;
  let dimensions_df := frame_of_records rows in
  let dcols := map (fun p => ("dimension_" ++ fst p, snd p)) (cols dimensions_df) in
  let base := drop_col "dimensions" df in
  if existsb (fun p => has_col (fst p) base) dcols
  then Raise (OutOfModel "duplicate column labels")
  else Ok (mkDF (nrows df) (cols base ++ dcols)).

(** [r.get('rating', 0)] for one review. *)
Definition review_rating (r : value) : result value :=
  match r with
  | VDict d =>
      match lookup "rating" d with
      | Some v => Ok v
      | None => Ok (VInt 0)
      end
  | _ => Raise (AttributeError "object has no attribute 'get'")
  end.

(** [sum(...)] over the ratings: the running total, or NaN. *)
Fixpoint sum_ratings (acc : option Q) (rs : list value) : result (option Q) :=
  match rs with
  | [] => Ok acc
  | r :: rs' =>
      v <- review_rating r ;;
      match v with
      | VNaN => sum_ratings None rs'
      | _ =>
          match num_of v with
          | Some q => sum_ratings (option_map (fun a => (a + q)%Q) acc) rs'
          | None => Raise (TypeError "unsupported operand type(s) for +")
          end
      end
  end.

Definition avg_review_rating (x : value) : result value :=
  match x with
  | VList (r :: rs) =>
      total <- sum_ratings (Some 0%Q) (r :: rs) ;;
      match total with
      | Some t => Ok (VFloat (t / inject_Z (Z.of_nat (List.length (r :: rs)))))
      | None => Ok VNaN
      end
  | _ => Ok VNone
  end.

Definition len_if_list (x : value) : result value :=
  match x with
  | VList l => Ok (VInt (Z.of_nat (List.length l)))
  | _ => Ok (VInt 0)
  end.

Definition first_if_list (x : value) : result value :=
  match x with
  | VList (i :: _) => Ok i
  | _ => Ok VNone
  end.

Definition flatten_reviews (df : DataFrame) : result DataFrame :=
  s <- get_col "reviews" df ;;
  avg <- series_apply avg_review_rating s ;;
  let df := set_col "avg_review_rating" avg df in
  s <- get_col "reviews" df ;;
  num <- series_apply len_if_list s ;;
  let df := set_col "num_reviews" num df in
  Ok (drop_col "reviews" df).

Definition flatten_images (df : DataFrame) : result DataFrame :=
  s <- get_col "images" df ;;
  main <- series_apply first_if_list s ;;
  let df := set_col "main_image" main df in
  s <- get_col "images" df ;;
  num <- series_apply len_if_list s ;;
  let df := set_col "num_images" num df in
  Ok (drop_col "images" df).

Fixpoint distinct (l : list string) : bool :=
  match l with
  | [] => true
  | x :: l' => negb (mem_str x l') && distinct l'
  end.

(** [df.columns = df.columns.str.lower().str.replace(' ', '_')] *)
Definition standardize_columns (df : DataFrame) : result DataFrame :=
  let renamed :=
    map (fun p => (replace_spaces (str_lower (fst p)), snd p)) (cols df) in
  if distinct (map fst renamed)
  then Ok (mkDF (nrows df) renamed)
  else Raise (OutOfModel "duplicate column labels").

(** The two bookkeeping columns; [now] is the formatted wall-clock time. *)
Definition tag_source (source now : string) (df : DataFrame) : DataFrame :=
  let df := set_col "data_source"
              (const_series DObject (VStr source) (nrows df)) df in
  set_col "scraped_at" (const_series DObject (VStr now) (nrows df)) df.

Definition when_col (c : string) (f : DataFrame -> result DataFrame)
  (df : DataFrame) : result DataFrame :=
  if has_col c df then f df else Ok df.

(** Everything [clean_api_data] does before it removes duplicates. *)
Definition prepare_api (now : string) (products : list record)
  : result DataFrame :=
  let df := frame_of_records products in
  df <- when_col "dimensions" flatten_dimensions df ;;
  df <- when_col "meta" (fun df => Ok (drop_col "meta" df)) df ;;
  df <- when_col "reviews" flatten_reviews df ;;
  df <- when_col "images" flatten_images df ;;
  df <- standardize_columns df ;;
  Ok (tag_source "DummyJSON_API" now df).

Definition clean_api_data (now : string) (products : list record)
  : result DataFrame :=
  match products with
  | [] => Ok empty_frame
  | _ =>
      df <- prepare_api now products ;;
      df <- drop_duplicates ["id"] df ;;
      let df := _handle_missing_values df in
      _validate_data_types df
  end.

(** The cells of column [c], or the default of [row.get(c, '')]. *)
Definition cells_or_empty (c : string) (df : DataFrame) : list value :=
  match lookup c (cols df) with
  | Some s => s_values s
  | None => repeat (VStr "") (nrows df)
  end.

(** [hash(f"{title}_{product_url}") % 1000000] *)
Definition synth_id (k : PyHash.secret) (title product_url : value)
  : result Z :=
  t <- py_format title ;;
  u <- py_format product_url ;;
  Ok (PyHash.hash_str k (t ++ "_" ++ u) mod 1000000).

Definition synthesize_ids (k : PyHash.secret) (df : DataFrame)
  : result DataFrame :=
  match cols df with
  | [] => Raise (OutOfModel "row-wise apply on a frame without columns")
  | _ =>
      ids <- mapM (fun p => synth_id k (fst p) (snd p))
                  (combine (cells_or_empty "title" df)
                           (cells_or_empty "product_url" df)) ;;
      Ok (set_col "id" (mkSeries DInt64 (map VInt ids)) df)
  end.

(** Everything [clean_web_scraped_data] does before it removes duplicates;
    [k] is the hash secret of the running interpreter. *)
Definition prepare_web (k : PyHash.secret) (now : string)
  (products : list record) : result DataFrame :=
  let df := frame_of_records products in
  df <- standardize_columns df ;;
  df <- synthesize_ids k df ;;
  Ok (tag_source "BooksToScrape_Web" now df).

Definition clean_web_scraped_data (k : PyHash.secret) (now : string)
  (products : list record) : result DataFrame :=
  match products with
  | [] => Ok empty_frame
  | _ =>
      df <- prepare_web k now products ;;
      df <- drop_duplicates ["id"] df ;;
      let df := _handle_missing_values df in
      _validate_data_types df
  end.

(* ----------------------------------------------------------------- *)
(** *** Merger *)

(** The dtype a column takes when some rows have no value for it. *)
Definition promote_for_missing (d : dtype) : dtype :=
  match d with
  | DInt64 => DFloat64
  | DBool => DObject
  | _ => d
  end.

Definition missing_cell (d : dtype) : value :=
  match d with
  | DInt64N => VNA
  | _ => VNaN
  end.

Definition common_dtype (a b : dtype) : result dtype :=
  if dtype_eqb a b then Ok a
  else
    match a, b with
    | DInt64, DFloat64 | DFloat64, DInt64 => Ok DFloat64
    | DInt64, DInt64N | DInt64N, DInt64 => Ok DInt64N
    | DObject, _ | _, DObject => Ok DObject
    | DBool, DInt64 | DInt64, DBool | DBool, DFloat64 | DFloat64, DBool =>
        Ok DObject
    | _, _ => Raise (OutOfModel "dtype promotion")
    end.

Definition cast_cells (from to : dtype) (vs : list value) : list value :=
  match from, to with
  | DInt64, DFloat64 => map to_float_cell vs
  | _, _ => vs
  end.

(** One column of [pd.concat([a, b], axis=0)].  A frame without rows has no
    say in the dtype of the result. *)
Definition concat_column (a b : DataFrame) (c : string) : result (string * Series) :=
  match lookup c (cols a), lookup c (cols b) with
  | Some sa, Some sb =>
      if Nat.eqb (nrows b) 0 then Ok (c, mkSeries (s_dtype sa) (s_values sa ++ s_values sb))
      else if Nat.eqb (nrows a) 0 then Ok (c, mkSeries (s_dtype sb) (s_values sa ++ s_values sb))
      else
        d <- common_dtype (s_dtype sa) (s_dtype sb) ;;
        Ok (c, mkSeries d (cast_cells (s_dtype sa) d (s_values sa)
                           ++ cast_cells (s_dtype sb) d (s_values sb)))
  | Some sa, None =>
      if Nat.eqb (nrows b) 0 then Ok (c, sa)
      else
        let d := promote_for_missing (s_dtype sa) in
        Ok (c, mkSeries d (cast_cells (s_dtype sa) d (s_values sa)
                           ++ repeat (missing_cell d) (nrows b)))
  | None, Some sb =>
      if Nat.eqb (nrows a) 0 then Ok (c, sb)
      else
        let d := promote_for_missing (s_dtype sb) in
        Ok (c, mkSeries d (repeat (missing_cell d) (nrows a)
                           ++ cast_cells (s_dtype sb) d (s_values sb)))
  | None, None => Raise (KeyError c)
  end.

(** [pd.concat([a, b], axis=0, ignore_index=True, sort=False)] *)
Definition concat (a b : DataFrame) : result DataFrame :=
  let labels : list string :=
    (columns a ++ filter (fun c => negb (has_col c a)) (columns b))%list in
  cs <- mapM (concat_column a b) labels ;;
  Ok (mkDF (nrows a + nrows b) cs).

(** [common_columns] only feeds a log line and is left out. *)
Definition merge_datasets (df_api df_web : DataFrame) : result DataFrame :=
  df_merged <- concat df_api df_web ;;
  drop_duplicates ["id"; "data_source"] df_merged.

(* ----------------------------------------------------------------- *)
(** *** Enricher *)

(** A bin edge of [pd.cut]: a number or [float('inf')]. *)
Inductive edge : Type :=
| Fin (q : Q)
| PosInf.

(** [lo < v] and [v <= hi]: bins are open on the left, closed on the right
    ([right=True], [include_lowest=False], the defaults of [pd.cut]). *)
Definition above (lo : edge) (v : Q) : bool :=
  match lo with
  | Fin q => negb (Qle_bool v q)
  | PosInf => false
  end.

Definition upto (v : Q) (hi : edge) : bool :=
  match hi with
  | Fin q => Qle_bool v q
  | PosInf => true
  end.

Fixpoint cut_label (v : Q) (bins : list edge) (labels : list string)
  : option string :=
  match bins, labels with
  | lo :: ((hi :: _) as bins'), lab :: labels' =>
      if above lo v && upto v hi then Some lab
      else cut_label v bins' labels'
  | _, _ => None
  end.

Definition cut_cell (bins : list edge) (labels : list string) (v : value)
  : value :=
  match num_of v with
  | Some q =>
      match cut_label q bins labels with
      | Some lab => VStr lab
      | None => VNaN
      end
  | None => VNaN
  end.

(** [pd.cut(series, bins=..., labels=...)] on a numeric column. *)
Definition cut (bins : list edge) (labels : list string) (s : Series)
  : result Series :=
  match s_dtype s with
  | DInt64 | DFloat64 =>
      Ok (mkSeries DCategory (map (cut_cell bins labels) (s_values s)))
  | _ => Raise (OutOfModel "pd.cut of a non-numeric column")
  end.

Definition price_bins : list edge := [Fin 0; Fin 20; Fin 50; Fin 100; PosInf].
Definition price_labels : list string :=
  ["Budget"; "Mid-Range"; "Premium"; "Luxury"].
Definition rating_bins : list edge := [Fin 0; Fin 2; Fin 3; Fin 4; Fin 5].
Definition rating_labels : list string := ["Poor"; "Fair"; "Good"; "Excellent"].

(** [series.str.<f>()] on a text column: [f] on text, NaN on a null. *)
Definition str_method (f : string -> value) (s : Series) : result Series :=
  match s_dtype s with
  | DObject =>
      vs <- mapM (fun v =>
                    match v with
                    | VStr t => Ok (f t)
                    | VNone | VNaN | VNA => Ok VNaN
                    | _ => Raise (OutOfModel ".str on a mixed column")
                    end) (s_values s) ;;
      Ok (infer_series vs)
  | _ => Raise (AttributeError "Can only use .str accessor with string values")
  end.

Definition str_len (t : string) : value := VInt (Z.of_nat (String.length t)).
Definition str_split_len (t : string) : value := VInt (Z.of_nat (word_count t)).

(** [series > 0], false on a null. *)
Definition positive (s : Series) : Series :=
  mkSeries DBool
    (map (fun v => match num_of v with
                   | Some q => VBool (negb (Qle_bool q 0))
                   | None => VBool false
                   end) (s_values s)).

(** Rounding to the nearest integer, ties to even. *)
Definition round_half_even (q : Q) : Z :=
  let f := Qfloor q in
  let r := (q - inject_Z f)%Q in
  if Qle_bool r (1 # 2) then
    if Qeq_bool r (1 # 2) then (if Z.even f then f else f + 1) else f
  else f + 1.

(** [.round(2)], on the exact quotient. *)
Definition round2 (q : Q) : Q := Qmake (round_half_even (q * 100)) 100.

Definition discount_cell (regular price : value) : result value :=
  match num_of regular, num_of price with
  | Some r, Some p =>
      if Qeq_bool r 0 then Raise (OutOfModel "division by zero")
      else Ok (VFloat (round2 ((r - p) / r * 100)))
  | _, _ => Ok VNaN
  end.

Definition is_numeric_dtype (d : dtype) : bool :=
  match d with
  | DInt64 | DFloat64 => true
  | _ => false
  end.

Definition discount_percentage (regular price : Series) : result Series :=
  if is_numeric_dtype (s_dtype regular) && is_numeric_dtype (s_dtype price)
  then
    vs <- mapM (fun p => discount_cell (fst p) (snd p))
               (combine (s_values regular) (s_values price)) ;;
    Ok (mkSeries DFloat64 vs)
  else Raise (OutOfModel "arithmetic on a non-numeric column").

(** # Price category *)
Definition add_price_category (df : DataFrame) : result DataFrame :=
  when_col "price" (fun df =>
    s <- get_col "price" df ;;
    c <- cut price_bins price_labels s ;;
    Ok (set_col "price_category" c df)) df.

(** # Rating category *)
Definition add_rating_category (df : DataFrame) : result DataFrame :=
  when_col "rating" (fun df =>
    s <- get_col "rating" df ;;
    c <- cut rating_bins rating_labels s ;;
    Ok (set_col "rating_category" c df)) df.

(** # Title length *)
Definition add_title_metrics (df : DataFrame) : result DataFrame :=
  when_col "title" (fun df =>
    s <- get_col "title" df ;;
    n <- str_method str_len s ;;
    let df := set_col "title_length" n df in
    s <- get_col "title" df ;;
    w <- str_method str_split_len s ;;
    Ok (set_col "title_word_count" w df)) df.

(** # Description length *)
Definition add_description_metrics (df : DataFrame) : result DataFrame :=
  when_col "description" (fun df =>
    s <- get_col "description" df ;;
    n <- str_method str_len s ;;
    let df := set_col "description_length" n df in
    s <- get_col "description" df ;;
    w <- str_method str_split_len s ;;
    let df := set_col "description_word_count" w df in
    s <- get_col "description" df ;;
    n <- str_method str_len s ;;
    Ok (set_col "has_description" (positive n) df)) df.

(** # Discount percentage if both prices available *)
Definition add_discount (df : DataFrame) : result DataFrame :=
  if has_col "price" df && has_col "regularprice" df then
    r <- get_col "regularprice" df ;;
    p <- get_col "price" df ;;
    d <- discount_percentage r p ;;
    Ok (set_col "discount_percentage" d df)
  else Ok df.

Definition add_calculated_fields (df : DataFrame) : result DataFrame :=
  df <- add_price_category df ;;
  df <- add_rating_category df ;;
  df <- add_title_metrics df ;;
  df <- add_description_metrics df ;;
  add_discount df.

(* ----------------------------------------------------------------- *)
(** *** Statistics summarizer *)

(** A float of the statistics object: NaN, an exact number, or the square
    root of one (the standard deviation). *)
Inductive stat : Type :=
| SNaN
| SNum (q : Q)
| SSqrt (q : Q).

Definition qsum (l : list Q) : Q := fold_right Qplus 0%Q l.
Definition qlen (l : list Q) : Q := inject_Z (Z.of_nat (List.length l)).

Definition mean (qs : list Q) : stat :=
  match qs with
  | [] => SNaN
  | _ => SNum (qsum qs / qlen qs)
  end.

Definition stat_of_value (v : value) : stat :=
  match num_of v with
  | Some q => SNum q
  | None => SNaN
  end.

Definition qmin (qs : list Q) : stat :=
  match qs with
  | [] => SNaN
  | q :: qs' => SNum (fold_left (fun m x => if Qle_bool x m then x else m) qs' q)
  end.

Definition qmax (qs : list Q) : stat :=
  match qs with
  | [] => SNaN
  | q :: qs' => SNum (fold_left (fun m x => if Qle_bool m x then x else m) qs' q)
  end.

(** [series.std()]: the sample standard deviation ([ddof=1]). *)
Definition std (qs : list Q) : stat :=
  match qs with
  | [] | [_] => SNaN
  | _ =>
      let m := (qsum qs / qlen qs)%Q in
      SSqrt (qsum (map (fun x => (x - m) * (x - m))%Q qs) / (qlen qs - 1))
  end.

(** The non-null numbers of a column that supports aggregation. *)
Definition aggregable (s : Series) : result (list Q) :=
  match s_dtype s with
  | DInt64 | DFloat64 | DBool => Ok (numbers (s_values s))
  | DObject => Raise (TypeError "aggregate of an object column")
  | _ => Raise (OutOfModel "aggregate of an extension column")
  end.

Record price_block := mkPriceBlock {
  p_mean : stat; p_median : stat; p_min : stat; p_max : stat; p_std : stat }.

Record rating_block := mkRatingBlock {
  r_mean : stat; r_median : stat; r_min : stat; r_max : stat }.

Record stock_block := mkStockBlock {
  in_stock : nat; out_of_stock : nat; in_stock_percentage : stat }.

Record statistics := mkStatistics {
  total_products : nat;
  total_columns : nat;
  missing_values : list (string * nat);
  data_types : list (string * string);
  price_stats : option price_block;
  rating_stats : option rating_block;
  category_distribution : option (list (hkey * nat));
  data_source_distribution : option (list (hkey * nat));
  stock_stats : option stock_block }.

Definition dtype_name (d : dtype) : string :=
  match d with
  | DInt64 => "int64"
  | DFloat64 => "float64"
  | DBool => "bool"
  | DObject => "object"
  | DInt64N => "Int64"
  | DCategory => "category"
  end.

(** [series.value_counts()]: nulls dropped, most frequent first. *)
Fixpoint bump (k : hkey) (l : list (hkey * nat)) : list (hkey * nat) :=
  match l with
  | [] => [(k, 1%nat)]
  | (k', n) :: l' =>
      if hkey_eqb k k' then (k', S n) :: l' else (k', n) :: bump k l'
  end.

Fixpoint insert_by_count (x : hkey * nat) (l : list (hkey * nat))
  : list (hkey * nat) :=
  match l with
  | [] => [x]
  | y :: l' =>
      if Nat.ltb (snd y) (snd x) then x :: l else y :: insert_by_count x l'
  end.

Definition value_counts (s : Series) : result (list (hkey * nat)) :=
  ks <- mapM hash_key (filter (fun v => negb (isna v)) (s_values s)) ;;
  let counts := fold_left (fun acc k => bump k acc) ks [] in
  Ok (fold_right insert_by_count [] counts).

(** The conditional block of a column that may be absent. *)
Definition block_of {A} (c : string) (f : Series -> result A) (df : DataFrame)
  : result (option A) :=
  match lookup c (cols df) with
  | Some s => a <- f s ;; Ok (Some a)
  | None => Ok None
  end.

Definition price_block_of (s : Series) : result price_block :=
  qs <- aggregable s ;;
  Ok (mkPriceBlock (mean qs) (stat_of_value (median (map VFloat qs)))
                   (qmin qs) (qmax qs) (std qs)).

Definition rating_block_of (s : Series) : result rating_block :=
  qs <- aggregable s ;;
  Ok (mkRatingBlock (mean qs) (stat_of_value (median (map VFloat qs)))
                    (qmin qs) (qmax qs)).

(** [in_stock_bool = df['in_stock'].fillna(False).astype(bool)];
    the percentage of an empty frame is 0/0, a NaN. *)
Definition stock_block_of (n : nat) (s : Series) : result stock_block :=
  bs <- mapM truthy (fillna (VBool false) (s_values s)) ;;
  let yes := count_true bs in
  let no := count_true (map negb bs) in
  Ok (mkStockBlock yes no
        (match n with
         | O => SNaN
         | _ => SNum (inject_Z (Z.of_nat yes) / inject_Z (Z.of_nat n) * 100)
         end)).

Definition generate_statistics (df : DataFrame) : result statistics :=
  let missing := map (fun p => (fst p, count_na (s_values (snd p)))) (cols df) in
  let types := map (fun p => (fst p, dtype_name (s_dtype (snd p)))) (cols df) in
  price <- block_of "price" price_block_of df ;;
  rating <- block_of "rating" rating_block_of df ;;
  category <- block_of "category" value_counts df ;;
  source <- block_of "data_source" value_counts df ;;
  stock <- block_of "in_stock" (stock_block_of (nrows df)) df ;;
  Ok (mkStatistics (nrows df) (List.length (cols df)) missing types
                   price rating category source stock).

(* ================================================================= *)
(** ** Properties of tables used in the statements *)

(** The two per-source normalizers under one name; the web one runs under
    the hash secret of its process. *)
Inductive source : Type :=
| Api
| Web (k : PyHash.secret).

Definition prepare (src : source) (now : string) (products : list record)
  : result DataFrame :=
  match src with
  | Api => prepare_api now products
  | Web k => prepare_web k now products
  end.

Definition normalize (src : source) (now : string) (products : list record)
  : result DataFrame :=
  match src with
  | Api => clean_api_data now products
  | Web k => clean_web_scraped_data k now products
  end.

(** Distinct labels, and every column as long as the frame. *)
Definition well_formed (df : DataFrame) : bool :=
  distinct (columns df)
  && forallb (fun p => Nat.eqb (List.length (s_values (snd p))) (nrows df))
             (cols df).

(** A frame as a normalizer returns it: well formed, and without columns
    only when it has no rows either. *)
Definition table (df : DataFrame) : bool :=
  well_formed df
  && (negb (Nat.eqb (List.length (cols df)) 0) || Nat.eqb (nrows df) 0).

(** A column, and a frame, put on top of itself. *)
Definition stacked (s : Series) : Series :=
  mkSeries (s_dtype s) (s_values s ++ s_values s).

Definition twice (df : DataFrame) : DataFrame :=
  mkDF (nrows df + nrows df) (map (fun p => (fst p, stacked (snd p))) (cols df)).

(** The composite key [(id, data_source)] of every row. *)
Definition composite_keys (df : DataFrame) : result (list rowkey) :=
  ss <- mapM (fun c => get_col c df) ["id"; "data_source"] ;;
  ks <- mapM (fun s => mapM hash_key (s_values s)) ss ;;
  Ok (row_keys (nrows df) ks).


Definition no_null (vs : list value) : bool :=
  forallb (fun v => negb (isna v)) vs.

(** Missing-value completeness as the specification words it: no null cell
    in any numeric, text or boolean column. *)
Definition null_free (df : DataFrame) : bool :=
  forallb (fun p =>
             match s_dtype (snd p) with
             | DInt64 | DFloat64 | DInt64N | DObject | DBool =>
                 no_null (s_values (snd p))
             | DCategory => true
             end) (cols df).

(** What [_handle_missing_values] achieves for one column: no null is left,
    unless the column is numeric and holds no number to take a median of. *)
Definition filled (s : Series) : Prop :=
  match s_dtype s with
  | DObject | DBool => no_null (s_values s) = true
  | DInt64 | DFloat64 =>
      no_null (s_values s) = true \/ numbers (s_values s) = []
  | _ => True
  end.

(** The three fill loops, seen from one column. *)
Definition handle_col (c : string) (s : Series) : Series :=
  fill_bool c (fill_string c (fill_numeric c s)).

(** The columns whose cells [_validate_data_types] re-reads as numbers. *)
Definition coerced_numeric : list string := ["price"; "rating"; "stock"; "id"].

(** The columns the enricher writes. *)
Definition derived_columns : list string :=
  ["price_category"; "rating_category"; "title_length"; "title_word_count";
   "description_length"; "description_word_count"; "has_description";
   "discount_percentage"].

(** The list without the later repetitions of its elements. *)
Fixpoint keep_first (ks : list rowkey) : list rowkey :=
  match ks with
  | [] => []
  | k :: ks' => k :: filter (fun x => negb (rowkey_eqb x k)) (keep_first ks')
  end.

(** The label of the bin whose lower edge is [b]: where [b] would fall
    under a lower-bound-inclusive convention. *)
Fixpoint bin_with_lower_edge (b : Q) (bins : list edge) (labels : list string)
  : option string :=
  match bins, labels with
  | Fin lo :: bins', lab :: labels' =>
      if Qeq_bool lo b then Some lab else bin_with_lower_edge b bins' labels'
  | _, _ => None
  end.

(** The dtypes [aggregable] accepts. *)
Definition aggregates (d : dtype) : bool :=
  match d with
  | DInt64 | DFloat64 | DBool => true
  | _ => false
  end.

Definition nan_price_block : price_block :=
  mkPriceBlock SNaN SNaN SNaN SNaN SNaN.

(* ----------------------------------------------------------------- *)
(** *** Sample inputs *)

Definition attic_title : string := "A Light in the Attic".
Definition attic_url : string :=
  "https://books.toscrape.com/catalogue/a-light-in-the-attic_1000/index.html".

(** A crawled book whose rating element could not be read. *)
Definition attic : record :=
  [("title", VStr attic_title); ("price", VFloat (5177 # 100));
   ("rating", VNone); ("in_stock", VBool true);
   ("product_url", VStr attic_url)].

(** Two API products; the second lacks the optional fields. *)
Definition phone : record :=
  [("id", VInt 1); ("title", VStr "Phone"); ("price", VFloat 20);
   ("rating", VFloat (9 # 2)); ("featured", VBool true)].
Definition cable : record := [("id", VInt 2); ("title", VStr "Cable")].


(** An API product whose price arrived as text. *)
Definition unpriced_text : record :=
  [("id", VInt 3); ("title", VStr "Lamp"); ("price", VStr "N/A")].

(** A product without an id of its own. *)
Definition anonymous : record := [("title", VStr "Gift")].

Definition seed0 : PyHash.secret := PyHash.secret_of_seed 0.
Definition seed1 : PyHash.secret := PyHash.secret_of_seed 1.

(** Prices on and beyond the bin edges. *)
Definition priced : DataFrame :=
  mkDF 4 [("price",
           mkSeries DFloat64 [VFloat 20; VFloat 50; VFloat 100; VFloat 150])].

Definition frame_or_empty (r : result DataFrame) : DataFrame :=
  match r with
  | Ok df => df
  | Raise _ => empty_frame
  end.

Definition sample_time : string := "2024-01-01 00:00:00".

(** [phone] and [cable] normalized, merged with an empty web table, and
    enriched. *)
Definition sample_api : DataFrame :=
  Eval vm_compute in
    frame_or_empty (clean_api_data sample_time [phone; cable]).
Definition sample_merged : DataFrame :=
  Eval vm_compute in frame_or_empty (merge_datasets sample_api empty_frame).
Definition sample_enriched : DataFrame :=
  Eval vm_compute in frame_or_empty (add_calculated_fields sample_merged).

(** [attic] normalized under the secret of seed 0, and the merge of the
    two normalized samples. *)
Definition sample_web : DataFrame :=
  Eval vm_compute in
    frame_or_empty (clean_web_scraped_data seed0 sample_time [attic]).
Definition sample_both : DataFrame :=
  Eval vm_compute in frame_or_empty (merge_datasets sample_api sample_web).

(** A frame whose only price is missing. *)
Definition unpriced : DataFrame :=
  mkDF 1 [("id", mkSeries DInt64N [VInt 7]);
          ("price", mkSeries DFloat64 [VNaN])].

(* ================================================================= *)
(** ** Web helpers ([src/utils/web_helpers.py]) *)

(** [str.split()]: the words between runs of white space. *)
Fixpoint split_ws (s : string) : list string :=
  match s with
  | EmptyString => []
  | String c s' =>
      if is_space c then split_ws s'
      else
        match s' with
        | EmptyString => [String c EmptyString]
        | String c' _ =>
            if is_space c' then String c EmptyString :: split_ws s'
            else
              match split_ws s' with
              | w :: ws => String c w :: ws
              | [] => [String c EmptyString]
              end
        end
  end.

(** [sep.join(words)] *)
Fixpoint join (sep : string) (words : list string) : string :=
  match words with
  | [] => EmptyString
  | [w] => w
  | w :: words' => w ++ sep ++ join sep words'
  end.

(** [str.strip()], from the left and from the right. *)
Fixpoint lstrip (s : string) : string :=
  match s with
  | EmptyString => EmptyString
  | String c s' => if is_space c then lstrip s' else s
  end.

Fixpoint rstrip (s : string) : string :=
  match s with
  | EmptyString => EmptyString
  | String c s' =>
      match rstrip s' with
      | EmptyString => if is_space c then EmptyString else String c EmptyString
      | r => String c r
      end
  end.

Definition strip (s : string) : string := lstrip (rstrip s).

(** [clean_text]; [None] stands for a missing text. *)
Definition clean_text (text : option string) : string :=
  match text with
  | None => ""
  | Some t =>
      if String.eqb t "" then ""
      else
        let cleaned := join " " (split_ws t) in
        strip cleaned
  end.

Definition rating_map : list (string * Z) :=
  [("One", 1); ("Two", 2); ("Three", 3); ("Four", 4); ("Five", 5)].

(** The loop of [normalize_rating]: the first word that is a key of the
    map decides. *)
Fixpoint first_rating (words : list string) : option Z :=
  match words with
  | [] => None
  | word :: words' =>
      match lookup word rating_map with
      | Some n => Some n
      | None => first_rating words'
      end
  end.

Definition normalize_rating (rating_class : string) : option Z :=
  first_rating (split_ws rating_class).

(* ================================================================= *)
(** ** The pipeline driver ([src/main.py]) *)

(** The body of the [try] block of [run_data_cleaning]; each normalizer
    reads the clock on its own. *)
Definition cleaning_steps (k : PyHash.secret) (now_api now_web : string)
  (api_products web_products : list record) : result DataFrame :=
  df_api <- clean_api_data now_api api_products ;;
  df_web <- clean_web_scraped_data k now_web web_products ;;
  df_merged <- merge_datasets df_api df_web ;;
  add_calculated_fields df_merged.

(** [run_data_cleaning]: an exception of any step is logged and answered
    with [None].  A run that leaves the model stays an error. *)
Definition run_data_cleaning (k : PyHash.secret) (now_api now_web : string)
  (api_products web_products : list record) : result (option DataFrame) :=
  match cleaning_steps k now_api now_web api_products web_products with
  | Ok df_enriched => Ok (Some df_enriched)
  | Raise (OutOfModel m) => Raise (OutOfModel m)
  | Raise _ => Ok None
  end.

(* ================================================================= *)
(** ** Further properties used in the statements *)

(** The tag a normalizer writes into [data_source]. *)
Definition source_tag (src : source) : string :=
  match src with
  | Api => "DummyJSON_API"
  | Web _ => "BooksToScrape_Web"
  end.

(** The labels of a frame all satisfy [Q]. *)
Definition every_label (Q : string -> Prop) (df : DataFrame) : Prop :=
  forall c, In c (columns df) -> Q c.

(** A label that is [id] once lowered and underscored. *)
Definition names_id (c : string) : Prop := replace_spaces (str_lower c) = "id".

(** [out] is [df] with derived columns written into it: the same rows
    under the labels of [df] and derived ones, well formed if [df] is. *)
Definition enriched_from (df out : DataFrame) : Prop :=
  nrows out = nrows df
  /\ (forall c, In c (columns df) -> In c (columns out))
  /\ (forall c, In c (columns out) -> In c (columns df) \/ In c derived_columns)
  /\ (well_formed df = true -> well_formed out = true).

(** The cell of a [.str] measure: the measure of a text, NaN for a null. *)
Definition measured (f : string -> value) (v : value) : result value :=
  match v with
  | VStr t => Ok (f t)
  | VNone | VNaN | VNA => Ok VNaN
  | _ => Raise (OutOfModel ".str on a mixed column")
  end.

(** The counts of a distribution, added up. *)
Definition total_count (d : list (hkey * nat)) : nat :=
  fold_right (fun p n => (snd p + n)%nat) 0%nat d.

(** Most frequent first. *)
Fixpoint descending (d : list (hkey * nat)) : Prop :=
  match d with
  | [] => True
  | x :: d' => (forall y, In y d' -> (snd y <= snd x)%nat) /\ descending d'
  end.

(** A word: a text with a character and without white space. *)
Fixpoint spaceless (s : string) : bool :=
  match s with
  | EmptyString => true
  | String c s' => negb (is_space c) && spaceless s'
  end.

Definition is_word (w : string) : bool :=
  negb (String.eqb w "") && spaceless w.

(* ----------------------------------------------------------------- *)
(** *** Further sample inputs *)

(** A frame with gaps in text and numeric columns. *)
Definition gaps : DataFrame :=
  mkDF 3 [("brand", mkSeries DObject [VStr "Acme"; VNone; VStr "Bolt"]);
          ("note", mkSeries DObject [VNaN; VStr "ok"; VNone]);
          ("price", mkSeries DFloat64 [VNaN; VFloat 10; VFloat 30]);
          ("weight", mkSeries DFloat64 [VFloat 1; VNaN; VFloat 4])].

(** A frame around every column the coercion step looks at. *)
Definition uncoerced : DataFrame :=
  mkDF 2 [("id", mkSeries DObject [VStr "7"; VStr "x"]);
          ("price", mkSeries DObject [VStr "19.99"; VStr ""]);
          ("in_stock", mkSeries DObject [VStr "yes"; VStr ""]);
          ("title", mkSeries DObject [VStr "Pen"; VStr "Ink"])].

(** An id column with a fractional id, as the median fill can leave it. *)
Definition fractional_ids : DataFrame :=
  mkDF 3 [("id", mkSeries DFloat64 [VFloat 1; VFloat 2; VFloat (3 # 2)])].

(** A crawled record that brings an id of its own. *)
Definition attic_with_id : record := ("id", VInt 1) :: attic.

(** A table with ratings on and beyond the edges of the rating bins, with
    a title, a description and a regular price. *)
Definition rated : DataFrame :=
  mkDF 4 [("rating", mkSeries DFloat64
                       [VFloat 2; VFloat (9 # 2); VFloat 6; VNaN]);
          ("title", mkSeries DObject
                      [VStr "Blue pen"; VStr "Ink"; VStr ""; VStr "A b c"]);
          ("description", mkSeries DObject
                            [VStr "Writes well"; VStr ""; VStr ""; VStr "x"]);
          ("price", mkSeries DFloat64
                      [VFloat 15; VFloat 20; VFloat 0; VFloat (999 # 100)]);
          ("regularprice", mkSeries DFloat64
                             [VFloat 20; VFloat 20; VFloat 5; VFloat 30])].

(* ================================================================= *)
(** * Theorems *)

(** ** Identity synthesis *)

Lemma synth_id_range k t u z : synth_id k t u = Ok z -> 0 <= z < 1000000.
Proof.
  unfold synth_id.
  destruct (py_format t) as [a|]; simpl; [|discriminate].
  destruct (py_format u) as [b|]; simpl; [|discriminate].
  intros H; inversion H; subst.
  apply Z.mod_pos_bound; lia.
Qed.

(** Within one process (one hash secret) the id is a function of the text
    of the two fields. *)
Lemma synth_id_text k t u :
  synth_id k (VStr t) (VStr u)
  = Ok (PyHash.hash_str k (t ++ "_" ++ u) mod 1000000).
Proof. reflexivity. Qed.

(** C1. The id synthesized for one and the same [(title, product_url)] pair
    depends on the hash secret of the interpreter: the web normalizer gives
    the book the id 939705 in a process whose secret is that of
    [PYTHONHASHSEED=0] and 147819 under [PYTHONHASHSEED=1], so two processes
    do not agree on the id. *)
Theorem C1_synthesized_id_changes_with_hash_secret :
  synth_id seed0 (VStr attic_title) (VStr attic_url) = Ok 939705
  /\ synth_id seed1 (VStr attic_title) (VStr attic_url) = Ok 147819
  /\ forall now, exists df0 df1,
       clean_web_scraped_data seed0 now [attic] = Ok df0
       /\ clean_web_scraped_data seed1 now [attic] = Ok df1
       /\ lookup "id" (cols df0) = Some (mkSeries DInt64N [VInt 939705])
       /\ lookup "id" (cols df1) = Some (mkSeries DInt64N [VInt 147819]).
Proof.
  split; [vm_compute; reflexivity|].
  split; [vm_compute; reflexivity|].
  intros now.
  eexists; eexists.
  split; [vm_compute; reflexivity|].
  split; [vm_compute; reflexivity|].
  split; reflexivity.
Qed.

(* ================================================================= *)
(** ** Generic facts: the result monad, lookup and column update *)

Ltac inv_bind H :=
  match type of H with
  | bind ?m _ = Ok _ =>
      let E := fresh "E" in
      destruct m eqn:E; cbn [bind] in H; [|discriminate H]
  end.

Lemma mapM_length {A B} (f : A -> result B) l bs :
  mapM f l = Ok bs -> List.length bs = List.length l.
Proof.
  revert bs; induction l as [|a l IH]; simpl; intros bs H.
  - inversion H; reflexivity.
  - inv_bind H. inv_bind H. inversion H; subst; simpl.
    f_equal; apply IH; reflexivity.
Qed.

Lemma mapM_app {A B} (f : A -> result B) l1 l2 b1 b2 :
  mapM f l1 = Ok b1 -> mapM f l2 = Ok b2 ->
  mapM f (l1 ++ l2)%list = Ok (b1 ++ b2)%list.
Proof.
  revert b1; induction l1 as [|a l1 IH]; simpl; intros b1 H1 H2.
  - inversion H1; subst; exact H2.
  - inv_bind H1. inv_bind H1. inversion H1; subst.
    rewrite (IH _ eq_refl H2); reflexivity.
Qed.

Lemma mem_str_true_iff x l : mem_str x l = true <-> In x l.
Proof.
  unfold mem_str; rewrite existsb_exists; split.
  - intros [y [Hy E]]. apply String.eqb_eq in E; subst; exact Hy.
  - intros H; exists x; split; [exact H | apply String.eqb_refl].
Qed.

Lemma lookup_none_iff {A} c (l : list (string * A)) :
  lookup c l = None <-> mem_str c (map fst l) = false.
Proof.
  induction l as [|[k a] l IH]; simpl; [tauto|].
  destruct (String.eqb c k); simpl; [split; discriminate | exact IH].
Qed.

Lemma has_col_lookup c df :
  has_col c df = true <-> exists s, lookup c (cols df) = Some s.
Proof.
  unfold has_col, columns.
  destruct (lookup c (cols df)) as [s|] eqn:E.
  - split; [intros _; exists s; reflexivity|].
    intros _. destruct (mem_str c (map fst (cols df))) eqn:M; [reflexivity|].
    apply lookup_none_iff in M; congruence.
  - apply lookup_none_iff in E. rewrite E.
    split; [discriminate | intros [s H]; discriminate].
Qed.

Lemma lookup_In {A} c (l : list (string * A)) a :
  lookup c l = Some a -> In (c, a) l.
Proof.
  induction l as [|[k b] l IH]; simpl; [discriminate|].
  destruct (String.eqb c k) eqn:E.
  - apply String.eqb_eq in E; subst. intros H; inversion H; auto.
  - intros H; right; auto.
Qed.

Lemma lookup_replace_same c s (l : list (string * Series)) :
  mem_str c (map fst l) = true -> lookup c (replace_col c s l) = Some s.
Proof.
  induction l as [|[k a] l IH]; simpl; [discriminate|].
  destruct (String.eqb c k) eqn:E; simpl.
  - intros _. rewrite E; reflexivity.
  - intros H. rewrite E. exact (IH H).
Qed.

Lemma lookup_replace_other c c' s (l : list (string * Series)) :
  c <> c' -> lookup c (replace_col c' s l) = lookup c l.
Proof.
  intros N; induction l as [|[k a] l IH]; simpl; [reflexivity|].
  destruct (String.eqb c' k) eqn:E; simpl.
  - apply String.eqb_eq in E; subst k.
    destruct (String.eqb c c') eqn:E'; [apply String.eqb_eq in E'; contradiction|].
    reflexivity.
  - destruct (String.eqb c k); [reflexivity | exact IH].
Qed.

Lemma lookup_app {A} c (l1 l2 : list (string * A)) :
  lookup c (l1 ++ l2)%list
  = match lookup c l1 with Some a => Some a | None => lookup c l2 end.
Proof.
  induction l1 as [|[k a] l1 IH]; simpl; [reflexivity|].
  destruct (String.eqb c k); [reflexivity | exact IH].
Qed.

Lemma lookup_set_col_same c s df : lookup c (cols (set_col c s df)) = Some s.
Proof.
  unfold set_col. destruct (has_col c df) eqn:H; simpl.
  - apply lookup_replace_same; exact H.
  - rewrite lookup_app.
    assert (L : lookup c (cols df) = None) by (apply lookup_none_iff; exact H).
    rewrite L; simpl. rewrite String.eqb_refl; reflexivity.
Qed.

Lemma lookup_set_col_other c c' s df :
  c <> c' -> lookup c (cols (set_col c' s df)) = lookup c (cols df).
Proof.
  intros N. unfold set_col. destruct (has_col c' df); simpl.
  - apply lookup_replace_other; exact N.
  - rewrite lookup_app. destruct (lookup c (cols df)); [reflexivity|].
    simpl. destruct (String.eqb c c') eqn:E; [|reflexivity].
    apply String.eqb_eq in E; contradiction.
Qed.

Lemma nrows_set_col c s df : nrows (set_col c s df) = nrows df.
Proof. unfold set_col; destruct (has_col c df); reflexivity. Qed.

(* ================================================================= *)
(** ** Empty input *)

(** C3. Empty input is no error: each normalizer maps the empty record list
    to the empty table, and merge, enrich and statistics return a result on
    the empty table; merge(empty, empty) is the empty table. *)
Theorem C3_empty_input_is_not_an_error :
  (forall now, clean_api_data now [] = Ok empty_frame)
  /\ (forall k now, clean_web_scraped_data k now [] = Ok empty_frame)
  /\ merge_datasets empty_frame empty_frame = Ok empty_frame
  /\ add_calculated_fields empty_frame = Ok empty_frame
  /\ generate_statistics empty_frame
     = Ok (mkStatistics 0 0 [] [] None None None None None).
Proof. repeat split. Qed.

(* ================================================================= *)
(** ** Boolean columns *)

(** C7. A boolean column with a missing cell is not filled with [false]:
    for the API products [phone] (featured = True) and [cable] (no featured
    field) the column [featured] has dtype object, is filled by the text
    policy, and the normalizer returns the empty text for [cable]. *)
Theorem C7_missing_boolean_filled_with_empty_text :
  forall now, exists df,
    clean_api_data now [phone; cable] = Ok df
    /\ lookup "featured" (cols df)
       = Some (mkSeries DObject [VBool true; VStr ""]).
Proof.
  intros now. eexists. split; [vm_compute; reflexivity | reflexivity].
Qed.

(** A designated column given as 0/1 numbers fares no better: the missing
    cell is filled with the median of the column and then reads as true. *)
Lemma designated_numeric_missing_is_true :
  forall now, exists df,
    clean_api_data now [[("id", VInt 1); ("in_stock", VInt 1)]; cable] = Ok df
    /\ lookup "in_stock" (cols df)
       = Some (mkSeries DBool [VBool true; VBool true]).
Proof.
  intros now. eexists. split; [vm_compute; reflexivity | reflexivity].
Qed.

(** A designated column of booleans does end up false: the empty text of
    the fill is falsy under [astype(bool)]. *)
Lemma designated_boolean_missing_is_false :
  forall now, exists df,
    clean_api_data now [[("id", VInt 1); ("in_stock", VBool true)]; cable] = Ok df
    /\ lookup "in_stock" (cols df)
       = Some (mkSeries DBool [VBool true; VBool false]).
Proof.
  intros now. eexists. split; [vm_compute; reflexivity | reflexivity].
Qed.

(* ================================================================= *)
(** ** Enricher: which columns it writes *)

Ltac open_when H :=
  unfold when_col in H;
  match type of H with
  | (if ?b then _ else _) = Ok _ =>
      destruct b eqn:?; [repeat inv_bind H|]; inversion H; subst; clear H
  end.

Lemma derived_neq c :
  mem_str c derived_columns = false ->
  Forall (fun d => c <> d) derived_columns.
Proof.
  intros H. apply Forall_forall. intros d Hd E; subst d.
  apply mem_str_true_iff in Hd. congruence.
Qed.

Ltac skip_sets :=
  repeat (rewrite lookup_set_col_other; [|solve [assumption | discriminate]]).

Lemma add_price_category_keeps c df out :
  add_price_category df = Ok out -> c <> "price_category" ->
  lookup c (cols out) = lookup c (cols df).
Proof.
  intros H N. unfold add_price_category in H. open_when H; [|reflexivity].
  apply lookup_set_col_other; exact N.
Qed.

Lemma add_rating_category_keeps c df out :
  add_rating_category df = Ok out -> c <> "rating_category" ->
  lookup c (cols out) = lookup c (cols df).
Proof.
  intros H N. unfold add_rating_category in H. open_when H; [|reflexivity].
  apply lookup_set_col_other; exact N.
Qed.

Lemma add_title_metrics_keeps c df out :
  add_title_metrics df = Ok out ->
  c <> "title_length" -> c <> "title_word_count" ->
  lookup c (cols out) = lookup c (cols df).
Proof.
  intros H N1 N2. unfold add_title_metrics in H. open_when H; [|reflexivity].
  skip_sets; reflexivity.
Qed.

Lemma add_description_metrics_keeps c df out :
  add_description_metrics df = Ok out ->
  c <> "description_length" -> c <> "description_word_count" ->
  c <> "has_description" ->
  lookup c (cols out) = lookup c (cols df).
Proof.
  intros H N1 N2 N3. unfold add_description_metrics in H.
  open_when H; [|reflexivity].
  skip_sets; reflexivity.
Qed.

Lemma add_discount_keeps c df out :
  add_discount df = Ok out -> c <> "discount_percentage" ->
  lookup c (cols out) = lookup c (cols df).
Proof.
  intros H N. unfold add_discount in H.
  destruct (has_col "price" df && has_col "regularprice" df);
    [repeat inv_bind H|]; inversion H; subst; clear H; [|reflexivity].
  apply lookup_set_col_other; exact N.
Qed.

(** Every column that is not a derived one goes through the enricher
    unchanged. *)
Lemma enrich_keeps c df out :
  add_calculated_fields df = Ok out ->
  mem_str c derived_columns = false ->
  lookup c (cols out) = lookup c (cols df).
Proof.
  intros H N. apply derived_neq in N. unfold derived_columns in N.
  repeat match goal with
         | F : Forall _ (_ :: _) |- _ => inversion F; subst; clear F
         end.
  unfold add_calculated_fields in H.
  inv_bind H. inv_bind H. inv_bind H. inv_bind H.
  rewrite (add_discount_keeps c _ _ H) by assumption.
  rewrite (add_description_metrics_keeps c _ _ E2) by assumption.
  rewrite (add_title_metrics_keeps c _ _ E1) by assumption.
  rewrite (add_rating_category_keeps c _ _ E0) by assumption.
  apply (add_price_category_keeps c _ _ E); assumption.
Qed.

Lemma enrich_price_category df out s :
  add_calculated_fields df = Ok out ->
  lookup "price" (cols df) = Some s ->
  exists c, cut price_bins price_labels s = Ok c
            /\ lookup "price_category" (cols out) = Some c.
Proof.
  intros H L.
  assert (HC : has_col "price" df = true) by (apply has_col_lookup; eauto).
  unfold add_calculated_fields in H.
  inv_bind H. inv_bind H. inv_bind H. inv_bind H.
  rewrite (add_discount_keeps "price_category" _ _ H) by discriminate.
  rewrite (add_description_metrics_keeps "price_category" _ _ E2)
    by discriminate.
  rewrite (add_title_metrics_keeps "price_category" _ _ E1) by discriminate.
  rewrite (add_rating_category_keeps "price_category" _ _ E0) by discriminate.
  unfold add_price_category, when_col in E. rewrite HC in E.
  unfold get_col in E. rewrite L in E. cbn [bind] in E.
  inv_bind E. inversion E; subst; clear E.
  eexists; split; [first [eassumption | reflexivity] | apply lookup_set_col_same].
Qed.

Lemma enrich_rating_category df out s :
  add_calculated_fields df = Ok out ->
  lookup "rating" (cols df) = Some s ->
  exists c, cut rating_bins rating_labels s = Ok c
            /\ lookup "rating_category" (cols out) = Some c.
Proof.
  intros H L.
  unfold add_calculated_fields in H.
  inv_bind H. inv_bind H. inv_bind H. inv_bind H.
  rewrite (add_discount_keeps "rating_category" _ _ H) by discriminate.
  rewrite (add_description_metrics_keeps "rating_category" _ _ E2)
    by discriminate.
  rewrite (add_title_metrics_keeps "rating_category" _ _ E1) by discriminate.
  assert (L0 : lookup "rating" (cols a) = Some s).
  { rewrite (add_price_category_keeps "rating" _ _ E) by discriminate.
    exact L. }
  assert (HC : has_col "rating" a = true) by (apply has_col_lookup; eauto).
  unfold add_rating_category, when_col in E0. rewrite HC in E0.
  unfold get_col in E0. rewrite L0 in E0. cbn [bind] in E0.
  inv_bind E0. inversion E0; subst; clear E0.
  eexists; split; [first [eassumption | reflexivity] | apply lookup_set_col_same].
Qed.

Lemma cut_values bins labels s c :
  cut bins labels s = Ok c ->
  c = mkSeries DCategory (map (cut_cell bins labels) (s_values s)).
Proof.
  unfold cut. destruct (s_dtype s); intros H; inversion H; reflexivity.
Qed.

(* ================================================================= *)
(** ** Bucketing *)

Ltac qle_cases :=
  repeat match goal with
         | H : Qle_bool _ _ = true |- _ => apply Qle_bool_iff in H
         | H : Qle_bool _ _ = false |- _ =>
             apply not_true_iff_false in H; rewrite Qle_bool_iff in H
         end.

(** The price bins, read off the source: (0, 20], (20, 50], (50, 100],
    (100, inf). *)
Lemma price_label_spec q :
  cut_label q price_bins price_labels
  = if Qle_bool q 0 then None
    else if Qle_bool q 20 then Some "Budget"
    else if Qle_bool q 50 then Some "Mid-Range"
    else if Qle_bool q 100 then Some "Premium"
    else Some "Luxury".
Proof.
  unfold price_bins, price_labels; simpl.
  destruct (Qle_bool q 0) eqn:E0; destruct (Qle_bool q 20) eqn:E1;
    destruct (Qle_bool q 50) eqn:E2; destruct (Qle_bool q 100) eqn:E3;
    simpl; try reflexivity; qle_cases; exfalso; lra.
Qed.

(** The rating bins: (0, 2], (2, 3], (3, 4], (4, 5]. *)
Lemma rating_label_spec q :
  cut_label q rating_bins rating_labels
  = if Qle_bool q 0 then None
    else if Qle_bool q 2 then Some "Poor"
    else if Qle_bool q 3 then Some "Fair"
    else if Qle_bool q 4 then Some "Good"
    else if Qle_bool q 5 then Some "Excellent"
    else None.
Proof.
  unfold rating_bins, rating_labels; simpl.
  destruct (Qle_bool q 0) eqn:E0; destruct (Qle_bool q 2) eqn:E1;
    destruct (Qle_bool q 3) eqn:E2; destruct (Qle_bool q 4) eqn:E3;
    destruct (Qle_bool q 5) eqn:E4;
    simpl; try reflexivity; qle_cases; exfalso; lra.
Qed.

Lemma Qle_bool_false q r : (r < q)%Q -> Qle_bool q r = false.
Proof.
  intros H. apply not_true_iff_false. rewrite Qle_bool_iff. lra.
Qed.

Lemma Qle_bool_true q r : (q <= r)%Q -> Qle_bool q r = true.
Proof. intros H. apply Qle_bool_iff; exact H. Qed.

(** C9 as worded fails: under a lower-bound-inclusive convention each of
    the edges 20, 50 and 100 would belong to the bin it opens, but the code
    puts each edge into the bin it closes. *)
Lemma C9_counterexample :
  ~ (forall b, In b [20%Q; 50%Q; 100%Q] ->
       cut_label b price_bins price_labels
       = bin_with_lower_edge b price_bins price_labels).
Proof.
  intros H. specialize (H 20%Q (or_introl eq_refl)).
  vm_compute in H. discriminate H.
Qed.

(** C9, amended. Price bins are closed on the right and open on the left:
    in the enriched table a price in (0, 20] is "Budget" (so 20.00 is
    "Budget"), a price in (20, 50] is "Mid-Range", a price in (50, 100] is
    "Premium", and every price above 100 is "Luxury". *)
Theorem C9_price_bins_closed_on_the_right df out s :
  add_calculated_fields df = Ok out ->
  lookup "price" (cols df) = Some s ->
  exists c,
    lookup "price_category" (cols out) = Some c
    /\ forall i v p,
         nth_error (s_values s) i = Some v -> num_of v = Some p ->
         ((0 < p /\ p <= 20)%Q ->
            nth_error (s_values c) i = Some (VStr "Budget"))
         /\ ((20 < p /\ p <= 50)%Q ->
            nth_error (s_values c) i = Some (VStr "Mid-Range"))
         /\ ((50 < p /\ p <= 100)%Q ->
            nth_error (s_values c) i = Some (VStr "Premium"))
         /\ ((100 < p)%Q ->
            nth_error (s_values c) i = Some (VStr "Luxury")).
Proof.
  intros H L.
  destruct (enrich_price_category df out s H L) as [c [Hc Lc]].
  exists c. split; [exact Lc|].
  apply cut_values in Hc. subst c. simpl.
  intros i v p Hi Hv.
  rewrite nth_error_map, Hi. simpl.
  unfold cut_cell. rewrite Hv, price_label_spec.
  repeat split; intros B.
  - destruct B as [B1 B2].
    rewrite (Qle_bool_false p 0 B1), (Qle_bool_true p 20 B2). reflexivity.
  - destruct B as [B1 B2].
    rewrite (Qle_bool_false p 0), (Qle_bool_false p 20 B1),
      (Qle_bool_true p 50 B2) by lra. reflexivity.
  - destruct B as [B1 B2].
    rewrite (Qle_bool_false p 0), (Qle_bool_false p 20),
      (Qle_bool_false p 50 B1), (Qle_bool_true p 100 B2) by lra. reflexivity.
  - rewrite (Qle_bool_false p 0), (Qle_bool_false p 20),
      (Qle_bool_false p 50), (Qle_bool_false p 100 B) by lra. reflexivity.
Qed.

(** On the edges: 20 is "Budget", 50 "Mid-Range", 100 "Premium", and 150
    "Luxury". *)
Lemma C9_witness :
  exists out c,
    add_calculated_fields priced = Ok out
    /\ lookup "price_category" (cols out) = Some c
    /\ nth_error (s_values c) 0 = Some (VStr "Budget")
    /\ nth_error (s_values c) 1 = Some (VStr "Mid-Range")
    /\ nth_error (s_values c) 2 = Some (VStr "Premium")
    /\ nth_error (s_values c) 3 = Some (VStr "Luxury").
Proof.
  destruct (C9_price_bins_closed_on_the_right priced
              (mkDF 4 (cols priced ++
                 [("price_category",
                   mkSeries DCategory
                     [VStr "Budget"; VStr "Mid-Range"; VStr "Premium";
                      VStr "Luxury"])]))
              (mkSeries DFloat64 [VFloat 20; VFloat 50; VFloat 100; VFloat 150])
              eq_refl eq_refl) as [c [Lc Hc]].
  eexists; exists c.
  split; [reflexivity|]. split; [exact Lc|].
  split; [apply (Hc 0%nat (VFloat 20) 20%Q eq_refl eq_refl); split;
          [reflexivity | discriminate]|].
  split; [apply (Hc 1%nat (VFloat 50) 50%Q eq_refl eq_refl); split;
          [reflexivity | discriminate]|].
  split; [apply (Hc 2%nat (VFloat 100) 100%Q eq_refl eq_refl); split;
          [reflexivity | discriminate]|].
  apply (Hc 3%nat (VFloat 150) 150%Q eq_refl eq_refl); reflexivity.
Defined.

(** A missing price, rating or stock in a float column is replaced by 0. *)
Lemma fill_numeric_quantity c vs :
  mem_str c quantity_columns = true ->
  fill_numeric c (mkSeries DFloat64 vs)
  = mkSeries DFloat64 (map (fun v => if isna v then VFloat 0 else v) vs).
Proof.
  intros H. unfold fill_numeric; cbn [s_dtype s_values]. rewrite H.
  destruct (Nat.ltb 0 (count_na vs)) eqn:E; [reflexivity|].
  f_equal. apply Nat.ltb_ge in E.
  unfold count_na in E.
  induction vs as [|v vs IH]; simpl in *; [reflexivity|].
  destruct (isna v); simpl in E; [lia|].
  f_equal. apply IH; exact E.
Qed.

(** C10. A price of exactly 0 (the value the missing-value policy puts in
    place of a missing price) gets a null price_category, and a rating of
    exactly 0 a null rating_category: the lowest bin excludes its lower
    edge 0.  So the enricher can leave nulls in the bucket columns of a
    table whose cells were all filled. *)
Theorem C10_zero_price_or_rating_has_no_bucket df out :
  add_calculated_fields df = Ok out ->
  (forall sp,
     lookup "price" (cols df) = Some sp ->
     exists cp,
       lookup "price_category" (cols out) = Some cp
       /\ forall i v q,
            nth_error (s_values sp) i = Some v -> num_of v = Some q ->
            (q == 0)%Q -> nth_error (s_values cp) i = Some VNaN)
  /\ (forall sr,
        lookup "rating" (cols df) = Some sr ->
        exists cr,
          lookup "rating_category" (cols out) = Some cr
          /\ forall i v q,
               nth_error (s_values sr) i = Some v -> num_of v = Some q ->
               (q == 0)%Q -> nth_error (s_values cr) i = Some VNaN).
Proof.
  intros H. split.
  - intros sp Lp.
    destruct (enrich_price_category df out sp H Lp) as [cp [Hp Lcp]].
    exists cp. split; [exact Lcp|].
    apply cut_values in Hp. subst cp. simpl.
    intros i v q Hi Hv Hq. rewrite nth_error_map, Hi; simpl.
    unfold cut_cell; rewrite Hv.
    rewrite price_label_spec, (Qle_bool_true q 0) by lra. reflexivity.
  - intros sr Lr.
    destruct (enrich_rating_category df out sr H Lr) as [cr [Hr Lcr]].
    exists cr. split; [exact Lcr|].
    apply cut_values in Hr. subst cr. simpl.
    intros i v q Hi Hv Hq. rewrite nth_error_map, Hi; simpl.
    unfold cut_cell; rewrite Hv.
    rewrite rating_label_spec, (Qle_bool_true q 0) by lra. reflexivity.
Qed.

(** [cable] has neither price nor rating: both are filled with 0 by the
    normalizer, no cell of the normalized table is null, and the enriched
    row has a null in both bucket columns. *)
Lemma C10_witness :
  clean_api_data sample_time [phone; cable] = Ok sample_api
  /\ null_free sample_api = true
  /\ merge_datasets sample_api empty_frame = Ok sample_merged
  /\ lookup "price" (cols sample_merged)
     = Some (mkSeries DFloat64 [VFloat 20; VFloat 0])
  /\ exists cp cr,
       lookup "price_category" (cols sample_enriched) = Some cp
       /\ lookup "rating_category" (cols sample_enriched) = Some cr
       /\ nth_error (s_values cp) 1 = Some VNaN
       /\ nth_error (s_values cr) 1 = Some VNaN.
Proof.
  split; [vm_compute; reflexivity|].
  split; [vm_compute; reflexivity|].
  split; [vm_compute; reflexivity|].
  split; [reflexivity|].
  destruct (C10_zero_price_or_rating_has_no_bucket
              sample_merged sample_enriched eq_refl) as [Price Rating].
  destruct (Price (mkSeries DFloat64 [VFloat 20; VFloat 0]) eq_refl)
    as [cp [Lp Hp]].
  destruct (Rating (mkSeries DFloat64 [VFloat (9 # 2); VFloat 0]) eq_refl)
    as [cr [Lr Hr]].
  exists cp, cr. split; [exact Lp|]. split; [exact Lr|].
  split.
  - apply (Hp 1%nat (VFloat 0) 0%Q eq_refl eq_refl). reflexivity.
  - apply (Hr 1%nat (VFloat 0) 0%Q eq_refl eq_refl). reflexivity.
Defined.

(* ================================================================= *)
(** ** Statistics on a column without values *)

Lemma price_block_all_missing s :
  aggregates (s_dtype s) = true -> numbers (s_values s) = [] ->
  price_block_of s = Ok nan_price_block.
Proof.
  intros A N. unfold price_block_of, aggregable.
  destruct (s_dtype s); try discriminate A; rewrite N; reflexivity.
Qed.

Lemma statistics_price_block df st :
  generate_statistics df = Ok st ->
  block_of "price" price_block_of df = Ok (price_stats st).
Proof.
  intros H. unfold generate_statistics in H.
  repeat inv_bind H. inversion H; subst; reflexivity.
Qed.

(** C8 as worded fails: the frame [unpriced] has a price column whose only
    value is missing, and its statistics hold a price_stats block. *)
Lemma C8_counterexample :
  ~ (forall df s st,
       lookup "price" (cols df) = Some s ->
       numbers (s_values s) = [] ->
       generate_statistics df = Ok st ->
       price_stats st = None).
Proof.
  intros H.
  specialize (H unpriced _ _ eq_refl eq_refl eq_refl).
  discriminate H.
Qed.

(** C8, amended. The price_stats block is left out exactly when the table
    has no price column. When the column exists and every value in it is
    missing, the block is built without an exception and each of its
    aggregates (mean, median, min, max, std) is NaN. *)
Theorem C8_all_missing_price_gives_nan_block df s :
  lookup "price" (cols df) = Some s ->
  aggregates (s_dtype s) = true ->
  numbers (s_values s) = [] ->
  block_of "price" price_block_of df = Ok (Some nan_price_block)
  /\ (forall st, generate_statistics df = Ok st ->
                 price_stats st = Some nan_price_block)
  /\ (forall df' st, generate_statistics df' = Ok st ->
         (price_stats st = None <-> lookup "price" (cols df') = None)).
Proof.
  intros L A N.
  assert (B : block_of "price" price_block_of df = Ok (Some nan_price_block)).
  { unfold block_of. rewrite L, (price_block_all_missing s A N). reflexivity. }
  split; [exact B|]. split.
  - intros st H. apply statistics_price_block in H.
    rewrite B in H. inversion H; reflexivity.
  - intros df' st H. apply statistics_price_block in H.
    unfold block_of in H.
    destruct (lookup "price" (cols df')) as [s'|].
    + inv_bind H. inversion H. split; discriminate.
    + inversion H. split; reflexivity.
Qed.

Lemma C8_witness :
  exists st,
    generate_statistics unpriced = Ok st
    /\ price_stats st = Some nan_price_block.
Proof.
  eexists. split; [reflexivity|].
  apply (C8_all_missing_price_gives_nan_block unpriced
           (mkSeries DFloat64 [VNaN]) eq_refl eq_refl eq_refl).
  reflexivity.
Defined.

(* ================================================================= *)
(** ** Duplicate detection: what the one-pass scan computes *)

Lemma hkey_eqb_eq a b : hkey_eqb a b = true <-> a = b.
Proof.
  destruct a as [|[pn pd]|s], b as [|[qn qd]|t]; simpl;
    try (split; [discriminate | intros H; discriminate H]);
    try (split; reflexivity).
  - rewrite andb_true_iff, Z.eqb_eq, Pos.eqb_eq.
    split; [intros [-> ->]; reflexivity | intros H; inversion H; auto].
  - rewrite String.eqb_eq. split; [intros ->; reflexivity|].
    intros H; inversion H; reflexivity.
Qed.

Lemma rowkey_eqb_eq a b : rowkey_eqb a b = true <-> a = b.
Proof.
  revert b; induction a as [|x a IH]; intros [|y b]; simpl;
    try (split; [discriminate | intros H; discriminate H]);
    try (split; reflexivity).
  rewrite andb_true_iff, hkey_eqb_eq, IH.
  split; [intros [-> ->]; reflexivity | intros H; inversion H; auto].
Qed.

Lemma rowkey_eqb_refl a : rowkey_eqb a a = true.
Proof. apply rowkey_eqb_eq; reflexivity. Qed.

Lemma rowkey_eqb_neq a b : rowkey_eqb a b = false <-> a <> b.
Proof.
  rewrite <- rowkey_eqb_eq. destruct (rowkey_eqb a b); split; congruence.
Qed.

Lemma seen_before_In k seen : seen_before k seen = true <-> In k seen.
Proof.
  unfold seen_before. rewrite existsb_exists. split.
  - intros [x [Hx E]]. apply rowkey_eqb_eq in E; subst; exact Hx.
  - intros H. exists k. split; [exact H | apply rowkey_eqb_refl].
Qed.

Lemma duplicated_length seen ks :
  List.length (duplicated seen ks) = List.length ks.
Proof.
  revert seen; induction ks as [|k ks IH]; intros seen; simpl; [reflexivity|].
  destruct (seen_before k seen); simpl; rewrite IH; reflexivity.
Qed.


Lemma filter_filter_seen k seen (l : list rowkey) :
  filter (fun x => negb (seen_before x (k :: seen))) l
  = filter (fun x => negb (seen_before x seen))
           (filter (fun x => negb (rowkey_eqb x k)) l).
Proof.
  induction l as [|x l IH]; simpl; [reflexivity|].
  unfold seen_before at 1; simpl. fold (seen_before x seen).
  destruct (rowkey_eqb x k) eqn:E; simpl.
  - exact IH.
  - destruct (seen_before x seen); simpl; [exact IH | f_equal; exact IH].
Qed.

Lemma filter_seen_absorbs k seen (l : list rowkey) :
  seen_before k seen = true ->
  filter (fun x => negb (seen_before x seen))
         (filter (fun x => negb (rowkey_eqb x k)) l)
  = filter (fun x => negb (seen_before x seen)) l.
Proof.
  intros S. induction l as [|x l IH]; simpl; [reflexivity|].
  destruct (rowkey_eqb x k) eqn:E; simpl.
  - apply rowkey_eqb_eq in E; subst. rewrite S; simpl. exact IH.
  - destruct (seen_before x seen); simpl; [exact IH | f_equal; exact IH].
Qed.

(** The rows the scan keeps are the first occurrences of the keys not seen
    before, in their order. *)
Lemma select_first_occurrences seen ks :
  select (map negb (duplicated seen ks)) ks
  = filter (fun x => negb (seen_before x seen)) (keep_first ks).
Proof.
  revert seen; induction ks as [|k ks IH]; intros seen; simpl; [reflexivity|].
  destruct (seen_before k seen) eqn:S; simpl.
  - rewrite IH, filter_seen_absorbs by exact S. reflexivity.
  - f_equal. rewrite IH. apply filter_filter_seen.
Qed.


Lemma keep_first_NoDup ks : NoDup (keep_first ks).
Proof.
  induction ks as [|k ks IH]; simpl; constructor.
  - rewrite filter_In. intros [_ H]. rewrite rowkey_eqb_refl in H. discriminate.
  - apply NoDup_filter; exact IH.
Qed.

Lemma select_length {A} (mask : list bool) (l : list A) :
  List.length mask = List.length l ->
  List.length (select mask l) = count_true mask.
Proof.
  unfold count_true. revert l; induction mask as [|b m IH]; intros [|x l] H;
    simpl in *; try discriminate; [reflexivity|].
  destruct b; simpl; rewrite IH by lia; reflexivity.
Qed.

Lemma duplicated_fresh seen ks :
  NoDup ks -> (forall k, In k ks -> ~ In k seen) ->
  duplicated seen ks = repeat false (List.length ks).
Proof.
  intros N; revert seen; induction N as [|k ks Hk N IH]; intros seen D; simpl;
    [reflexivity|].
  destruct (seen_before k seen) eqn:S.
  - apply seen_before_In in S. exfalso. apply (D k); simpl; auto.
  - f_equal. apply IH. intros x Hx [E|Hs].
    + subst; contradiction.
    + apply (D x); simpl; auto.
Qed.

Lemma duplicated_all_seen seen ks :
  (forall k, In k ks -> In k seen) ->
  duplicated seen ks = repeat true (List.length ks).
Proof.
  induction ks as [|k ks IH]; intros D; simpl; [reflexivity|].
  assert (S : seen_before k seen = true)
    by (apply seen_before_In, D; simpl; auto).
  rewrite S. f_equal. apply IH. intros x Hx; apply D; simpl; auto.
Qed.

(** Scanning a duplicate-free list and then the same list again: the first
    copy is kept, the second is dropped. *)
Lemma duplicated_twice seen ks :
  NoDup ks -> (forall k, In k ks -> ~ In k seen) ->
  duplicated seen (ks ++ ks)
  = (repeat false (List.length ks) ++ repeat true (List.length ks))%list.
Proof.
  intros N D.
  assert (G : forall front seen,
             (forall k, In k front -> In k seen) ->
             forall back, NoDup back ->
             (forall k, In k back -> ~ In k seen) ->
             duplicated seen (back ++ front ++ back)
             = (repeat false (List.length back)
                ++ repeat true (List.length (front ++ back)))%list).
  { intros front seen0 F back NB. revert front seen0 F.
    induction NB as [|k back Hk NB IH]; intros front seen0 F DB; simpl.
    - rewrite app_nil_r. apply duplicated_all_seen; exact F.
    - destruct (seen_before k seen0) eqn:S.
      + apply seen_before_In in S. exfalso. apply (DB k); simpl; auto.
      + f_equal.
        replace (back ++ front ++ k :: back)%list
          with (back ++ (front ++ [k]) ++ back)%list
          by (rewrite <- app_assoc; reflexivity).
        rewrite IH.
        * rewrite !length_app; simpl. do 2 f_equal. lia.
        * intros x Hx. apply in_app_or in Hx. destruct Hx as [Hx|[Hx|[]]].
          -- right; apply F; exact Hx.
          -- left; exact Hx.
        * intros x Hx [E|Hs].
          -- subst; contradiction.
          -- apply (DB x); simpl; auto. }
  specialize (G [] seen (fun k (H : In k []) => match H with end) ks N D).
  simpl in G. exact G.
Qed.

(* ================================================================= *)
(** ** Row selection and row keys *)

Lemma select_app {A} (m1 m2 : list bool) (l1 l2 : list A) :
  List.length m1 = List.length l1 ->
  select (m1 ++ m2) (l1 ++ l2) = (select m1 l1 ++ select m2 l2)%list.
Proof.
  revert l1; induction m1 as [|b m1 IH]; intros [|x l1] H; simpl in *;
    try discriminate; [reflexivity|].
  destruct b; simpl; rewrite IH by lia; reflexivity.
Qed.

Lemma select_all {A} (l : list A) : select (repeat true (List.length l)) l = l.
Proof. induction l as [|x l IH]; simpl; [reflexivity | f_equal; exact IH]. Qed.

Lemma select_none {A} n (l : list A) : select (repeat false n) l = [].
Proof.
  revert l; induction n as [|n IH]; intros [|x l]; simpl; auto.
Qed.

Lemma select_map {A B} (f : A -> B) m l :
  select m (map f l) = map f (select m l).
Proof.
  revert l; induction m as [|b m IH]; intros [|x l]; simpl; auto.
  destruct b; simpl; rewrite IH; reflexivity.
Qed.

Lemma combine_nil_r {A B} (l : list A) : combine l (@nil B) = [].
Proof. destruct l; reflexivity. Qed.

Lemma select_nil {A} m : select m (@nil A) = [].
Proof. destruct m; reflexivity. Qed.

Lemma select_combine {A B} m (a : list A) (b : list B) :
  select m (combine a b) = combine (select m a) (select m b).
Proof.
  revert a b; induction m as [|c m IH]; intros [|x a] [|y b]; simpl; auto.
  - destruct c; simpl; rewrite ?select_nil, ?combine_nil_r; reflexivity.
  - destruct c; simpl; rewrite IH; reflexivity.
Qed.

Lemma select_repeat {A} m (x : A) :
  select m (repeat x (List.length m)) = repeat x (count_true m).
Proof.
  unfold count_true. induction m as [|b m IH]; simpl; [reflexivity|].
  destruct b; simpl; rewrite IH; reflexivity.
Qed.

Lemma count_true_all n : count_true (repeat true n) = n.
Proof.
  unfold count_true. induction n; simpl; [reflexivity | f_equal; assumption].
Qed.

Lemma count_true_none n : count_true (repeat false n) = 0%nat.
Proof. unfold count_true. induction n; simpl; assumption || reflexivity. Qed.

Lemma count_true_app m1 m2 :
  count_true (m1 ++ m2) = (count_true m1 + count_true m2)%nat.
Proof. unfold count_true. rewrite filter_app, length_app. reflexivity. Qed.

Lemma mapM_select {A B} (f : A -> result B) m l bs :
  mapM f l = Ok bs -> mapM f (select m l) = Ok (select m bs).
Proof.
  revert l bs; induction m as [|c m IH]; intros [|x l] bs H; simpl in *.
  - reflexivity.
  - reflexivity.
  - inversion H; reflexivity.
  - inv_bind H. inv_bind H. inversion H; subst.
    destruct c; simpl.
    + rewrite E. cbn [bind]. rewrite (IH _ _ E0). reflexivity.
    + apply IH; exact E0.
Qed.

Lemma mapM_ext_in {A B C} (F : A -> result C) (G : B -> C) (h : B -> A) l :
  (forall p, In p l -> F (h p) = Ok (G p)) ->
  mapM F (map h l) = Ok (map G l).
Proof.
  induction l as [|p l IH]; intros H; simpl; [reflexivity|].
  rewrite (H p) by (simpl; auto). cbn [bind].
  rewrite IH by (intros q Hq; apply H; simpl; auto). reflexivity.
Qed.

Lemma mapM_Forall {A B} (f : A -> result B) (P : B -> Prop) l bs :
  mapM f l = Ok bs ->
  (forall a b, In a l -> f a = Ok b -> P b) -> Forall P bs.
Proof.
  revert bs; induction l as [|a l IH]; intros bs H HP; simpl in H.
  - inversion H; constructor.
  - inv_bind H. inv_bind H. inversion H; subst. constructor.
    + apply (HP a); simpl; auto.
    + apply (IH _ eq_refl). intros x b Hx; apply HP; simpl; auto.
Qed.

Lemma row_keys_length n colkeys :
  Forall (fun ks : list hkey => List.length ks = n) colkeys ->
  List.length (row_keys n colkeys) = n.
Proof.
  induction 1 as [|ks rest H _ IH]; simpl.
  - apply repeat_length.
  - rewrite length_map, length_combine, IH, H. apply Nat.min_id.
Qed.

Lemma row_keys_select m colkeys :
  row_keys (count_true m) (map (select m) colkeys)
  = select m (row_keys (List.length m) colkeys).
Proof.
  induction colkeys as [|ks rest IH]; simpl.
  - symmetry; apply select_repeat.
  - rewrite IH, select_map, select_combine. reflexivity.
Qed.

Lemma combine_app {A B} (a1 a2 : list A) (b1 b2 : list B) :
  List.length a1 = List.length b1 ->
  combine (a1 ++ a2) (b1 ++ b2) = (combine a1 b1 ++ combine a2 b2)%list.
Proof.
  revert b1; induction a1 as [|x a1 IH]; intros [|y b1] H; simpl in *;
    try discriminate; [reflexivity|].
  rewrite IH by lia; reflexivity.
Qed.

Lemma row_keys_twice n colkeys :
  Forall (fun ks : list hkey => List.length ks = n) colkeys ->
  row_keys (n + n) (map (fun ks => ks ++ ks)%list colkeys)
  = (row_keys n colkeys ++ row_keys n colkeys)%list.
Proof.
  intros F. induction F as [|ks rest H F IH]; simpl.
  - apply repeat_app.
  - rewrite IH, combine_app, map_app.
    + reflexivity.
    + rewrite row_keys_length by exact F. exact H.
Qed.

(* ================================================================= *)
(** ** Well-formed frames *)

Lemma distinct_NoDup l : distinct l = true <-> NoDup l.
Proof.
  induction l as [|x l IH]; simpl.
  - split; [constructor | reflexivity].
  - rewrite andb_true_iff, negb_true_iff, IH. split.
    + intros [M N]. constructor; [|exact N].
      intros I. apply mem_str_true_iff in I. congruence.
    + intros N. inversion N; subst. split; [|assumption].
      destruct (mem_str x l) eqn:M; [|reflexivity].
      apply mem_str_true_iff in M. contradiction.
Qed.

Lemma well_formed_iff df :
  well_formed df = true
  <-> NoDup (columns df)
      /\ Forall (fun p => List.length (s_values (snd p)) = nrows df) (cols df).
Proof.
  unfold well_formed.
  rewrite andb_true_iff, distinct_NoDup, forallb_forall, Forall_forall.
  split; intros [N F]; (split; [exact N|]); intros p Hp.
  - apply Nat.eqb_eq, F, Hp.
  - apply Nat.eqb_eq, F, Hp.
Qed.

Lemma NoDup_lookup {A} (l : list (string * A)) c a :
  NoDup (map fst l) -> In (c, a) l -> lookup c l = Some a.
Proof.
  induction l as [|[k b] l IH]; simpl; [intros _ []|]. intros N [E|I].
  - inversion E; subst. rewrite String.eqb_refl; reflexivity.
  - inversion N; subst.
    destruct (String.eqb c k) eqn:E.
    + apply String.eqb_eq in E; subst. exfalso. apply H1.
      apply (in_map fst) in I. exact I.
    + apply IH; assumption.
Qed.

Lemma lookup_length df c s :
  well_formed df = true -> lookup c (cols df) = Some s ->
  List.length (s_values s) = nrows df.
Proof.
  intros W L. apply well_formed_iff in W. destruct W as [_ F].
  rewrite Forall_forall in F. apply (F (c, s)). apply lookup_In; exact L.
Qed.

Lemma lookup_map_snd {A B} (g : string -> A -> B) c (l : list (string * A)) :
  lookup c (map (fun p => (fst p, g (fst p) (snd p))) l)
  = option_map (g c) (lookup c l).
Proof.
  induction l as [|[k a] l IH]; simpl; [reflexivity|].
  destruct (String.eqb c k) eqn:E; [|exact IH].
  apply String.eqb_eq in E; subst; reflexivity.
Qed.

Lemma drop_duplicates_inv subset df out :
  drop_duplicates subset df = Ok out ->
  (df_empty df = true /\ out = df)
  \/ (df_empty df = false
      /\ exists ss ks,
           mapM (fun c => get_col c df) subset = Ok ss
           /\ mapM (fun s => mapM hash_key (s_values s)) ss = Ok ks
           /\ out = select_rows
                      (map negb (duplicated [] (row_keys (nrows df) ks))) df).
Proof.
  unfold drop_duplicates. destruct (df_empty df).
  - intros H; inversion H; auto.
  - intros H. inv_bind H. inv_bind H. inversion H; subst.
    right. split; [reflexivity|]. eauto.
Qed.

(** Columns read from a frame whose columns were all rewritten by [g]. *)
Lemma get_cols_map (g : Series -> Series) df df' subset ss :
  cols df' = map (fun p => (fst p, g (snd p))) (cols df) ->
  mapM (fun c => get_col c df) subset = Ok ss ->
  mapM (fun c => get_col c df') subset = Ok (map g ss).
Proof.
  intros C. revert ss; induction subset as [|c subset IH]; intros ss H;
    simpl in *.
  - inversion H; reflexivity.
  - inv_bind H. inv_bind H. inversion H; subst.
    assert (G : get_col c df' = Ok (g a)).
    { unfold get_col in E |- *. rewrite C, (lookup_map_snd (fun _ => g)).
      destruct (lookup c (cols df)); [|discriminate E].
      inversion E; reflexivity. }
    rewrite G. cbn [bind]. rewrite (IH _ eq_refl). reflexivity.
Qed.

Lemma get_cols_length df subset ss :
  well_formed df = true ->
  mapM (fun c => get_col c df) subset = Ok ss ->
  Forall (fun s => List.length (s_values s) = nrows df) ss.
Proof.
  intros W H. apply (mapM_Forall _ _ _ _ H).
  intros c s _ G. unfold get_col in G.
  destruct (lookup c (cols df)) eqn:L; [|discriminate G].
  inversion G; subst. apply (lookup_length df c); assumption.
Qed.

Lemma hash_keys_length n ss ks :
  Forall (fun s => List.length (s_values s) = n) ss ->
  mapM (fun s => mapM hash_key (s_values s)) ss = Ok ks ->
  Forall (fun k : list hkey => List.length k = n) ks.
Proof.
  intros F H. apply (mapM_Forall _ _ _ _ H).
  intros s k I G. rewrite Forall_forall in F.
  rewrite (mapM_length _ _ _ G). apply F; exact I.
Qed.

Lemma hash_keys_take keep ss ks :
  mapM (fun s => mapM hash_key (s_values s)) ss = Ok ks ->
  mapM (fun s => mapM hash_key (s_values s)) (map (take keep) ss)
  = Ok (map (select keep) ks).
Proof.
  revert ks; induction ss as [|s ss IH]; intros ks H; simpl in *.
  - inversion H; reflexivity.
  - inv_bind H. inv_bind H. inversion H; subst.
    rewrite (mapM_select _ keep _ _ E). cbn [bind].
    rewrite (IH _ eq_refl). reflexivity.
Qed.

Lemma hash_keys_stacked ss ks :
  mapM (fun s => mapM hash_key (s_values s)) ss = Ok ks ->
  mapM (fun s => mapM hash_key (s_values s)) (map stacked ss)
  = Ok (map (fun k => k ++ k)%list ks).
Proof.
  revert ks; induction ss as [|s ss IH]; intros ks H; simpl in *.
  - inversion H; reflexivity.
  - inv_bind H. inv_bind H. inversion H; subst.
    rewrite (mapM_app _ _ _ _ _ E E). cbn [bind].
    rewrite (IH _ eq_refl). reflexivity.
Qed.

Lemma select_rows_well_formed keep df :
  well_formed df = true -> List.length keep = nrows df ->
  well_formed (select_rows keep df) = true.
Proof.
  intros W K. apply well_formed_iff in W. destruct W as [N F].
  apply well_formed_iff. unfold columns, select_rows; simpl. split.
  - rewrite map_map; simpl. exact N.
  - rewrite Forall_map. eapply Forall_impl; [|exact F].
    intros p Hp; simpl. apply select_length. congruence.
Qed.

(** The keys of the rows kept by the scan are the first occurrences. *)
Lemma kept_keys n ks :
  Forall (fun k : list hkey => List.length k = n) ks ->
  let keep := map negb (duplicated [] (row_keys n ks)) in
  row_keys (count_true keep) (map (select keep) ks)
  = keep_first (row_keys n ks)
  /\ List.length keep = n.
Proof.
  intros F keep.
  assert (L : List.length keep = n).
  { unfold keep. rewrite length_map, duplicated_length.
    apply row_keys_length; exact F. }
  split; [|exact L].
  rewrite row_keys_select, L. unfold keep.
  rewrite select_first_occurrences.
  apply forallb_filter_id. apply forallb_forall. reflexivity.
Qed.

(* ================================================================= *)
(** ** Concatenation *)

Lemma series_eta s : mkSeries (s_dtype s) (s_values s) = s.
Proof. destruct s; reflexivity. Qed.

Lemma frame_eta df : mkDF (nrows df) (cols df) = df.
Proof. destruct df; reflexivity. Qed.

Lemma cast_cells_same d vs : cast_cells d d vs = vs.
Proof. destruct d; reflexivity. Qed.

Lemma cast_cells_length a b vs :
  List.length (cast_cells a b vs) = List.length vs.
Proof. destruct a, b; simpl; rewrite ?length_map; reflexivity. Qed.

Lemma common_dtype_same d : common_dtype d d = Ok d.
Proof. destruct d; reflexivity. Qed.

Lemma has_col_In c df : has_col c df = true <-> In c (columns df).
Proof. apply mem_str_true_iff. Qed.

Lemma filter_known_columns df :
  filter (fun c => negb (has_col c df)) (columns df) = [].
Proof.
  assert (G : forall l, (forall c, In c l -> In c (columns df)) ->
                        filter (fun c => negb (has_col c df)) l = []).
  { induction l as [|c l IH]; intros H; simpl; [reflexivity|].
    assert (T : has_col c df = true) by (apply has_col_In, H; simpl; auto).
    rewrite T; simpl. apply IH. intros x Hx; apply H; simpl; auto. }
  apply G; auto.
Qed.

Lemma concat_self df :
  well_formed df = true -> concat df df = Ok (twice df).
Proof.
  intros W. apply well_formed_iff in W. destruct W as [N _].
  unfold concat. rewrite filter_known_columns, app_nil_r.
  unfold columns.
  rewrite (mapM_ext_in (concat_column df df)
             (fun p => (fst p, stacked (snd p))) fst).
  - reflexivity.
  - intros [c s] I. simpl. unfold concat_column.
    rewrite (NoDup_lookup _ c s N I).
    destruct (Nat.eqb (nrows df) 0); [reflexivity|].
    rewrite common_dtype_same. cbn [bind].
    rewrite cast_cells_same. reflexivity.
Qed.

Lemma concat_empty_r df :
  well_formed df = true -> concat df empty_frame = Ok df.
Proof.
  intros W. apply well_formed_iff in W. destruct W as [N _].
  unfold concat. simpl. rewrite app_nil_r, Nat.add_0_r.
  unfold columns.
  rewrite (mapM_ext_in (concat_column df empty_frame) (fun p => p) fst).
  - cbn [bind]. rewrite map_id, frame_eta. reflexivity.
  - intros [c s] I. simpl. unfold concat_column.
    rewrite (NoDup_lookup _ c s N I). reflexivity.
Qed.

Lemma no_rows_no_values df :
  well_formed df = true -> nrows df = 0%nat ->
  Forall (fun p => s_values (snd p) = []) (cols df).
Proof.
  intros W Z. apply well_formed_iff in W. destruct W as [_ F].
  eapply Forall_impl; [|exact F].
  intros p Hp; simpl in Hp. rewrite Z in Hp.
  destruct (s_values (snd p)); [reflexivity | discriminate Hp].
Qed.

Lemma twice_no_rows df :
  well_formed df = true -> nrows df = 0%nat -> twice df = df.
Proof.
  intros W Z. pose proof (no_rows_no_values df W Z) as F.
  unfold twice. destruct df as [n cs]; simpl in *. subst n. simpl.
  f_equal. transitivity (map (fun p : string * Series => p) cs);
    [|apply map_id].
  apply map_ext_in. intros [c s] I.
  rewrite Forall_forall in F. specialize (F _ I). simpl in *.
  destruct s as [d vs]; simpl in *. subst vs. reflexivity.
Qed.

Lemma concat_column_fst a b c p : concat_column a b c = Ok p -> fst p = c.
Proof.
  unfold concat_column.
  destruct (lookup c (cols a)), (lookup c (cols b));
    repeat match goal with
           | |- context [if ?x then _ else _] => destruct x
           end;
    intros H; try discriminate H; try (inversion H; reflexivity);
    inv_bind H; inversion H; reflexivity.
Qed.

Lemma concat_column_length a b c p :
  well_formed a = true -> well_formed b = true ->
  concat_column a b c = Ok p ->
  List.length (s_values (snd p)) = (nrows a + nrows b)%nat.
Proof.
  intros Wa Wb. unfold concat_column.
  destruct (lookup c (cols a)) as [sa|] eqn:La;
    destruct (lookup c (cols b)) as [sb|] eqn:Lb;
    try (apply (lookup_length a c) in La; [|exact Wa]);
    try (apply (lookup_length b c) in Lb; [|exact Wb]).
  - destruct (Nat.eqb (nrows b) 0); [|destruct (Nat.eqb (nrows a) 0)];
      intros H; try inv_bind H; inversion H; subst; simpl;
      rewrite length_app, ?cast_cells_length; lia.
  - destruct (Nat.eqb (nrows b) 0) eqn:Z; intros H; inversion H; subst; simpl.
    + apply Nat.eqb_eq in Z. lia.
    + rewrite length_app, cast_cells_length, repeat_length. lia.
  - destruct (Nat.eqb (nrows a) 0) eqn:Z; intros H; inversion H; subst; simpl.
    + apply Nat.eqb_eq in Z. lia.
    + rewrite length_app, cast_cells_length, repeat_length. lia.
  - discriminate.
Qed.

Lemma mapM_fst {B} (f : string -> result (string * B)) l bs :
  mapM f l = Ok bs ->
  (forall x p, f x = Ok p -> fst p = x) ->
  map fst bs = l.
Proof.
  revert bs; induction l as [|x l IH]; intros bs H F; simpl in H.
  - inversion H; reflexivity.
  - inv_bind H. inv_bind H. inversion H; subst. simpl.
    rewrite (F _ _ E), (IH _ eq_refl F). reflexivity.
Qed.

Lemma table_iff df :
  table df = true
  <-> well_formed df = true /\ (cols df = [] -> nrows df = 0%nat).
Proof.
  unfold table. rewrite andb_true_iff, orb_true_iff, negb_true_iff,
    Nat.eqb_eq, Nat.eqb_neq.
  split; intros [W H]; (split; [exact W|]).
  - intros E. destruct H as [H|H]; [|exact H]. rewrite E in H.
    exfalso; apply H; reflexivity.
  - destruct (cols df); [right; auto | left; discriminate].
Qed.

Lemma concat_table a b c :
  table a = true -> table b = true -> concat a b = Ok c -> table c = true.
Proof.
  intros Ta Tb H. apply table_iff in Ta, Tb.
  destruct Ta as [Wa Za], Tb as [Wb Zb].
  unfold concat in H. inv_bind H. inversion H; subst; clear H.
  pose proof (mapM_fst _ _ _ E (concat_column_fst a b)) as Fst.
  apply table_iff. split.
  - apply well_formed_iff. unfold columns; simpl. split.
    + rewrite Fst.
      apply well_formed_iff in Wa, Wb.
      apply NoDup_app; [apply Wa | apply NoDup_filter, Wb|].
      intros x Ia Ib. apply filter_In in Ib. destruct Ib as [_ Ib].
      apply has_col_In in Ia. rewrite Ia in Ib. discriminate Ib.
    + apply (mapM_Forall _ _ _ _ E). intros x p _ Hp.
      apply (concat_column_length a b x); assumption.
  - simpl. intros Nil. subst a0. simpl in Fst.
    symmetry in Fst. apply app_eq_nil in Fst. destruct Fst as [Ca Cb].
    assert (Ea : cols a = []) by (unfold columns in Ca; destruct (cols a); [reflexivity | discriminate Ca]).
    rewrite (Za Ea).
    assert (Eb : cols b = []).
    { unfold columns in Cb. destruct (cols b) as [|[k s] l]; [reflexivity|].
      simpl in Cb. unfold has_col, columns in Cb. rewrite Ea in Cb.
      simpl in Cb. discriminate Cb. }
    rewrite (Zb Eb). reflexivity.
Qed.

(* ================================================================= *)
(** ** Merger *)

Lemma select_rows_twice df :
  well_formed df = true ->
  select_rows (repeat true (nrows df) ++ repeat false (nrows df)) (twice df)
  = df.
Proof.
  intros W. apply well_formed_iff in W. destruct W as [_ F].
  unfold select_rows, twice; simpl.
  rewrite count_true_app, count_true_all, count_true_none, Nat.add_0_r.
  rewrite map_map; simpl.
  rewrite <- (frame_eta df) at 3. f_equal.
  transitivity (map (fun p : string * Series => p) (cols df)); [|apply map_id].
  apply map_ext_in. intros [c s] I.
  rewrite Forall_forall in F. specialize (F _ I). simpl in *.
  unfold take, stacked; simpl.
  rewrite select_app by (rewrite repeat_length; congruence).
  rewrite <- F, select_all, select_none, app_nil_r, series_eta. reflexivity.
Qed.

Lemma select_rows_all df :
  well_formed df = true -> select_rows (repeat true (nrows df)) df = df.
Proof.
  intros W. apply well_formed_iff in W. destruct W as [_ F].
  unfold select_rows. rewrite count_true_all.
  rewrite <- (frame_eta df) at 3. f_equal.
  transitivity (map (fun p : string * Series => p) (cols df)); [|apply map_id].
  apply map_ext_in. intros [c s] I.
  rewrite Forall_forall in F. specialize (F _ I). simpl in *.
  unfold take. rewrite <- F, select_all, series_eta. reflexivity.
Qed.

Lemma map_negb_repeat b n : map negb (repeat b n) = repeat (negb b) n.
Proof. induction n; simpl; [reflexivity | f_equal; assumption]. Qed.

(** De-duplicating a frame whose keys are pairwise distinct changes
    nothing. *)
Lemma drop_duplicates_distinct subset df ss ks :
  well_formed df = true ->
  mapM (fun c => get_col c df) subset = Ok ss ->
  mapM (fun s => mapM hash_key (s_values s)) ss = Ok ks ->
  NoDup (row_keys (nrows df) ks) ->
  drop_duplicates subset df = Ok df.
Proof.
  intros W G Hk N. unfold drop_duplicates.
  destruct (df_empty df); [reflexivity|].
  rewrite G. cbn [bind]. rewrite Hk. cbn [bind].
  rewrite (duplicated_fresh [] _ N) by (intros k _ []).
  rewrite row_keys_length
    by (eapply hash_keys_length; [eapply get_cols_length|]; eassumption).
  rewrite map_negb_repeat. simpl.
  rewrite select_rows_all by exact W. reflexivity.
Qed.

(** A frame with pairwise distinct keys, put on top of itself and
    de-duplicated, is the frame again. *)
Lemma drop_duplicates_twice subset df ss ks :
  table df = true ->
  mapM (fun c => get_col c df) subset = Ok ss ->
  mapM (fun s => mapM hash_key (s_values s)) ss = Ok ks ->
  NoDup (row_keys (nrows df) ks) ->
  drop_duplicates subset (twice df) = Ok df.
Proof.
  intros T G Hk N. apply table_iff in T. destruct T as [W Z].
  assert (Fk : Forall (fun k : list hkey => List.length k = nrows df) ks)
    by (eapply hash_keys_length; [eapply get_cols_length|]; eassumption).
  unfold drop_duplicates. destruct (df_empty (twice df)) eqn:E.
  - f_equal. apply twice_no_rows; [exact W|].
    unfold df_empty, twice in E; simpl in E.
    apply orb_true_iff in E. destruct E as [E|E]; apply Nat.eqb_eq in E.
    + lia.
    + rewrite length_map in E. apply Z.
      destruct (cols df); [reflexivity | discriminate E].
  - rewrite (get_cols_map stacked df (twice df) subset ss eq_refl G).
    cbn [bind]. rewrite (hash_keys_stacked _ _ Hk). cbn [bind].
    change (nrows (twice df)) with (nrows df + nrows df)%nat.
    rewrite (row_keys_twice _ _ Fk).
    rewrite (duplicated_twice [] _ N) by (intros k _ []).
    rewrite (row_keys_length _ _ Fk).
    rewrite map_app, !map_negb_repeat. simpl.
    rewrite select_rows_twice by exact W. reflexivity.
Qed.

(** What [drop_duplicates] returns can be stacked on itself and
    de-duplicated back. *)
Lemma merge_of_deduplicated subset c m :
  table c = true ->
  drop_duplicates subset c = Ok m ->
  table m = true /\ drop_duplicates subset (twice m) = Ok m.
Proof.
  intros T H. pose proof T as T'.
  apply table_iff in T'. destruct T' as [W Z].
  destruct (drop_duplicates_inv _ _ _ H) as [[E ->]|[E [ss [ks [G [Hk ->]]]]]].
  - split; [exact T|].
    assert (N0 : nrows c = 0%nat).
    { unfold df_empty in E. apply orb_true_iff in E.
      destruct E as [E|E]; apply Nat.eqb_eq in E; [exact E|].
      apply Z. destruct (cols c); [reflexivity | discriminate E]. }
    rewrite (twice_no_rows c W N0). unfold drop_duplicates. rewrite E.
    reflexivity.
  - assert (Fk : Forall (fun k : list hkey => List.length k = nrows c) ks)
      by (eapply hash_keys_length; [eapply get_cols_length|]; eassumption).
    destruct (kept_keys (nrows c) ks Fk) as [K L].
    set (keep := map negb (duplicated [] (row_keys (nrows c) ks))) in *.
    assert (Wm : well_formed (select_rows keep c) = true)
      by (apply select_rows_well_formed; assumption).
    assert (Tm : table (select_rows keep c) = true).
    { apply table_iff. split; [exact Wm|].
      simpl. intros Nil. apply map_eq_nil in Nil.
      unfold df_empty in E. rewrite Nil in E. simpl in E.
      rewrite orb_true_r in E. discriminate E. }
    split; [exact Tm|].
    apply (drop_duplicates_twice subset _ (map (take keep) ss)
             (map (select keep) ks)).
    + exact Tm.
    + apply (get_cols_map (take keep) c); [reflexivity | exact G].
    + apply hash_keys_take; exact Hk.
    + simpl. rewrite K. apply keep_first_NoDup.
Qed.

(** C4. Merge is idempotent: for normalized tables A and B with
    M = merge(A, B), merging M with itself gives M again (the same rows in
    the same order, hence the same set of composite keys). *)
Theorem C4_merge_is_idempotent A B M :
  table A = true -> table B = true ->
  merge_datasets A B = Ok M ->
  merge_datasets M M = Ok M.
Proof.
  intros TA TB H. unfold merge_datasets in H. inv_bind H.
  pose proof (concat_table A B a TA TB E) as Tc.
  destruct (merge_of_deduplicated _ a M Tc H) as [Tm D].
  unfold merge_datasets.
  apply table_iff in Tm. destruct Tm as [Wm _].
  rewrite (concat_self M Wm). cbn [bind]. exact D.
Qed.

(** The two normalized samples merge into three rows, and merging the
    result with itself gives it back. *)
Lemma C4_witness :
  normalize Api sample_time [phone; cable] = Ok sample_api
  /\ normalize (Web seed0) sample_time [attic] = Ok sample_web
  /\ merge_datasets sample_api sample_web = Ok sample_both
  /\ nrows sample_both = 3%nat
  /\ merge_datasets sample_both sample_both = Ok sample_both.
Proof.
  split; [vm_compute; reflexivity|]. split; [vm_compute; reflexivity|].
  split; [vm_compute; reflexivity|]. split; [reflexivity|].
  apply (C4_merge_is_idempotent sample_api sample_web sample_both).
  - vm_compute; reflexivity.
  - vm_compute; reflexivity.
  - vm_compute; reflexivity.
Defined.

(** C5 as worded fails: [phone] has id 1 and [anonymous] has none; the
    missing id is filled with the median of the ids, which is 1, so the
    normalized table has two rows with the key (1, DummyJSON_API), and
    merging it with the empty table drops the second. *)
Lemma C5_counterexample :
  ~ (forall now products A,
       clean_api_data now products = Ok A ->
       merge_datasets A empty_frame = Ok A).
Proof.
  intros H.
  pose proof (H sample_time [phone; anonymous] _ eq_refl) as G.
  vm_compute in G. discriminate G.
Qed.

(** C5, amended. For every table A that holds the columns id and
    data_source and whose composite keys (id, data_source) are pairwise
    distinct, merge(A, empty) is A: the same rows in the same order under
    the same columns. *)
Theorem C5_merge_with_empty_is_identity A ks :
  well_formed A = true ->
  composite_keys A = Ok ks ->
  NoDup ks ->
  merge_datasets A empty_frame = Ok A.
Proof.
  intros W K N. unfold merge_datasets.
  rewrite (concat_empty_r A W). cbn [bind].
  unfold composite_keys in K. inv_bind K. inv_bind K.
  inversion K; subst; clear K.
  apply (drop_duplicates_distinct _ A a a0); assumption.
Qed.

Lemma C5_witness :
  nrows sample_api = 2%nat
  /\ merge_datasets sample_api empty_frame = Ok sample_api.
Proof.
  split; [reflexivity|].
  apply (C5_merge_with_empty_is_identity sample_api
           [[HNum 1; HStr "DummyJSON_API"]; [HNum 2; HStr "DummyJSON_API"]]).
  - reflexivity.
  - reflexivity.
  - repeat constructor; simpl; intuition discriminate.
Defined.

(* ================================================================= *)
(** ** Missing values after normalization *)

Lemma normalize_unfold src now products :
  products <> [] ->
  normalize src now products
  = (df <- prepare src now products ;;
     df <- drop_duplicates ["id"] df ;;
     _validate_data_types (_handle_missing_values df)).
Proof.
  intros N. destruct products as [|r rs]; [contradiction|].
  destruct src; reflexivity.
Qed.

Lemma fillna_no_null fill vs :
  isna fill = false -> no_null (fillna fill vs) = true.
Proof.
  intros F. unfold no_null, fillna.
  induction vs as [|v vs IH]; simpl; [reflexivity|].
  rewrite IH, andb_true_r.
  destruct (isna v) eqn:E; [rewrite F | rewrite E]; reflexivity.
Qed.

Lemma count_na_zero vs : Nat.ltb 0 (count_na vs) = false -> no_null vs = true.
Proof.
  unfold count_na, no_null. intros H. apply Nat.ltb_ge in H.
  induction vs as [|v vs IH]; simpl in *; [reflexivity|].
  destruct (isna v); simpl in *; [lia | apply IH; exact H].
Qed.

Lemma insert_sorted_not_nil x l : insert_sorted x l <> [].
Proof. destruct l; simpl; [|destruct (Qle_bool x q)]; discriminate. Qed.

Lemma median_number vs :
  numbers vs <> [] -> exists q, median vs = VFloat q.
Proof.
  intros N. unfold median.
  destruct (numbers vs) as [|q qs]; [contradiction|].
  simpl. destruct (insert_sorted q (sort_q qs)) eqn:E.
  - exfalso. exact (insert_sorted_not_nil _ _ E).
  - destruct (Nat.odd _); eexists; reflexivity.
Qed.

Lemma numbers_fillna_nan vs : numbers vs = [] -> numbers (fillna VNaN vs) = [].
Proof.
  induction vs as [|v vs IH]; simpl; [reflexivity|].
  destruct v; simpl; try discriminate; exact IH.
Qed.

Lemma handle_missing_cols df :
  cols (_handle_missing_values df)
  = map (fun p => (fst p, handle_col (fst p) (snd p))) (cols df).
Proof.
  unfold _handle_missing_values, map_cols; simpl.
  rewrite !map_map. reflexivity.
Qed.

Lemma fill_numeric_filled c s :
  s_dtype s = DInt64 \/ s_dtype s = DFloat64 ->
  s_dtype (fill_numeric c s) = s_dtype s /\ filled (fill_numeric c s).
Proof.
  intros D. unfold fill_numeric.
  assert (G : s_dtype
                (if Nat.ltb 0 (count_na (s_values s))
                 then if mem_str c quantity_columns
                      then mkSeries (s_dtype s) (fillna (VFloat 0) (s_values s))
                      else mkSeries (s_dtype s)
                             (fillna (median (s_values s)) (s_values s))
                 else s) = s_dtype s
              /\ filled
                   (if Nat.ltb 0 (count_na (s_values s))
                    then if mem_str c quantity_columns
                         then mkSeries (s_dtype s) (fillna (VFloat 0) (s_values s))
                         else mkSeries (s_dtype s)
                                (fillna (median (s_values s)) (s_values s))
                    else s)).
  { destruct (Nat.ltb 0 (count_na (s_values s))) eqn:C.
    - destruct (mem_str c quantity_columns).
      + split; [reflexivity|]. unfold filled; simpl.
        destruct D as [-> | ->]; left; apply fillna_no_null; reflexivity.
      + split; [reflexivity|]. unfold filled; simpl.
        destruct (numbers (s_values s)) as [|q qs] eqn:N.
        * assert (M : median (s_values s) = VNaN)
            by (unfold median; rewrite N; reflexivity).
          rewrite M.
          destruct D as [-> | ->]; right; apply numbers_fillna_nan; exact N.
        * destruct (median_number (s_values s)) as [m M];
            [rewrite N; discriminate|].
          rewrite M.
          destruct D as [-> | ->]; left; apply fillna_no_null; reflexivity.
    - split; [reflexivity|]. unfold filled.
      destruct D as [-> | ->]; left; apply count_na_zero; exact C. }
  destruct D as [E | E]; rewrite E in *; exact G.
Qed.

(** After the fill, a column holds no null, unless it is numeric and holds
    no number. *)
Lemma handle_col_filled c s : filled (handle_col c s).
Proof.
  unfold handle_col.
  destruct (s_dtype s) eqn:D.
  - destruct (fill_numeric_filled c s (or_introl D)) as [E F].
    rewrite D in E.
    unfold fill_string, fill_bool. rewrite E. simpl. rewrite E. exact F.
  - destruct (fill_numeric_filled c s (or_intror D)) as [E F].
    rewrite D in E.
    unfold fill_string, fill_bool. rewrite E. simpl. rewrite E. exact F.
  - unfold fill_numeric. rewrite D. unfold fill_string. rewrite D.
    unfold fill_bool. rewrite D. unfold filled; simpl.
    apply fillna_no_null; reflexivity.
  - unfold fill_numeric. rewrite D. unfold fill_string. rewrite D.
    destruct (Nat.ltb 0 (count_na (s_values s))) eqn:C.
    + destruct (mem_str c identity_text_columns); unfold fill_bool, filled;
        simpl; apply fillna_no_null; reflexivity.
    + unfold fill_bool. rewrite D. unfold filled. rewrite D.
      apply count_na_zero; exact C.
  - unfold fill_numeric. rewrite D. unfold fill_string. rewrite D.
    unfold fill_bool. rewrite D. unfold filled. rewrite D. exact I.
  - unfold fill_numeric. rewrite D. unfold fill_string. rewrite D.
    unfold fill_bool. rewrite D. unfold filled. rewrite D. exact I.
Qed.

Lemma handle_missing_filled df c s :
  In (c, s) (cols (_handle_missing_values df)) -> filled s.
Proof.
  rewrite handle_missing_cols. intros I. apply in_map_iff in I.
  destruct I as [[k t] [E _]]. simpl in E. inversion E; subst.
  apply handle_col_filled.
Qed.

Lemma in_replace_col c s l c' s' :
  In (c', s') (replace_col c s l) -> (c' = c /\ s' = s) \/ In (c', s') l.
Proof.
  induction l as [|[k t] l IH]; simpl; [tauto|].
  destruct (String.eqb c k) eqn:E; simpl.
  - apply String.eqb_eq in E; subst. intros [H|H].
    + inversion H; subst; auto.
    + auto.
  - intros [H|H]; [auto|]. destruct (IH H); auto.
Qed.

Lemma in_set_col c s df c' s' :
  In (c', s') (cols (set_col c s df)) ->
  (c' = c /\ s' = s) \/ In (c', s') (cols df).
Proof.
  unfold set_col. destruct (has_col c df); simpl.
  - apply in_replace_col.
  - intros H. apply in_app_or in H. destruct H as [H|[H|[]]]; [auto|].
    inversion H; subst; auto.
Qed.

(** A coercion step keeps a property of the columns when the column it
    rewrites has the property afterwards. *)
Lemma update_col_keeps (P : string -> Series -> Prop) c f df df' :
  (forall s s', f s = Ok s' -> P c s') ->
  (forall k t, In (k, t) (cols df) -> P k t) ->
  update_col c f df = Ok df' ->
  forall k t, In (k, t) (cols df') -> P k t.
Proof.
  intros Hf H U k t I. unfold update_col in U.
  destruct (lookup c (cols df)) as [s|].
  - inv_bind U. inversion U; subst.
    apply in_set_col in I. destruct I as [[-> ->]|I].
    + apply (Hf s); exact E.
    + apply H; exact I.
  - inversion U; subst. apply H; exact I.
Qed.

Lemma astype_bool_filled s s' : astype_bool s = Ok s' -> filled s'.
Proof.
  unfold astype_bool. intros H. inv_bind H. inversion H; subst.
  unfold filled, no_null; simpl. clear E H.
  induction a as [|b bs IH]; simpl; [reflexivity | exact IH].
Qed.

Lemma fold_update_raise (f : Series -> result Series) cs e :
  fold_left (fun acc c => df <- acc ;; update_col c f df) cs (Raise e)
  = Raise e.
Proof. induction cs as [|c cs IH]; simpl; [reflexivity | exact IH]. Qed.

Lemma fold_update_keeps (P : string -> Series -> Prop) f cs df out :
  (forall c s s', f s = Ok s' -> P c s') ->
  (forall k t, In (k, t) (cols df) -> P k t) ->
  fold_left (fun acc c => df <- acc ;; update_col c f df) cs (Ok df) = Ok out ->
  forall k t, In (k, t) (cols out) -> P k t.
Proof.
  intros Hf. revert df; induction cs as [|c cs IH]; intros df H U.
  - simpl in U. inversion U; subst; exact H.
  - cbn [fold_left bind] in U.
    destruct (update_col c f df) as [df1|e] eqn:E.
    + apply (IH df1); [|exact U].
      apply (update_col_keeps P c f df df1 (Hf c) H E).
    + rewrite fold_update_raise in U. discriminate U.
Qed.

Lemma validate_keeps_filled df out :
  (forall c s, In (c, s) (cols df) -> filled s) ->
  _validate_data_types df = Ok out ->
  forall c s, In (c, s) (cols out) ->
              mem_str c coerced_numeric = false -> filled s.
Proof.
  intros F H.
  set (P := fun (c : string) (s : Series) =>
              mem_str c coerced_numeric = false -> filled s).
  assert (F0 : forall c s, In (c, s) (cols df) -> P c s)
    by (intros c s I _; apply (F c s I)).
  clear F. unfold _validate_data_types in H.
  inv_bind H. inv_bind H. inv_bind H. inv_bind H.
  assert (F1 := update_col_keeps P _ _ _ _
                  (fun _ _ _ (X : mem_str "price" coerced_numeric = false) =>
                     match Bool.diff_true_false X with end) F0 E).
  assert (F2 := update_col_keeps P _ _ _ _
                  (fun _ _ _ (X : mem_str "rating" coerced_numeric = false) =>
                     match Bool.diff_true_false X with end) F1 E0).
  assert (F3 := update_col_keeps P _ _ _ _
                  (fun _ _ _ (X : mem_str "stock" coerced_numeric = false) =>
                     match Bool.diff_true_false X with end) F2 E1).
  assert (F4 := update_col_keeps P _ _ _ _
                  (fun _ _ _ (X : mem_str "id" coerced_numeric = false) =>
                     match Bool.diff_true_false X with end) F3 E2).
  apply (fold_update_keeps P astype_bool bool_candidates a2 out);
    [|exact F4 | exact H].
  intros c s s' A _. apply (astype_bool_filled s s' A).
Qed.

(** C2 as worded fails: the crawled book [attic] has no rating; its rating
    column is filled with the empty text and then re-read as a number,
    which gives a null in the normalized table. *)
Lemma C2_counterexample :
  ~ (forall src now products out,
       normalize src now products = Ok out -> null_free out = true).
Proof.
  intros H.
  pose proof (H (Web seed0) sample_time [attic] _ eq_refl) as G.
  vm_compute in G. discriminate G.
Qed.

(** The same happens to text that was present from the start: a price
    that is no number becomes a null. *)
Lemma coercion_turns_text_into_null :
  exists out,
    normalize Api sample_time [unpriced_text] = Ok out
    /\ lookup "price" (cols out) = Some (mkSeries DFloat64 [VNaN]).
Proof. eexists. split; [vm_compute; reflexivity | reflexivity]. Qed.

(** C2, amended. In the table returned by a per-source normalizer, every
    column other than price, rating, stock and id is filled: a text or
    boolean column has no null cell, and an int64 or float64 column has no
    null cell unless it holds no number at all (there is no median to fill
    with). The four excluded columns are re-read as numbers after the fill,
    which can bring nulls back. *)
Theorem C2_columns_outside_coercion_are_filled src now products out :
  normalize src now products = Ok out ->
  forall c s, In (c, s) (cols out) ->
              mem_str c coerced_numeric = false -> filled s.
Proof.
  intros H.
  destruct products as [|r rs].
  - destruct src; simpl in H; inversion H; subst; intros c s [].
  - rewrite normalize_unfold in H by discriminate.
    inv_bind H. inv_bind H.
    apply (validate_keeps_filled (_handle_missing_values a0) out);
      [|exact H].
    intros c s. apply handle_missing_filled.
Qed.

Lemma C2_witness :
  normalize Api sample_time [phone; cable] = Ok sample_api
  /\ no_null [VBool true; VStr ""] = true.
Proof.
  split; [vm_compute; reflexivity|].
  apply (C2_columns_outside_coercion_are_filled Api sample_time
           [phone; cable] sample_api eq_refl "featured"
           (mkSeries DObject [VBool true; VStr ""])).
  - simpl. tauto.
  - reflexivity.
Defined.

(* ================================================================= *)
(** ** Normalizers build well-formed frames *)

Lemma infer_series_length vs :
  List.length (s_values (infer_series vs)) = List.length vs.
Proof.
  unfold infer_series.
  repeat match goal with
         | |- context [if ?b then _ else _] => destruct b
         end; simpl; rewrite ?length_map; reflexivity.
Qed.

Lemma add_keys_NoDup ks : forall seen, NoDup seen -> NoDup (add_keys seen ks).
Proof.
  induction ks as [|k ks IH]; intros seen N; simpl; [exact N|].
  apply IH. destruct (mem_str k seen) eqn:M; [exact N|].
  apply NoDup_app; [exact N | repeat constructor; intros []|].
  intros x Hx [E|[]]. subst x.
  apply mem_str_true_iff in Hx. congruence.
Qed.

Lemma union_keys_NoDup rs : NoDup (union_keys rs).
Proof.
  unfold union_keys.
  assert (G : forall seen, NoDup seen ->
              NoDup (fold_left (fun seen r => add_keys seen (map fst r)) rs seen)).
  { induction rs as [|r rs IH]; intros seen N; simpl; [exact N|].
    apply IH, add_keys_NoDup, N. }
  apply G; constructor.
Qed.

Lemma frame_of_records_well_formed rs :
  well_formed (frame_of_records rs) = true.
Proof.
  apply well_formed_iff. unfold frame_of_records, columns; simpl. split.
  - rewrite map_map; simpl. rewrite map_id. apply union_keys_NoDup.
  - rewrite Forall_map. apply Forall_forall. intros k _; simpl.
    rewrite infer_series_length, length_map. reflexivity.
Qed.

Lemma replace_col_names c s l : map fst (replace_col c s l) = map fst l.
Proof.
  induction l as [|[k t] l IH]; simpl; [reflexivity|].
  destruct (String.eqb c k); simpl; [reflexivity | f_equal; exact IH].
Qed.

Lemma set_col_well_formed c s df :
  well_formed df = true -> List.length (s_values s) = nrows df ->
  well_formed (set_col c s df) = true.
Proof.
  intros W L. apply well_formed_iff in W. destruct W as [N F].
  apply well_formed_iff. split.
  - unfold set_col, columns. destruct (has_col c df) eqn:H; simpl.
    + rewrite replace_col_names. exact N.
    + rewrite map_app; simpl.
      apply NoDup_app; [exact N | repeat constructor; intros []|].
      intros x Hx [E|[]]. subst x. apply has_col_In in Hx. congruence.
  - rewrite nrows_set_col. apply Forall_forall. intros [k t] I.
    apply in_set_col in I. destruct I as [[_ ->]|I]; [exact L|].
    rewrite Forall_forall in F. apply (F _ I).
Qed.

Lemma filter_names (f : string -> bool) (l : list (string * Series)) :
  map fst (filter (fun p => f (fst p)) l) = filter f (map fst l).
Proof.
  induction l as [|[k t] l IH]; simpl; [reflexivity|].
  destruct (f k); simpl; rewrite IH; reflexivity.
Qed.

Lemma drop_col_well_formed c df :
  well_formed df = true -> well_formed (drop_col c df) = true.
Proof.
  intros W. apply well_formed_iff in W. destruct W as [N F].
  apply well_formed_iff. unfold drop_col, columns; simpl. split.
  - rewrite (filter_names (fun k => negb (String.eqb c k))).
    apply NoDup_filter; exact N.
  - apply Forall_forall. intros p I. apply filter_In in I.
    rewrite Forall_forall in F. apply F, I.
Qed.

Lemma series_apply_length f s s' :
  series_apply f s = Ok s' ->
  List.length (s_values s') = List.length (s_values s).
Proof.
  unfold series_apply. intros H. inv_bind H. inversion H; subst.
  rewrite infer_series_length. apply (mapM_length _ _ _ E).
Qed.

Lemma get_col_length c df s :
  well_formed df = true -> get_col c df = Ok s ->
  List.length (s_values s) = nrows df.
Proof.
  intros W G. unfold get_col in G.
  destruct (lookup c (cols df)) eqn:L; [|discriminate G].
  inversion G; subst. apply (lookup_length df c); assumption.
Qed.

Lemma append_injective p a b : (p ++ a)%string = (p ++ b)%string -> a = b.
Proof.
  induction p as [|ch p IH]; simpl; intros H; [exact H|].
  inversion H. apply IH; assumption.
Qed.

Lemma NoDup_map_prefix p l :
  NoDup l -> NoDup (map (fun k => (p ++ k)%string) l).
Proof.
  induction 1 as [|x l Hx N IH]; simpl; constructor; [|exact IH].
  intros I. apply in_map_iff in I. destruct I as [y [E Hy]].
  apply append_injective in E. subst y. contradiction.
Qed.

Lemma flatten_dimensions_well_formed df out :
  well_formed df = true -> flatten_dimensions df = Ok out ->
  well_formed out = true /\ nrows out = nrows df.
Proof.
  intros W H. unfold flatten_dimensions in H.
  inv_bind H. inv_bind H.
  destruct (existsb _ _) eqn:X in H; [discriminate H|].
  inversion H; subst; clear H. split; [|reflexivity].
  pose proof (drop_col_well_formed "dimensions" df W) as Wb.
  pose proof (frame_of_records_well_formed a0) as Wd.
  apply well_formed_iff in Wb, Wd. destruct Wb as [Nb Fb], Wd as [Nd Fd].
  apply well_formed_iff. unfold columns; simpl. split.
  - assert (Q : forall l : list (string * Series),
                 map fst (map (fun p => (("dimension_" ++ fst p)%string, snd p)) l)
                 = map (fun k => ("dimension_" ++ k)%string) (map fst l))
      by (intros l; rewrite !map_map; reflexivity).
    rewrite map_app, Q.
    apply NoDup_app; [exact Nb| |].
    + apply NoDup_map_prefix. exact Nd.
    + intros x Hb Hd. rewrite map_map in Hd.
      apply in_map_iff in Hd. destruct Hd as [p [Ep Hp]].
      assert (T : existsb (fun p => has_col (fst p) (drop_col "dimensions" df))
                    (map (fun p => (("dimension_" ++ fst p)%string, snd p))
                         (cols (frame_of_records a0))) = true).
      { apply existsb_exists. exists (("dimension_" ++ fst p)%string, snd p).
        split; [apply (in_map (fun p => (("dimension_" ++ fst p)%string, snd p)));
                exact Hp|].
        simpl in *. apply has_col_In. rewrite Ep. exact Hb. }
      rewrite X in T. discriminate T.
  - apply Forall_app. split.
    + exact Fb.
    + rewrite Forall_map. eapply Forall_impl; [|exact Fd].
      intros p Hp; simpl in *. rewrite Hp.
      rewrite (mapM_length _ _ _ E0). apply (get_col_length _ _ _ W E).
Qed.

Lemma flatten_reviews_well_formed df out :
  well_formed df = true -> flatten_reviews df = Ok out ->
  well_formed out = true /\ nrows out = nrows df.
Proof.
  intros W H. unfold flatten_reviews in H. repeat inv_bind H.
  inversion H; subst; clear H.
  assert (W1 : well_formed (set_col "avg_review_rating" a0 df) = true).
  { apply set_col_well_formed; [exact W|].
    rewrite (series_apply_length _ _ _ E0).
    apply (get_col_length _ _ _ W E). }
  split.
  - apply drop_col_well_formed, set_col_well_formed; [exact W1|].
    rewrite (series_apply_length _ _ _ E2).
    apply (get_col_length _ _ _ W1 E1).
  - simpl. rewrite !nrows_set_col. reflexivity.
Qed.

Lemma flatten_images_well_formed df out :
  well_formed df = true -> flatten_images df = Ok out ->
  well_formed out = true /\ nrows out = nrows df.
Proof.
  intros W H. unfold flatten_images in H. repeat inv_bind H.
  inversion H; subst; clear H.
  assert (W1 : well_formed (set_col "main_image" a0 df) = true).
  { apply set_col_well_formed; [exact W|].
    rewrite (series_apply_length _ _ _ E0).
    apply (get_col_length _ _ _ W E). }
  split.
  - apply drop_col_well_formed, set_col_well_formed; [exact W1|].
    rewrite (series_apply_length _ _ _ E2).
    apply (get_col_length _ _ _ W1 E1).
  - simpl. rewrite !nrows_set_col. reflexivity.
Qed.

Lemma when_col_well_formed c f df out :
  (forall d o, well_formed d = true -> f d = Ok o ->
               well_formed o = true /\ nrows o = nrows d) ->
  well_formed df = true -> when_col c f df = Ok out ->
  well_formed out = true /\ nrows out = nrows df.
Proof.
  intros F W H. unfold when_col in H. destruct (has_col c df).
  - apply (F df out W H).
  - inversion H; subst. auto.
Qed.

Lemma standardize_columns_well_formed df out :
  well_formed df = true -> standardize_columns df = Ok out ->
  well_formed out = true /\ nrows out = nrows df.
Proof.
  intros W H. unfold standardize_columns in H.
  destruct (distinct _) eqn:D in H; [|discriminate H].
  inversion H; subst; clear H. split; [|reflexivity].
  apply well_formed_iff in W. destruct W as [_ F].
  apply well_formed_iff. unfold columns; simpl. split.
  - apply distinct_NoDup. exact D.
  - rewrite Forall_map. exact F.
Qed.

Lemma repeat_series_length d v n :
  List.length (s_values (const_series d v n)) = n.
Proof. apply repeat_length. Qed.

Lemma tag_source_well_formed source now df :
  well_formed df = true ->
  well_formed (tag_source source now df) = true
  /\ nrows (tag_source source now df) = nrows df
  /\ cols (tag_source source now df) <> [].
Proof.
  intros W. unfold tag_source. split; [|split].
  - apply set_col_well_formed.
    + apply set_col_well_formed; [exact W | apply repeat_series_length].
    + rewrite nrows_set_col. apply repeat_series_length.
  - rewrite !nrows_set_col. reflexivity.
  - intros Nil. cbv zeta in Nil.
    match type of Nil with
    | cols (set_col ?c ?s ?d) = [] =>
        pose proof (lookup_set_col_same c s d) as L
    end.
    rewrite Nil in L. discriminate L.
Qed.

Lemma cells_or_empty_length c df :
  well_formed df = true -> List.length (cells_or_empty c df) = nrows df.
Proof.
  intros W. unfold cells_or_empty.
  destruct (lookup c (cols df)) eqn:L.
  - apply (lookup_length df c); assumption.
  - apply repeat_length.
Qed.

Lemma synthesize_ids_well_formed k df out :
  well_formed df = true -> synthesize_ids k df = Ok out ->
  well_formed out = true /\ nrows out = nrows df.
Proof.
  intros W H. unfold synthesize_ids in H.
  destruct (cols df) as [|p l] eqn:C in H; [discriminate H|].
  inv_bind H. inversion H; subst; clear H.
  split; [|apply nrows_set_col].
  apply set_col_well_formed; [exact W|]. simpl.
  rewrite length_map, (mapM_length _ _ _ E), length_combine,
    !cells_or_empty_length by exact W.
  apply Nat.min_id.
Qed.

(** The frame a normalizer de-duplicates: well formed, one row per input
    record, and never without columns. *)
Lemma prepare_well_formed src now products P :
  prepare src now products = Ok P ->
  well_formed P = true
  /\ nrows P = List.length products
  /\ cols P <> [].
Proof.
  pose proof (frame_of_records_well_formed products) as W0.
  destruct src as [|k]; simpl; intros H.
  - unfold prepare_api in H. repeat inv_bind H. inversion H; subst; clear H.
    destruct (when_col_well_formed _ _ _ _ flatten_dimensions_well_formed W0 E)
      as [W1 N1].
    assert (S2 : well_formed a0 = true /\ nrows a0 = nrows a).
    { apply (when_col_well_formed "meta"
               (fun df => Ok (drop_col "meta" df)) a a0); [|exact W1|exact E0].
      intros d o Wd Ho. inversion Ho; subst.
      split; [apply drop_col_well_formed; exact Wd | reflexivity]. }
    destruct S2 as [W2 N2].
    destruct (when_col_well_formed _ _ _ _ flatten_reviews_well_formed W2 E1)
      as [W3 N3].
    destruct (when_col_well_formed _ _ _ _ flatten_images_well_formed W3 E2)
      as [W4 N4].
    destruct (standardize_columns_well_formed _ _ W4 E3) as [W5 N5].
    destruct (tag_source_well_formed "DummyJSON_API" now a3 W5) as [W6 [N6 C6]].
    split; [exact W6|]. split; [|exact C6].
    rewrite N6, N5, N4, N3, N2, N1. reflexivity.
  - unfold prepare_web in H. repeat inv_bind H. inversion H; subst; clear H.
    destruct (standardize_columns_well_formed _ _ W0 E) as [W1 N1].
    destruct (synthesize_ids_well_formed _ _ _ W1 E0) as [W2 N2].
    destruct (tag_source_well_formed "BooksToScrape_Web" now a0 W2)
      as [W3 [N3 C3]].
    split; [exact W3|]. split; [|exact C3].
    rewrite N3, N2, N1. reflexivity.
Qed.

(* ================================================================= *)
(** ** Normalized tables are well formed *)

Lemma fillna_length fill vs : List.length (fillna fill vs) = List.length vs.
Proof. apply length_map. Qed.

Lemma handle_col_length c s :
  List.length (s_values (handle_col c s)) = List.length (s_values s).
Proof.
  unfold handle_col, fill_bool, fill_string, fill_numeric.
  repeat match goal with
         | |- context [match s_dtype ?x with _ => _ end] =>
             destruct (s_dtype x) eqn:?; simpl
         | |- context [if ?b then _ else _] => destruct b; simpl
         end;
    rewrite ?fillna_length; try reflexivity; congruence.
Qed.

Lemma handle_missing_well_formed df :
  well_formed df = true -> well_formed (_handle_missing_values df) = true.
Proof.
  intros W. apply well_formed_iff in W. destruct W as [N F].
  apply well_formed_iff. unfold columns.
  rewrite handle_missing_cols. split.
  - rewrite map_map; simpl. exact N.
  - rewrite Forall_map. eapply Forall_impl; [|exact F].
    intros p Hp; simpl. rewrite handle_col_length. exact Hp.
Qed.

Lemma update_col_well_formed c f df df' :
  (forall s s', f s = Ok s' ->
                List.length (s_values s') = List.length (s_values s)) ->
  well_formed df = true ->
  update_col c f df = Ok df' ->
  well_formed df' = true.
Proof.
  intros Hf W U. unfold update_col in U.
  destruct (lookup c (cols df)) as [s|] eqn:L.
  - inv_bind U. inversion U; subst.
    apply set_col_well_formed; [exact W|].
    rewrite (Hf _ _ E). apply (lookup_length df c); assumption.
  - inversion U; subst; exact W.
Qed.

Lemma fold_update_well_formed f cs df out :
  (forall s s', f s = Ok s' ->
                List.length (s_values s') = List.length (s_values s)) ->
  well_formed df = true ->
  fold_left (fun acc c => df <- acc ;; update_col c f df) cs (Ok df) = Ok out ->
  well_formed out = true.
Proof.
  intros Hf. revert df; induction cs as [|c cs IH]; intros df W U.
  - simpl in U. inversion U; subst; exact W.
  - cbn [fold_left bind] in U.
    destruct (update_col c f df) as [df1|e] eqn:E.
    + apply (IH df1); [|exact U].
      apply (update_col_well_formed c f df df1 Hf W E).
    + rewrite fold_update_raise in U. discriminate U.
Qed.

Lemma to_numeric_length s s' :
  to_numeric s = Ok s' -> List.length (s_values s') = List.length (s_values s).
Proof.
  unfold to_numeric. destruct (s_dtype s); intros H;
    try (inversion H; subst; reflexivity); try discriminate H.
  inv_bind H.
  repeat match type of H with
         | (if ?b then _ else _) = _ => destruct b
         end;
    inversion H; subst; simpl; rewrite ?length_map;
    apply (mapM_length _ _ _ E).
Qed.

Lemma astype_Int64_length s s' :
  astype_Int64 s = Ok s' ->
  List.length (s_values s') = List.length (s_values s).
Proof.
  unfold astype_Int64. intros H. inv_bind H. inversion H; subst; simpl.
  apply (mapM_length _ _ _ E).
Qed.

Lemma astype_bool_length s s' :
  astype_bool s = Ok s' -> List.length (s_values s') = List.length (s_values s).
Proof.
  unfold astype_bool. intros H. inv_bind H. inversion H; subst; simpl.
  rewrite length_map. apply (mapM_length _ _ _ E).
Qed.

Lemma validate_well_formed df out :
  well_formed df = true -> _validate_data_types df = Ok out ->
  well_formed out = true.
Proof.
  intros W H. unfold _validate_data_types in H.
  inv_bind H. inv_bind H. inv_bind H. inv_bind H.
  pose proof (update_col_well_formed _ _ _ _ to_numeric_length W E) as W1.
  pose proof (update_col_well_formed _ _ _ _ to_numeric_length W1 E0) as W2.
  pose proof (update_col_well_formed _ _ _ _ to_numeric_length W2 E1) as W3.
  assert (Hid : forall s s',
            (n <- to_numeric s ;; astype_Int64 n) = Ok s' ->
            List.length (s_values s') = List.length (s_values s)).
  { intros s s' X. inv_bind X.
    rewrite (astype_Int64_length _ _ X). apply (to_numeric_length _ _ E3). }
  pose proof (update_col_well_formed _ _ _ _ Hid W3 E2) as W4.
  apply (fold_update_well_formed _ _ _ _ astype_bool_length W4 H).
Qed.

Lemma set_col_not_nil c s df : cols (set_col c s df) <> [].
Proof.
  intros Nil. pose proof (lookup_set_col_same c s df) as L.
  rewrite Nil in L. discriminate L.
Qed.

Lemma update_col_not_nil c f df df' :
  cols df <> [] -> update_col c f df = Ok df' -> cols df' <> [].
Proof.
  intros N U. unfold update_col in U.
  destruct (lookup c (cols df)).
  - inv_bind U. inversion U; subst. apply set_col_not_nil.
  - inversion U; subst; exact N.
Qed.

Lemma fold_update_not_nil f cs df out :
  cols df <> [] ->
  fold_left (fun acc c => df <- acc ;; update_col c f df) cs (Ok df) = Ok out ->
  cols out <> [].
Proof.
  revert df; induction cs as [|c cs IH]; intros df N U.
  - simpl in U. inversion U; subst; exact N.
  - cbn [fold_left bind] in U.
    destruct (update_col c f df) as [df1|e] eqn:E.
    + apply (IH df1); [|exact U]. apply (update_col_not_nil _ _ _ _ N E).
    + rewrite fold_update_raise in U. discriminate U.
Qed.

Lemma validate_not_nil df out :
  cols df <> [] -> _validate_data_types df = Ok out -> cols out <> [].
Proof.
  intros N H. unfold _validate_data_types in H.
  inv_bind H. inv_bind H. inv_bind H. inv_bind H.
  apply (fold_update_not_nil _ _ _ _ (update_col_not_nil _ _ _ _
           (update_col_not_nil _ _ _ _
              (update_col_not_nil _ _ _ _
                 (update_col_not_nil _ _ _ _ N E) E0) E1) E2) H).
Qed.

Lemma drop_duplicates_well_formed subset df out :
  well_formed df = true -> drop_duplicates subset df = Ok out ->
  well_formed out = true /\ (cols df <> [] -> cols out <> []).
Proof.
  intros W H.
  destruct (drop_duplicates_inv _ _ _ H) as [[_ ->]|[_ [ss [ks [G [Hk ->]]]]]].
  - auto.
  - assert (Fk : Forall (fun k : list hkey => List.length k = nrows df) ks)
      by (eapply hash_keys_length; [eapply get_cols_length|]; eassumption).
    split.
    + apply select_rows_well_formed; [exact W|].
      rewrite length_map, duplicated_length. apply row_keys_length; exact Fk.
    + simpl. intros N Nil. apply map_eq_nil in Nil. contradiction.
Qed.

(** What a normalizer returns is a table in the sense of [table]. *)
Lemma normalize_table src now products out :
  normalize src now products = Ok out -> table out = true.
Proof.
  intros H. destruct products as [|r rs].
  - destruct src; simpl in H; inversion H; reflexivity.
  - rewrite normalize_unfold in H by discriminate.
    inv_bind H. inv_bind H.
    destruct (prepare_well_formed _ _ _ _ E) as [W [_ C]].
    destruct (drop_duplicates_well_formed _ _ _ W E0) as [W1 C1].
    pose proof (handle_missing_well_formed _ W1) as W2.
    pose proof (validate_well_formed _ _ W2 H) as W3.
    apply table_iff. split; [exact W3|].
    intros Nil. exfalso.
    apply (validate_not_nil (_handle_missing_values a0) out); [|exact H|exact Nil].
    rewrite handle_missing_cols. intros X. apply map_eq_nil in X.
    apply (C1 C X).
Qed.

(* ================================================================= *)
(** ** De-duplication inside the normalizers *)

Lemma update_col_nrows c f df df' :
  update_col c f df = Ok df' -> nrows df' = nrows df.
Proof.
  unfold update_col. destruct (lookup c (cols df)); intros H.
  - inv_bind H. inversion H; subst. apply nrows_set_col.
  - inversion H; reflexivity.
Qed.

Lemma fold_update_nrows f cs df out :
  fold_left (fun acc c => df <- acc ;; update_col c f df) cs (Ok df) = Ok out ->
  nrows out = nrows df.
Proof.
  revert df; induction cs as [|c cs IH]; intros df U.
  - simpl in U. inversion U; reflexivity.
  - cbn [fold_left bind] in U.
    destruct (update_col c f df) as [df1|e] eqn:E.
    + rewrite (IH df1 U). apply (update_col_nrows _ _ _ _ E).
    + rewrite fold_update_raise in U. discriminate U.
Qed.

Lemma validate_nrows df out :
  _validate_data_types df = Ok out -> nrows out = nrows df.
Proof.
  intros H. unfold _validate_data_types in H.
  inv_bind H. inv_bind H. inv_bind H. inv_bind H.
  rewrite (fold_update_nrows _ _ _ _ H).
  rewrite (update_col_nrows _ _ _ _ E2), (update_col_nrows _ _ _ _ E1),
    (update_col_nrows _ _ _ _ E0), (update_col_nrows _ _ _ _ E).
  reflexivity.
Qed.

(* ================================================================= *)
(** ** Integer ids stay pairwise distinct through a normalizer *)

Lemma tag_source_data_source source now df :
  lookup "data_source" (cols (tag_source source now df))
  = Some (const_series DObject (VStr source) (nrows df)).
Proof.
  unfold tag_source.
  rewrite lookup_set_col_other by discriminate.
  apply lookup_set_col_same.
Qed.

Lemma tag_source_other source now df c :
  c <> "data_source" -> c <> "scraped_at" ->
  lookup c (cols (tag_source source now df)) = lookup c (cols df).
Proof.
  intros N1 N2. unfold tag_source.
  rewrite !lookup_set_col_other by assumption. reflexivity.
Qed.

Lemma hash_int_keys ids :
  mapM hash_key (map VInt ids) = Ok (map (fun z => HNum (inject_Z z)) ids).
Proof.
  induction ids as [|z ids IH]; simpl; [reflexivity|].
  rewrite IH. reflexivity.
Qed.

Lemma hash_text_keys t n :
  mapM hash_key (repeat (VStr t) n) = Ok (repeat (HStr t) n).
Proof. induction n as [|n IH]; simpl; [reflexivity | rewrite IH; reflexivity]. Qed.

Lemma row_keys_single ks :
  row_keys (List.length ks) [ks] = map (fun k => [k]) ks.
Proof.
  simpl. induction ks as [|k ks IH]; simpl; [reflexivity|].
  f_equal. exact IH.
Qed.

Lemma row_keys_pair (ks : list hkey) y :
  row_keys (List.length ks) [ks; repeat y (List.length ks)]
  = map (fun k => [k; y]) ks.
Proof.
  simpl. induction ks as [|k ks IH]; simpl; [reflexivity|].
  f_equal. exact IH.
Qed.

Lemma NoDup_map_injective {A B} (f : A -> B) l :
  (forall x y, f x = f y -> x = y) -> NoDup l -> NoDup (map f l).
Proof.
  intros Inj. induction 1 as [|x l Hx N IH]; simpl; constructor; [|exact IH].
  intros I. apply in_map_iff in I. destruct I as [y [E Hy]].
  apply Inj in E. subst y. contradiction.
Qed.

Lemma count_na_ints ids : count_na (map VInt ids) = 0%nat.
Proof. unfold count_na. induction ids; simpl; auto. Qed.

Lemma count_na_text t n : count_na (repeat (VStr t) n) = 0%nat.
Proof. unfold count_na. induction n; simpl; auto. Qed.

Lemma handle_col_ints c ids :
  handle_col c (mkSeries DInt64 (map VInt ids)) = mkSeries DInt64 (map VInt ids).
Proof.
  unfold handle_col, fill_numeric; simpl. rewrite count_na_ints. reflexivity.
Qed.

Lemma handle_col_text c t n :
  handle_col c (mkSeries DObject (repeat (VStr t) n))
  = mkSeries DObject (repeat (VStr t) n).
Proof.
  unfold handle_col, fill_numeric, fill_string; simpl.
  rewrite count_na_text. reflexivity.
Qed.

Lemma update_col_lookup_other c c' f df df' :
  c <> c' -> update_col c' f df = Ok df' ->
  lookup c (cols df') = lookup c (cols df).
Proof.
  intros N U. unfold update_col in U.
  destruct (lookup c' (cols df)).
  - inv_bind U. inversion U; subst. apply lookup_set_col_other; exact N.
  - inversion U; reflexivity.
Qed.

Lemma update_col_lookup_same c f df df' s :
  lookup c (cols df) = Some s -> update_col c f df = Ok df' ->
  exists s', f s = Ok s' /\ lookup c (cols df') = Some s'.
Proof.
  intros L U. unfold update_col in U. rewrite L in U.
  inv_bind U. inversion U; subst.
  exists a. split; [reflexivity | apply lookup_set_col_same].
Qed.

Lemma fold_update_lookup_other c f cs df out :
  ~ In c cs ->
  fold_left (fun acc c => df <- acc ;; update_col c f df) cs (Ok df) = Ok out ->
  lookup c (cols out) = lookup c (cols df).
Proof.
  revert df; induction cs as [|c' cs IH]; intros df N U.
  - simpl in U. inversion U; reflexivity.
  - cbn [fold_left bind] in U.
    destruct (update_col c' f df) as [df1|e] eqn:E.
    + rewrite (IH df1) by (try exact U; intros I; apply N; right; exact I).
      apply (update_col_lookup_other c c' f df df1); [|exact E].
      intros X; apply N; left; symmetry; exact X.
    + rewrite fold_update_raise in U. discriminate U.
Qed.

Lemma to_Int64_ints ids :
  mapM to_Int64_cell (map VInt ids) = Ok (map VInt ids).
Proof.
  induction ids as [|z ids IH]; simpl; [reflexivity | rewrite IH; reflexivity].
Qed.

(** Coercion leaves an integer id column and the source tag as they are,
    up to the nullable integer dtype of the id. *)
Lemma validate_int_ids df out ids t :
  lookup "id" (cols df) = Some (mkSeries DInt64 (map VInt ids)) ->
  lookup "data_source" (cols df) = Some t ->
  _validate_data_types df = Ok out ->
  lookup "id" (cols out) = Some (mkSeries DInt64N (map VInt ids))
  /\ lookup "data_source" (cols out) = Some t.
Proof.
  intros Li Ls H. unfold _validate_data_types in H.
  inv_bind H. inv_bind H. inv_bind H. inv_bind H.
  assert (NB : forall c, (c = "id" \/ c = "data_source") ->
                         ~ In c bool_candidates).
  { intros c [-> | ->] I; simpl in I;
      repeat (destruct I as [I|I]; [discriminate I|]); exact I. }
  split.
  - rewrite (fold_update_lookup_other "id" _ _ _ _ (NB _ (or_introl eq_refl)) H).
    assert (L3 : lookup "id" (cols a1) = Some (mkSeries DInt64 (map VInt ids))).
    { rewrite (update_col_lookup_other "id" "stock" _ _ _ ltac:(discriminate) E1).
      rewrite (update_col_lookup_other "id" "rating" _ _ _ ltac:(discriminate) E0).
      rewrite (update_col_lookup_other "id" "price" _ _ _ ltac:(discriminate) E).
      exact Li. }
    destruct (update_col_lookup_same _ _ _ _ _ L3 E2) as [s' [F L4]].
    rewrite L4. f_equal.
    unfold to_numeric in F. simpl in F. unfold astype_Int64 in F. simpl in F.
    rewrite to_Int64_ints in F. simpl in F. inversion F; reflexivity.
  - rewrite (fold_update_lookup_other "data_source" _ _ _ _
               (NB _ (or_intror eq_refl)) H).
    rewrite (update_col_lookup_other "data_source" "id" _ _ _
               ltac:(discriminate) E2).
    rewrite (update_col_lookup_other "data_source" "stock" _ _ _
               ltac:(discriminate) E1).
    rewrite (update_col_lookup_other "data_source" "rating" _ _ _
               ltac:(discriminate) E0).
    rewrite (update_col_lookup_other "data_source" "price" _ _ _
               ltac:(discriminate) E).
    exact Ls.
Qed.

Lemma inject_Z_key_injective x y :
  HNum (inject_Z x) = HNum (inject_Z y) -> x = y.
Proof. intros H. inversion H. reflexivity. Qed.

(** When the ids are integers at the de-duplication step, the normalized
    table holds each id once: its composite keys are pairwise distinct. *)
Lemma integer_ids_stay_distinct P ids source D out :
  well_formed P = true ->
  df_empty P = false ->
  lookup "id" (cols P) = Some (mkSeries DInt64 (map VInt ids)) ->
  lookup "data_source" (cols P)
  = Some (const_series DObject (VStr source) (nrows P)) ->
  drop_duplicates ["id"] P = Ok D ->
  _validate_data_types (_handle_missing_values D) = Ok out ->
  exists ks, composite_keys out = Ok ks /\ NoDup ks.
Proof.
  intros W NE Li Ls HD HV.
  assert (Len : List.length ids = nrows P).
  { rewrite <- (lookup_length P "id" _ W Li). simpl.
    rewrite length_map. reflexivity. }
  destruct (drop_duplicates_inv _ _ _ HD) as [[X _]|[_ [ss [ks0 [G [Hk ->]]]]]];
    [rewrite NE in X; discriminate X|].
  cbn [mapM bind] in G. unfold get_col in G. rewrite Li in G.
  cbn [bind] in G. inversion G; subst ss; clear G.
  cbn [mapM bind s_values] in Hk. rewrite hash_int_keys in Hk.
  cbn [bind] in Hk. inversion Hk; subst ks0; clear Hk.
  set (ks := map (fun z => HNum (inject_Z z)) ids) in *.
  assert (Lk : List.length ks = nrows P)
    by (unfold ks; rewrite length_map; exact Len).
  rewrite <- Lk in HV. rewrite row_keys_single in HV.
  set (keep := map negb (duplicated [] (map (fun k => [k]) ks))) in *.
  assert (Lkeep : List.length keep = List.length ids).
  { unfold keep. rewrite length_map, duplicated_length, length_map.
    unfold ks. apply length_map. }
  (* the surviving ids are pairwise distinct *)
  assert (ND : NoDup (select keep ids)).
  { apply (NoDup_map_inv (fun z => [HNum (inject_Z z)])).
    rewrite <- select_map.
    replace (map (fun z => [HNum (inject_Z z)]) ids)
      with (map (fun k : hkey => [k]) ks)
      by (unfold ks; rewrite map_map; reflexivity).
    unfold keep. rewrite select_first_occurrences.
    apply NoDup_filter, keep_first_NoDup. }
  (* the two key columns after selection and fill *)
  assert (Hi : lookup "id" (cols (_handle_missing_values (select_rows keep P)))
               = Some (mkSeries DInt64 (map VInt (select keep ids)))).
  { rewrite handle_missing_cols.
    rewrite (lookup_map_snd handle_col). unfold select_rows; simpl.
    rewrite (lookup_map_snd (fun _ => take keep)), Li. simpl.
    unfold take; simpl. rewrite select_map. rewrite handle_col_ints.
    reflexivity. }
  assert (Hs : lookup "data_source"
                 (cols (_handle_missing_values (select_rows keep P)))
               = Some (mkSeries DObject
                         (repeat (VStr source) (count_true keep)))).
  { rewrite handle_missing_cols.
    rewrite (lookup_map_snd handle_col). unfold select_rows; simpl.
    rewrite (lookup_map_snd (fun _ => take keep)), Ls. simpl.
    unfold take, const_series; simpl.
    rewrite <- Len, <- Lkeep, select_repeat, handle_col_text. reflexivity. }
  destruct (validate_int_ids _ _ _ _ Hi Hs HV) as [Oi Os].
  assert (Rows : nrows out = count_true keep)
    by (rewrite (validate_nrows _ _ HV); reflexivity).
  assert (Cnt : count_true keep = List.length (select keep ids))
    by (symmetry; apply select_length; exact Lkeep).
  exists (map (fun k => [k; HStr source])
              (map (fun z => HNum (inject_Z z)) (select keep ids))).
  split.
  - unfold composite_keys. simpl. unfold get_col. rewrite Oi, Os. simpl.
    rewrite hash_int_keys, hash_text_keys. cbn [bind mapM].
    rewrite Rows, Cnt.
    rewrite <- (length_map (fun z => HNum (inject_Z z)) (select keep ids)).
    rewrite row_keys_pair. reflexivity.
  - apply NoDup_map_injective.
    + intros x y E. inversion E; reflexivity.
    + apply NoDup_map_injective; [apply inject_Z_key_injective | exact ND].
Qed.

(** Every table of the web normalizer holds each synthesized id once. *)
Lemma web_table_keys_distinct k now products out :
  products <> [] ->
  clean_web_scraped_data k now products = Ok out ->
  exists ks, composite_keys out = Ok ks /\ NoDup ks.
Proof.
  intros NE H.
  change (normalize (Web k) now products = Ok out) in H.
  rewrite normalize_unfold in H by exact NE.
  inv_bind H. inv_bind H. rename a into P, a0 into D.
  destruct (prepare_well_formed _ _ _ _ E) as [W [N C]].
  assert (NotEmpty : df_empty P = false).
  { unfold df_empty. apply orb_false_iff. split; apply Nat.eqb_neq.
    - rewrite N. destruct products; [contradiction | discriminate].
    - destruct (cols P); [contradiction | discriminate]. }
  simpl in E. unfold prepare_web in E.
  inv_bind E. inv_bind E. inversion E; subst P; clear E.
  unfold synthesize_ids in E2.
  destruct (cols a) as [|p l] eqn:Ca in E2; [discriminate E2|].
  inv_bind E2. inversion E2; subst a0; clear E2.
  apply (integer_ids_stay_distinct _ a1 "BooksToScrape_Web" D out W NotEmpty).
  - rewrite tag_source_other by discriminate. apply lookup_set_col_same.
  - rewrite tag_source_data_source. f_equal. f_equal.
    unfold tag_source. rewrite !nrows_set_col. reflexivity.
  - exact E0.
  - exact H.
Qed.

(** So the empty table is a right identity of merge on every table of the
    web normalizer. *)
Lemma merge_web_table_with_empty k now products out :
  clean_web_scraped_data k now products = Ok out ->
  merge_datasets out empty_frame = Ok out.
Proof.
  intros H. destruct products as [|r rs].
  - simpl in H. inversion H; reflexivity.
  - destruct (web_table_keys_distinct k now (r :: rs) out) as [ks [K N]];
      [discriminate | exact H |].
    pose proof (normalize_table (Web k) now (r :: rs) out H) as T.
    apply table_iff in T. destruct T as [W _].
    unfold merge_datasets. rewrite (concat_empty_r out W). cbn [bind].
    unfold composite_keys in K. inv_bind K. inv_bind K.
    inversion K; subst; clear K.
    apply (drop_duplicates_distinct _ out a a0); assumption.
Qed.


(* ================================================================= *)
(** ** Deduplication correctness *)



(* ================================================================= *)
(** ** The missing-value policy, column by column *)

Lemma handle_missing_lookup df c :
  lookup c (cols (_handle_missing_values df))
  = option_map (handle_col c) (lookup c (cols df)).
Proof. rewrite handle_missing_cols. apply (lookup_map_snd handle_col). Qed.

Lemma fillna_without_nulls fill vs : no_null vs = true -> fillna fill vs = vs.
Proof.
  unfold no_null, fillna. induction vs as [|v vs IH]; simpl; [reflexivity|].
  intros H. apply andb_true_iff in H. destruct H as [Hv H].
  apply negb_true_iff in Hv. rewrite Hv, (IH H). reflexivity.
Qed.

Lemma no_null_count vs : no_null vs = true -> count_na vs = 0%nat.
Proof.
  unfold no_null, count_na. induction vs as [|v vs IH]; simpl; [reflexivity|].
  intros H. apply andb_true_iff in H. destruct H as [Hv H].
  apply negb_true_iff in Hv. rewrite Hv. apply IH; exact H.
Qed.

Lemma handle_col_object c s :
  s_dtype s = DObject ->
  handle_col c s
  = mkSeries DObject
      (fillna (VStr (if mem_str c identity_text_columns then "Unknown" else ""))
              (s_values s)).
Proof.
  intros D. unfold handle_col, fill_numeric. rewrite D.
  unfold fill_string. rewrite D.
  destruct (Nat.ltb 0 (count_na (s_values s))) eqn:C.
  - destruct (mem_str c identity_text_columns); reflexivity.
  - unfold fill_bool. rewrite D.
    rewrite (fillna_without_nulls _ _ (count_na_zero _ C)).
    rewrite <- D. symmetry. apply series_eta.
Qed.

Lemma handle_col_numeric c s :
  s_dtype s = DInt64 \/ s_dtype s = DFloat64 ->
  handle_col c s
  = mkSeries (s_dtype s)
      (fillna (if mem_str c quantity_columns then VFloat 0
               else median (s_values s))
              (s_values s)).
Proof.
  intros D. unfold handle_col.
  assert (N : fill_numeric c s
              = mkSeries (s_dtype s)
                  (fillna (if mem_str c quantity_columns then VFloat 0
                           else median (s_values s)) (s_values s))).
  { unfold fill_numeric.
    destruct (Nat.ltb 0 (count_na (s_values s))) eqn:C.
    - destruct D as [D | D]; rewrite D;
        destruct (mem_str c quantity_columns); reflexivity.
    - rewrite (fillna_without_nulls _ _ (count_na_zero _ C)).
      rewrite series_eta. destruct D as [D | D]; rewrite D; reflexivity. }
  rewrite N. unfold fill_string, fill_bool; simpl.
  destruct D as [D | D]; rewrite D; reflexivity.
Qed.

(** X1. Text columns: a missing cell of description, title, category or brand
    becomes "Unknown", a missing cell of any other text column becomes the
    empty text, and every present cell stays. *)
Theorem fill_text_policy df c s :
  lookup c (cols df) = Some s ->
  s_dtype s = DObject ->
  lookup c (cols (_handle_missing_values df))
  = Some (mkSeries DObject
            (map (fun v =>
                    if isna v
                    then VStr (if mem_str c identity_text_columns
                               then "Unknown" else "")
                    else v) (s_values s))).
Proof.
  intros L D. rewrite handle_missing_lookup, L. simpl.
  rewrite (handle_col_object c s D). reflexivity.
Qed.

(** X2. Numeric columns: a missing price, rating or stock becomes 0, a missing
    cell of any other int64 or float64 column becomes the median of the
    numbers of its column (NaN when it holds none), and every present cell
    stays. *)
Theorem fill_numeric_policy df c s :
  lookup c (cols df) = Some s ->
  s_dtype s = DInt64 \/ s_dtype s = DFloat64 ->
  lookup c (cols (_handle_missing_values df))
  = Some (mkSeries (s_dtype s)
            (map (fun v =>
                    if isna v
                    then (if mem_str c quantity_columns then VFloat 0
                          else median (s_values s))
                    else v) (s_values s))).
Proof.
  intros L D. rewrite handle_missing_lookup, L. simpl.
  rewrite (handle_col_numeric c s D). reflexivity.
Qed.

Lemma fill_text_policy_witness :
  lookup "brand" (cols (_handle_missing_values gaps))
  = Some (mkSeries DObject [VStr "Acme"; VStr "Unknown"; VStr "Bolt"])
  /\ lookup "note" (cols (_handle_missing_values gaps))
     = Some (mkSeries DObject [VStr ""; VStr "ok"; VStr ""]).
Proof.
  split.
  - exact (fill_text_policy gaps "brand" _ eq_refl eq_refl).
  - exact (fill_text_policy gaps "note" _ eq_refl eq_refl).
Defined.

Lemma fill_numeric_policy_witness :
  lookup "price" (cols (_handle_missing_values gaps))
  = Some (mkSeries DFloat64 [VFloat 0; VFloat 10; VFloat 30])
  /\ lookup "weight" (cols (_handle_missing_values gaps))
     = Some (mkSeries DFloat64 [VFloat 1; VFloat ((1 + 4) / 2); VFloat 4]).
Proof.
  split.
  - exact (fill_numeric_policy gaps "price" _ eq_refl (or_intror eq_refl)).
  - exact (fill_numeric_policy gaps "weight" _ eq_refl (or_intror eq_refl)).
Defined.

Lemma handle_col_dtype c s : s_dtype (handle_col c s) = s_dtype s.
Proof.
  destruct (s_dtype s) eqn:D.
  - rewrite handle_col_numeric by (left; exact D). simpl. exact D.
  - rewrite handle_col_numeric by (right; exact D). simpl. exact D.
  - unfold handle_col, fill_numeric. rewrite D. unfold fill_string. rewrite D.
    unfold fill_bool. rewrite D. reflexivity.
  - rewrite handle_col_object by exact D. reflexivity.
  - unfold handle_col, fill_numeric. rewrite D. unfold fill_string. rewrite D.
    unfold fill_bool. rewrite D. exact D.
  - unfold handle_col, fill_numeric. rewrite D. unfold fill_string. rewrite D.
    unfold fill_bool. rewrite D. exact D.
Qed.

Lemma fillna_nth_present fill vs i v :
  nth_error vs i = Some v -> isna v = false ->
  nth_error (fillna fill vs) i = Some v.
Proof.
  intros H N. unfold fillna. rewrite nth_error_map, H. simpl.
  rewrite N. reflexivity.
Qed.

Lemma handle_col_nth_present c s i v :
  nth_error (s_values s) i = Some v -> isna v = false ->
  nth_error (s_values (handle_col c s)) i = Some v.
Proof.
  intros H N. destruct (s_dtype s) eqn:D.
  - rewrite handle_col_numeric by (left; exact D). simpl.
    apply fillna_nth_present; assumption.
  - rewrite handle_col_numeric by (right; exact D). simpl.
    apply fillna_nth_present; assumption.
  - unfold handle_col, fill_numeric. rewrite D. unfold fill_string. rewrite D.
    unfold fill_bool. rewrite D. simpl. apply fillna_nth_present; assumption.
  - rewrite handle_col_object by exact D. simpl.
    apply fillna_nth_present; assumption.
  - unfold handle_col, fill_numeric. rewrite D. unfold fill_string. rewrite D.
    unfold fill_bool. rewrite D. exact H.
  - unfold handle_col, fill_numeric. rewrite D. unfold fill_string. rewrite D.
    unfold fill_bool. rewrite D. exact H.
Qed.

(** X3. The fill touches nothing but missing cells: the frame keeps its row
    count, its labels in their order and every dtype, and a cell that holds
    a value holds the same value afterwards. *)
Theorem fill_never_alters_present_values df :
  nrows (_handle_missing_values df) = nrows df
  /\ columns (_handle_missing_values df) = columns df
  /\ forall c s,
       lookup c (cols df) = Some s ->
       exists s',
         lookup c (cols (_handle_missing_values df)) = Some s'
         /\ s_dtype s' = s_dtype s
         /\ List.length (s_values s') = List.length (s_values s)
         /\ forall i v,
              nth_error (s_values s) i = Some v -> isna v = false ->
              nth_error (s_values s') i = Some v.
Proof.
  split; [reflexivity|]. split.
  - unfold columns. rewrite handle_missing_cols, map_map. reflexivity.
  - intros c s L. exists (handle_col c s).
    split; [rewrite handle_missing_lookup, L; reflexivity|].
    split; [apply handle_col_dtype|].
    split; [apply handle_col_length|].
    intros i v. apply handle_col_nth_present.
Qed.

Lemma fillna_twice fill vs : fillna fill (fillna fill vs) = fillna fill vs.
Proof.
  unfold fillna. rewrite map_map. apply map_ext. intros v.
  destruct (isna v) eqn:N; [|rewrite N; reflexivity].
  destruct (isna fill); reflexivity.
Qed.

Lemma fillna_after_fill g fill vs :
  isna fill = false -> fillna g (fillna fill vs) = fillna fill vs.
Proof.
  intros F. apply fillna_without_nulls, fillna_no_null, F.
Qed.

Lemma handle_col_twice c s : handle_col c (handle_col c s) = handle_col c s.
Proof.
  destruct (s_dtype s) eqn:D.
  - rewrite (handle_col_numeric c s) by (left; exact D).
    rewrite handle_col_numeric by (left; exact D).
    cbn [s_dtype s_values]. f_equal.
    destruct (mem_str c quantity_columns).
    + apply fillna_after_fill; reflexivity.
    + destruct (numbers (s_values s)) as [|q qs] eqn:N.
      * assert (M : median (s_values s) = VNaN)
          by (unfold median; rewrite N; reflexivity).
        rewrite M.
        assert (M' : median (fillna VNaN (s_values s)) = VNaN)
          by (unfold median; rewrite (numbers_fillna_nan _ N); reflexivity).
        rewrite M'. apply fillna_twice.
      * destruct (median_number (s_values s)) as [m M];
          [rewrite N; discriminate|].
        rewrite M. apply fillna_after_fill; reflexivity.
  - rewrite (handle_col_numeric c s) by (right; exact D).
    rewrite handle_col_numeric by (right; exact D).
    cbn [s_dtype s_values]. f_equal.
    destruct (mem_str c quantity_columns).
    + apply fillna_after_fill; reflexivity.
    + destruct (numbers (s_values s)) as [|q qs] eqn:N.
      * assert (M : median (s_values s) = VNaN)
          by (unfold median; rewrite N; reflexivity).
        rewrite M.
        assert (M' : median (fillna VNaN (s_values s)) = VNaN)
          by (unfold median; rewrite (numbers_fillna_nan _ N); reflexivity).
        rewrite M'. apply fillna_twice.
      * destruct (median_number (s_values s)) as [m M];
          [rewrite N; discriminate|].
        rewrite M. apply fillna_after_fill; reflexivity.
  - unfold handle_col, fill_numeric. rewrite D. unfold fill_string. rewrite D.
    unfold fill_bool. rewrite D. simpl. rewrite fillna_twice. reflexivity.
  - rewrite (handle_col_object c s D).
    rewrite handle_col_object by reflexivity.
    cbn [s_dtype s_values]. f_equal. apply fillna_twice.
  - unfold handle_col, fill_numeric. rewrite D. unfold fill_string. rewrite D.
    unfold fill_bool. rewrite D.
    unfold fill_numeric. rewrite D. unfold fill_string. rewrite D.
    unfold fill_bool. rewrite D. reflexivity.
  - unfold handle_col, fill_numeric. rewrite D. unfold fill_string. rewrite D.
    unfold fill_bool. rewrite D.
    unfold fill_numeric. rewrite D. unfold fill_string. rewrite D.
    unfold fill_bool. rewrite D. reflexivity.
Qed.

(** X4. Filling twice is filling once. *)
Theorem fill_is_idempotent df :
  _handle_missing_values (_handle_missing_values df)
  = _handle_missing_values df.
Proof.
  rewrite <- (frame_eta (_handle_missing_values (_handle_missing_values df))).
  rewrite <- (frame_eta (_handle_missing_values df)) at 3.
  f_equal.
  rewrite (handle_missing_cols (_handle_missing_values df)).
  rewrite handle_missing_cols, map_map; simpl.
  apply map_ext. intros [c s]; simpl. rewrite handle_col_twice. reflexivity.
Qed.

(* ================================================================= *)
(** ** Type coercion, column by column *)

Lemma update_col_columns c f df df' :
  update_col c f df = Ok df' -> columns df' = columns df.
Proof.
  unfold update_col. destruct (lookup c (cols df)) as [s|] eqn:L; intros H.
  - inv_bind H. inversion H; subst.
    unfold set_col.
    assert (HC : has_col c df = true) by (apply has_col_lookup; eauto).
    rewrite HC. unfold columns; simpl. apply replace_col_names.
  - inversion H; reflexivity.
Qed.

Lemma fold_update_columns f cs df out :
  fold_left (fun acc c => df <- acc ;; update_col c f df) cs (Ok df) = Ok out ->
  columns out = columns df.
Proof.
  revert df; induction cs as [|c cs IH]; intros df U.
  - simpl in U. inversion U; reflexivity.
  - cbn [fold_left bind] in U.
    destruct (update_col c f df) as [df1|e] eqn:E.
    + rewrite (IH df1 U). apply (update_col_columns _ _ _ _ E).
    + rewrite fold_update_raise in U. discriminate U.
Qed.

(** What stands in column [c] after [update_col c f] came out of [f]. *)
Lemma update_col_image c f df df' s :
  update_col c f df = Ok df' -> lookup c (cols df') = Some s ->
  exists s0, lookup c (cols df) = Some s0 /\ f s0 = Ok s.
Proof.
  unfold update_col. destruct (lookup c (cols df)) as [s0|] eqn:L; intros H L'.
  - inv_bind H. inversion H; subst.
    rewrite lookup_set_col_same in L'. inversion L'; subst.
    exists s0. split; [reflexivity | exact E].
  - inversion H; subst. rewrite L in L'. discriminate L'.
Qed.

Lemma fold_update_image f cs c df out s :
  NoDup cs -> In c cs ->
  fold_left (fun acc c => df <- acc ;; update_col c f df) cs (Ok df) = Ok out ->
  lookup c (cols out) = Some s ->
  exists s0, lookup c (cols df) = Some s0 /\ f s0 = Ok s.
Proof.
  intros N. revert df; induction N as [|c' cs Hc' N IH]; intros df I U L.
  - destruct I.
  - cbn [fold_left bind] in U.
    destruct (update_col c' f df) as [df1|e] eqn:E;
      [|rewrite fold_update_raise in U; discriminate U].
    destruct I as [-> | I].
    + rewrite (fold_update_lookup_other c f cs df1 out Hc' U) in L.
      apply (update_col_image c f df df1 s E L).
    + destruct (IH df1 I U L) as [s0 [L0 F]].
      exists s0. split; [|exact F].
      rewrite <- (update_col_lookup_other c c' f df df1); [exact L0| |exact E].
      intros X; subst c'. contradiction.
Qed.

Lemma to_numeric_dtype s s' :
  to_numeric s = Ok s' -> s_dtype s' <> DObject /\ s_dtype s' <> DCategory.
Proof.
  unfold to_numeric. destruct (s_dtype s) eqn:D; intros H;
    try (inversion H; subst; rewrite D; split; discriminate);
    try discriminate H.
  inv_bind H.
  repeat match type of H with
         | (if ?b then _ else _) = _ => destruct b
         end;
    inversion H; subst; simpl; split; discriminate.
Qed.

Lemma astype_Int64_cells s s' :
  astype_Int64 s = Ok s' ->
  s_dtype s' = DInt64N
  /\ Forall (fun v => v = VNA \/ exists z, v = VInt z) (s_values s').
Proof.
  unfold astype_Int64. intros H. inv_bind H. inversion H; subst; simpl.
  split; [reflexivity|].
  apply (mapM_Forall _ _ _ _ E). intros v w _ C.
  destruct v; cbn [to_Int64_cell] in C; try discriminate C;
    try (inversion C; subst; auto; right; eexists; reflexivity).
  destruct (Pos.eqb (Qden (Qred q)) 1); [|discriminate C].
  inversion C; subst. right; eexists; reflexivity.
Qed.

Lemma astype_bool_cells s s' :
  astype_bool s = Ok s' ->
  s_dtype s' = DBool /\ Forall (fun v => exists b, v = VBool b) (s_values s').
Proof.
  unfold astype_bool. intros H. inv_bind H. inversion H; subst; simpl.
  split; [reflexivity|]. rewrite Forall_map. apply Forall_forall.
  intros b _. exists b; reflexivity.
Qed.

Lemma validate_id_cells df out s :
  _validate_data_types df = Ok out ->
  lookup "id" (cols out) = Some s ->
  s_dtype s = DInt64N
  /\ Forall (fun v => v = VNA \/ exists z, v = VInt z) (s_values s).
Proof.
  intros H L. unfold _validate_data_types in H.
  inv_bind H; inv_bind H; inv_bind H; inv_bind H.
  assert (NB : ~ In "id" bool_candidates).
  { simpl. intuition discriminate. }
  rewrite (fold_update_lookup_other "id" _ _ _ _ NB H) in L.
  destruct (update_col_image _ _ _ _ _ E2 L) as [s0 [_ F]].
  inv_bind F. apply (astype_Int64_cells _ _ F).
Qed.

Lemma bool_candidates_NoDup : NoDup bool_candidates.
Proof.
  unfold bool_candidates.
  repeat constructor; simpl; intuition discriminate.
Qed.

Ltac open_validate H :=
  unfold _validate_data_types in H;
  inv_bind H; inv_bind H; inv_bind H; inv_bind H.

(** X5. Coercion rewrites seven columns and nothing else: the row count and the
    labels in their order stay, and a column outside price, rating, stock,
    id, in_stock, onsale and returnable is handed on as it is. *)
Theorem coercion_keeps_the_shape df out :
  _validate_data_types df = Ok out ->
  nrows out = nrows df
  /\ columns out = columns df
  /\ forall c,
       mem_str c (coerced_numeric ++ bool_candidates) = false ->
       lookup c (cols out) = lookup c (cols df).
Proof.
  intros H. split; [apply (validate_nrows _ _ H)|].
  open_validate H. split.
  - rewrite (fold_update_columns _ _ _ _ H).
    rewrite (update_col_columns _ _ _ _ E2), (update_col_columns _ _ _ _ E1),
      (update_col_columns _ _ _ _ E0), (update_col_columns _ _ _ _ E).
    reflexivity.
  - intros c N.
    assert (Neq : forall d, In d (coerced_numeric ++ bool_candidates) -> c <> d).
    { intros d I X. subst d. apply mem_str_true_iff in I. congruence. }
    assert (Nb : ~ In c bool_candidates).
    { intros I. apply (Neq c); [apply in_or_app; right; exact I | reflexivity]. }
    rewrite (fold_update_lookup_other c _ _ _ _ Nb H).
    rewrite (update_col_lookup_other c "id" _ _ _ (Neq "id" ltac:(simpl; tauto)) E2).
    rewrite (update_col_lookup_other c "stock" _ _ _ (Neq "stock" ltac:(simpl; tauto)) E1).
    rewrite (update_col_lookup_other c "rating" _ _ _ (Neq "rating" ltac:(simpl; tauto)) E0).
    rewrite (update_col_lookup_other c "price" _ _ _ (Neq "price" ltac:(simpl; tauto)) E).
    reflexivity.
Qed.

Lemma coercion_keeps_the_shape_witness :
  exists out,
    _validate_data_types uncoerced = Ok out
    /\ columns out = ["id"; "price"; "in_stock"; "title"]
    /\ lookup "title" (cols out)
       = Some (mkSeries DObject [VStr "Pen"; VStr "Ink"]).
Proof.
  eexists. split; [vm_compute; reflexivity|].
  destruct (coercion_keeps_the_shape uncoerced _ eq_refl) as [_ [C K]].
  split; [exact C|]. exact (K "title" eq_refl).
Defined.

Lemma validate_bool_cells df out c s :
  _validate_data_types df = Ok out ->
  In c bool_candidates -> lookup c (cols out) = Some s ->
  s_dtype s = DBool /\ Forall (fun v => exists b, v = VBool b) (s_values s).
Proof.
  intros H I L. open_validate H.
  destruct (fold_update_image _ _ _ _ _ _ bool_candidates_NoDup I H L)
    as [s0 [_ F]].
  apply (astype_bool_cells _ _ F).
Qed.

Lemma validate_quantity_dtype df out c s :
  _validate_data_types df = Ok out ->
  In c quantity_columns -> lookup c (cols out) = Some s ->
  s_dtype s <> DObject /\ s_dtype s <> DCategory.
Proof.
  intros H I L. open_validate H.
  assert (NB : ~ In c bool_candidates).
  { intros J. simpl in I, J.
    repeat (destruct I as [<- | I]; [intuition discriminate|]). exact I. }
  rewrite (fold_update_lookup_other c _ _ _ _ NB H) in L.
  simpl in I. destruct I as [<- | [<- | [<- | []]]].
  - rewrite (update_col_lookup_other "price" "id" _ _ _ ltac:(discriminate) E2) in L.
    rewrite (update_col_lookup_other "price" "stock" _ _ _ ltac:(discriminate) E1) in L.
    rewrite (update_col_lookup_other "price" "rating" _ _ _ ltac:(discriminate) E0) in L.
    destruct (update_col_image _ _ _ _ _ E L) as [s0 [_ F]].
    apply (to_numeric_dtype _ _ F).
  - rewrite (update_col_lookup_other "rating" "id" _ _ _ ltac:(discriminate) E2) in L.
    rewrite (update_col_lookup_other "rating" "stock" _ _ _ ltac:(discriminate) E1) in L.
    destruct (update_col_image _ _ _ _ _ E0 L) as [s0 [_ F]].
    apply (to_numeric_dtype _ _ F).
  - rewrite (update_col_lookup_other "stock" "id" _ _ _ ltac:(discriminate) E2) in L.
    destruct (update_col_image _ _ _ _ _ E1 L) as [s0 [_ F]].
    apply (to_numeric_dtype _ _ F).
Qed.

(** X6. The dtypes coercion leaves behind: id is a nullable integer column
    whose cells are integers or NA, each of in_stock, onsale and returnable
    is a boolean column of booleans, and price, rating and stock are
    neither text nor categorical columns. *)
Theorem coercion_result_types df out :
  _validate_data_types df = Ok out ->
  (forall s, lookup "id" (cols out) = Some s ->
             s_dtype s = DInt64N
             /\ Forall (fun v => v = VNA \/ exists z, v = VInt z) (s_values s))
  /\ (forall c s, In c bool_candidates -> lookup c (cols out) = Some s ->
                  s_dtype s = DBool
                  /\ Forall (fun v => exists b, v = VBool b) (s_values s))
  /\ (forall c s, In c quantity_columns -> lookup c (cols out) = Some s ->
                  s_dtype s <> DObject /\ s_dtype s <> DCategory).
Proof.
  intros H. split; [|split].
  - intros s L. apply (validate_id_cells df out s H L).
  - intros c s I L. apply (validate_bool_cells df out c s H I L).
  - intros c s I L. apply (validate_quantity_dtype df out c s H I L).
Qed.

Lemma coercion_result_types_witness :
  exists out,
    _validate_data_types uncoerced = Ok out
    /\ lookup "id" (cols out) = Some (mkSeries DInt64N [VInt 7; VNA])
    /\ lookup "in_stock" (cols out)
       = Some (mkSeries DBool [VBool true; VBool false])
    /\ (forall s, lookup "price" (cols out) = Some s -> s_dtype s <> DObject).
Proof.
  eexists. split; [vm_compute; reflexivity|].
  split; [reflexivity|]. split; [reflexivity|].
  intros s L.
  destruct (coercion_result_types uncoerced _ eq_refl) as [_ [_ Q]].
  apply (Q "price" s); [simpl; tauto | exact L].
Defined.

Lemma replace_col_same c s l :
  lookup c l = Some s -> replace_col c s l = l.
Proof.
  induction l as [|[k t] l IH]; simpl; [reflexivity|].
  destruct (String.eqb c k) eqn:E.
  - apply String.eqb_eq in E. subst k. intros H; inversion H; reflexivity.
  - intros H. rewrite (IH H). reflexivity.
Qed.

Lemma set_col_same c s df : lookup c (cols df) = Some s -> set_col c s df = df.
Proof.
  intros L. unfold set_col.
  assert (HC : has_col c df = true) by (apply has_col_lookup; eauto).
  rewrite HC, (replace_col_same _ _ _ L). apply frame_eta.
Qed.

Lemma update_col_fixed c f df :
  (forall s, lookup c (cols df) = Some s -> f s = Ok s) ->
  update_col c f df = Ok df.
Proof.
  intros F. unfold update_col.
  destruct (lookup c (cols df)) as [s|] eqn:L; [|reflexivity].
  rewrite (F s eq_refl). cbn [bind]. rewrite (set_col_same _ _ _ L).
  reflexivity.
Qed.

Lemma to_numeric_fixed s :
  s_dtype s <> DObject -> s_dtype s <> DCategory -> to_numeric s = Ok s.
Proof.
  intros A B. unfold to_numeric. destruct (s_dtype s); congruence.
Qed.

Lemma astype_Int64_fixed s :
  s_dtype s = DInt64N ->
  Forall (fun v => v = VNA \/ exists z, v = VInt z) (s_values s) ->
  astype_Int64 s = Ok s.
Proof.
  intros D F. unfold astype_Int64.
  assert (M : mapM to_Int64_cell (s_values s) = Ok (s_values s)).
  { induction F as [|v vs Hv F IH]; [reflexivity|].
    cbn [mapM]. rewrite IH.
    destruct Hv as [->|[z ->]]; reflexivity. }
  rewrite M. cbn [bind]. rewrite <- D. rewrite series_eta. reflexivity.
Qed.

Lemma astype_bool_fixed s :
  s_dtype s = DBool ->
  Forall (fun v => exists b, v = VBool b) (s_values s) ->
  astype_bool s = Ok s.
Proof.
  intros D F. unfold astype_bool.
  assert (M : exists bs, mapM truthy (s_values s) = Ok bs
                         /\ map VBool bs = s_values s).
  { induction F as [|v vs [b ->] F [bs [IH1 IH2]]].
    - exists []. split; reflexivity.
    - exists (b :: bs). cbn [mapM truthy bind]. rewrite IH1. cbn [bind map].
      rewrite IH2. split; reflexivity. }
  destruct M as [bs [M1 M2]]. rewrite M1. cbn [bind].
  rewrite M2, <- D, series_eta. reflexivity.
Qed.

(** X7. Coercing once is enough: on a table that came out of the coercion,
    running it again changes nothing. *)
Theorem coercion_is_idempotent df out :
  _validate_data_types df = Ok out ->
  _validate_data_types out = Ok out.
Proof.
  intros H.
  pose proof (validate_id_cells df out) as Ti.
  pose proof (fun c s => validate_bool_cells df out c s H) as Tb.
  pose proof (fun c s => validate_quantity_dtype df out c s H) as Tq.
  unfold _validate_data_types.
  rewrite (update_col_fixed "price" to_numeric out).
  2:{ intros s L. destruct (Tq "price" s ltac:(simpl; tauto) L).
      apply to_numeric_fixed; assumption. }
  cbn [bind].
  rewrite (update_col_fixed "rating" to_numeric out).
  2:{ intros s L. destruct (Tq "rating" s ltac:(simpl; tauto) L).
      apply to_numeric_fixed; assumption. }
  cbn [bind].
  rewrite (update_col_fixed "stock" to_numeric out).
  2:{ intros s L. destruct (Tq "stock" s ltac:(simpl; tauto) L).
      apply to_numeric_fixed; assumption. }
  cbn [bind].
  rewrite (update_col_fixed "id" _ out).
  2:{ intros s L. destruct (Ti s H L) as [D F].
      rewrite to_numeric_fixed by (rewrite D; discriminate).
      cbn [bind]. apply astype_Int64_fixed; assumption. }
  cbn [bind]. unfold bool_candidates. cbn [fold_left bind].
  rewrite (update_col_fixed "in_stock" astype_bool out).
  2:{ intros s L. destruct (Tb "in_stock" s ltac:(simpl; tauto) L).
      apply astype_bool_fixed; assumption. }
  cbn [bind].
  rewrite (update_col_fixed "onsale" astype_bool out).
  2:{ intros s L. destruct (Tb "onsale" s ltac:(simpl; tauto) L).
      apply astype_bool_fixed; assumption. }
  cbn [bind].
  apply (update_col_fixed "returnable" astype_bool out).
  intros s L. destruct (Tb "returnable" s ltac:(simpl; tauto) L).
  apply astype_bool_fixed; assumption.
Qed.

Lemma coercion_is_idempotent_witness :
  exists out,
    _validate_data_types uncoerced = Ok out
    /\ _validate_data_types out = Ok out.
Proof.
  eexists. split; [vm_compute; reflexivity|].
  apply (coercion_is_idempotent uncoerced). vm_compute. reflexivity.
Defined.

Lemma mapM_raise {A B} (f : A -> result B) l x e :
  In x l -> f x = Raise e -> exists e', mapM f l = Raise e'.
Proof.
  induction l as [|a l IH]; intros I F; [destruct I|].
  simpl. destruct (f a) as [b|e0] eqn:Fa; [|exists e0; reflexivity].
  destruct I as [-> | I]; [congruence|].
  destruct (IH I F) as [e' R]. rewrite R. exists e'; reflexivity.
Qed.

(** X8. Coercion can raise: on an id column of floats one of which is no
    whole number it returns no table but an exception, from the cast of id
    to Int64 at the latest. *)
Theorem coercion_raises_on_fractional_id df s q :
  lookup "id" (cols df) = Some s ->
  s_dtype s = DFloat64 ->
  In (VFloat q) (s_values s) ->
  Qden (Qred q) <> 1%positive ->
  exists e, _validate_data_types df = Raise e.
Proof.
  intros L D I F. unfold _validate_data_types.
  destruct (update_col "price" to_numeric df) as [a|e] eqn:E;
    cbn [bind]; [|exists e; reflexivity].
  destruct (update_col "rating" to_numeric a) as [a0|e] eqn:E0;
    cbn [bind]; [|exists e; reflexivity].
  destruct (update_col "stock" to_numeric a0) as [a1|e] eqn:E1;
    cbn [bind]; [|exists e; reflexivity].
  assert (L1 : lookup "id" (cols a1) = Some s).
  { rewrite (update_col_lookup_other "id" "stock" _ _ _ ltac:(discriminate) E1).
    rewrite (update_col_lookup_other "id" "rating" _ _ _ ltac:(discriminate) E0).
    rewrite (update_col_lookup_other "id" "price" _ _ _ ltac:(discriminate) E).
    exact L. }
  assert (R : exists e, update_col "id"
                          (fun s => n <- to_numeric s ;; astype_Int64 n) a1
                        = Raise e).
  { unfold update_col. rewrite L1.
    unfold to_numeric. rewrite D. cbn [bind]. unfold astype_Int64.
    destruct (mapM_raise to_Int64_cell (s_values s) (VFloat q)
                (TypeError "cannot safely cast non-equivalent float64 to int64")
                I) as [e' R].
    - cbn [to_Int64_cell].
      destruct (Pos.eqb (Qden (Qred q)) 1) eqn:P; [|reflexivity].
      apply Pos.eqb_eq in P. contradiction.
    - rewrite R. exists e'; reflexivity. }
  destruct R as [e R]. rewrite R. exists e; reflexivity.
Qed.

(** Three API products, the third without id: the ids 1 and 2 have the
    median 3/2, which the fill puts in place of the missing id, and the
    normalizer raises. *)
Lemma coercion_raises_on_fractional_id_witness :
  (exists e, _validate_data_types fractional_ids = Raise e)
  /\ clean_api_data sample_time [phone; cable; anonymous]
     = Raise (TypeError "cannot safely cast non-equivalent float64 to int64").
Proof.
  split; [|vm_compute; reflexivity].
  apply (coercion_raises_on_fractional_id fractional_ids
           (mkSeries DFloat64 [VFloat 1; VFloat 2; VFloat (3 # 2)]) (3 # 2)).
  - reflexivity.
  - reflexivity.
  - simpl; tauto.
  - discriminate.
Defined.

(* ================================================================= *)
(** ** What a normalizer writes into every table *)

Lemma prepare_tags src now products P :
  prepare src now products = Ok P ->
  lookup "data_source" (cols P)
  = Some (const_series DObject (VStr (source_tag src)) (nrows P))
  /\ lookup "scraped_at" (cols P)
     = Some (const_series DObject (VStr now) (nrows P)).
Proof.
  assert (T : forall t df,
             lookup "data_source" (cols (tag_source t now df))
             = Some (const_series DObject (VStr t)
                       (nrows (tag_source t now df)))
             /\ lookup "scraped_at" (cols (tag_source t now df))
                = Some (const_series DObject (VStr now)
                          (nrows (tag_source t now df)))).
  { intros t df. rewrite tag_source_data_source.
    unfold tag_source. rewrite lookup_set_col_same, !nrows_set_col.
    split; reflexivity. }
  destruct src as [|k]; simpl; intros H.
  - unfold prepare_api in H. repeat inv_bind H. inversion H; subst; clear H.
    apply T.
  - unfold prepare_web in H. repeat inv_bind H. inversion H; subst; clear H.
    apply T.
Qed.

Lemma prepare_not_empty src now products P :
  products <> [] -> prepare src now products = Ok P -> df_empty P = false.
Proof.
  intros NE E. destruct (prepare_well_formed _ _ _ _ E) as [W [N C]].
  unfold df_empty. apply orb_false_iff. split; apply Nat.eqb_neq.
  - rewrite N. destruct products; [contradiction | discriminate].
  - destruct (cols P); [contradiction | discriminate].
Qed.

Lemma lookup_select_rows keep df c :
  lookup c (cols (select_rows keep df))
  = option_map (take keep) (lookup c (cols df)).
Proof. unfold select_rows; simpl. apply (lookup_map_snd (fun _ => take keep)). Qed.

Lemma dedup_keep subset df out :
  well_formed df = true -> df_empty df = false ->
  drop_duplicates subset df = Ok out ->
  exists keep, out = select_rows keep df /\ List.length keep = nrows df.
Proof.
  intros W NE H.
  destruct (drop_duplicates_inv _ _ _ H) as [[X _]|[_ [ss [ks [G [Hk ->]]]]]];
    [rewrite NE in X; discriminate X|].
  eexists. split; [reflexivity|].
  assert (Fk : Forall (fun k : list hkey => List.length k = nrows df) ks)
    by (eapply hash_keys_length; [eapply get_cols_length|]; eassumption).
  rewrite length_map, duplicated_length. apply row_keys_length; exact Fk.
Qed.

Lemma validate_lookup_plain c df out :
  mem_str c (coerced_numeric ++ bool_candidates) = false ->
  _validate_data_types df = Ok out ->
  lookup c (cols out) = lookup c (cols df).
Proof.
  intros N H. open_validate H.
  assert (Neq : forall d, In d (coerced_numeric ++ bool_candidates) -> c <> d).
  { intros d I X. subst d. apply mem_str_true_iff in I. congruence. }
  assert (Nb : ~ In c bool_candidates).
  { intros I. apply (Neq c); [apply in_or_app; right; exact I | reflexivity]. }
  rewrite (fold_update_lookup_other c _ _ _ _ Nb H).
  rewrite (update_col_lookup_other c "id" _ _ _ (Neq "id" ltac:(simpl; tauto)) E2).
  rewrite (update_col_lookup_other c "stock" _ _ _ (Neq "stock" ltac:(simpl; tauto)) E1).
  rewrite (update_col_lookup_other c "rating" _ _ _ (Neq "rating" ltac:(simpl; tauto)) E0).
  rewrite (update_col_lookup_other c "price" _ _ _ (Neq "price" ltac:(simpl; tauto)) E).
  reflexivity.
Qed.

Lemma constant_text_survives c t P D out :
  mem_str c (coerced_numeric ++ bool_candidates) = false ->
  well_formed P = true -> df_empty P = false ->
  lookup c (cols P) = Some (const_series DObject (VStr t) (nrows P)) ->
  drop_duplicates ["id"] P = Ok D ->
  _validate_data_types (_handle_missing_values D) = Ok out ->
  lookup c (cols out) = Some (const_series DObject (VStr t) (nrows out)).
Proof.
  intros N W NE L HD HV.
  destruct (dedup_keep _ _ _ W NE HD) as [keep [-> Lk]].
  rewrite (validate_lookup_plain c _ _ N HV), (validate_nrows _ _ HV).
  rewrite handle_missing_lookup, lookup_select_rows, L.
  unfold const_series, take; cbn [option_map s_dtype s_values].
  rewrite <- Lk, select_repeat, handle_col_text. reflexivity.
Qed.

Lemma normalize_source_tag src now products out :
  products <> [] ->
  normalize src now products = Ok out ->
  lookup "data_source" (cols out)
  = Some (mkSeries DObject (repeat (VStr (source_tag src)) (nrows out))).
Proof.
  intros NE H. rewrite normalize_unfold in H by exact NE.
  inv_bind H. inv_bind H. rename a into P, a0 into D.
  destruct (prepare_well_formed _ _ _ _ E) as [W _].
  pose proof (prepare_not_empty _ _ _ _ NE E) as NotEmpty.
  destruct (prepare_tags _ _ _ _ E) as [Ls _].
  apply (constant_text_survives "data_source" _ P D out eq_refl W NotEmpty
           Ls E0 H).
Qed.

(** X9. Every row of a normalized table carries the tag of its source in
    data_source and the time of the run in scraped_at; both columns are
    text columns without a gap. *)
Theorem normalizer_tags_every_row src now products out :
  products <> [] ->
  normalize src now products = Ok out ->
  lookup "data_source" (cols out)
  = Some (mkSeries DObject (repeat (VStr (source_tag src)) (nrows out)))
  /\ lookup "scraped_at" (cols out)
     = Some (mkSeries DObject (repeat (VStr now) (nrows out))).
Proof.
  intros NE H. rewrite normalize_unfold in H by exact NE.
  inv_bind H. inv_bind H. rename a into P, a0 into D.
  destruct (prepare_well_formed _ _ _ _ E) as [W _].
  pose proof (prepare_not_empty _ _ _ _ NE E) as NotEmpty.
  destruct (prepare_tags _ _ _ _ E) as [Ls Lt].
  split.
  - apply (constant_text_survives "data_source" _ P D out eq_refl W NotEmpty
             Ls E0 H).
  - apply (constant_text_survives "scraped_at" _ P D out eq_refl W NotEmpty
             Lt E0 H).
Qed.

Lemma normalizer_tags_every_row_witness :
  exists out,
    normalize Api sample_time [phone; cable] = Ok out
    /\ lookup "data_source" (cols out)
       = Some (mkSeries DObject [VStr "DummyJSON_API"; VStr "DummyJSON_API"])
    /\ lookup "scraped_at" (cols out)
       = Some (mkSeries DObject [VStr sample_time; VStr sample_time]).
Proof.
  eexists. split; [vm_compute; reflexivity|].
  apply (normalizer_tags_every_row Api sample_time [phone; cable] _
           ltac:(discriminate) eq_refl).
Defined.

Lemma select_incl {A} m (l : list A) x : In x (select m l) -> In x l.
Proof.
  revert l; induction m as [|b m IH]; intros [|y l]; simpl; try tauto.
  destruct b; simpl; intros H.
  - destruct H as [H|H]; [left; exact H | right; apply IH; exact H].
  - right; apply IH; exact H.
Qed.

(** X10. The web normalizer numbers its rows itself: whatever the records
    hold, the id column of the table is a column of integers between 0 and
    999999, one for every row and no two of them equal. *)
Theorem web_ids_are_synthesized k now products out :
  products <> [] ->
  clean_web_scraped_data k now products = Ok out ->
  exists ids,
    lookup "id" (cols out) = Some (mkSeries DInt64N (map VInt ids))
    /\ List.length ids = nrows out
    /\ NoDup ids
    /\ Forall (fun z => 0 <= z < 1000000) ids.
Proof.
  intros NE H.
  change (normalize (Web k) now products = Ok out) in H.
  rewrite normalize_unfold in H by exact NE.
  inv_bind H. inv_bind H. rename a into P, a0 into D.
  destruct (prepare_well_formed _ _ _ _ E) as [W [N C]].
  pose proof (prepare_not_empty _ _ _ _ NE E) as NotEmpty.
  destruct (prepare_tags _ _ _ _ E) as [Ls _].
  simpl in E. unfold prepare_web in E.
  inv_bind E. inv_bind E. inversion E; subst P; clear E.
  unfold synthesize_ids in E2.
  destruct (cols a) as [|p l] eqn:Ca in E2; [discriminate E2|].
  inv_bind E2. inversion E2; subst a0; clear E2.
  rename a1 into ids.
  assert (Rng : Forall (fun z => 0 <= z < 1000000) ids).
  { apply (mapM_Forall _ _ _ _ E). intros [t u] z _ S.
    apply (synth_id_range k t u z S). }
  set (P := tag_source "BooksToScrape_Web" now
              (set_col "id" (mkSeries DInt64 (map VInt ids)) a)) in *.
  assert (Li : lookup "id" (cols P) = Some (mkSeries DInt64 (map VInt ids))).
  { unfold P. rewrite tag_source_other by discriminate.
    apply lookup_set_col_same. }
  assert (Len : List.length ids = nrows P).
  { rewrite <- (lookup_length P "id" _ W Li). simpl.
    rewrite length_map. reflexivity. }
  destruct (drop_duplicates_inv _ _ _ E0) as [[X _]|[_ [ss [ks0 [G [Hk HD]]]]]];
    [rewrite NotEmpty in X; discriminate X|].
  cbn [mapM bind] in G. unfold get_col in G. rewrite Li in G.
  cbn [bind] in G. inversion G; subst ss; clear G.
  cbn [mapM bind s_values] in Hk. rewrite hash_int_keys in Hk.
  cbn [bind] in Hk. inversion Hk; subst ks0; clear Hk.
  set (ks := map (fun z => HNum (inject_Z z)) ids) in *.
  assert (Lk : List.length ks = nrows P)
    by (unfold ks; rewrite length_map; exact Len).
  rewrite <- Lk in HD. rewrite row_keys_single in HD.
  set (keep := map negb (duplicated [] (map (fun k => [k]) ks))) in *.
  assert (Lkeep : List.length keep = List.length ids).
  { unfold keep. rewrite length_map, duplicated_length, length_map.
    unfold ks. apply length_map. }
  assert (ND : NoDup (select keep ids)).
  { apply (NoDup_map_inv (fun z => [HNum (inject_Z z)])).
    rewrite <- select_map.
    replace (map (fun z => [HNum (inject_Z z)]) ids)
      with (map (fun k : hkey => [k]) ks)
      by (unfold ks; rewrite map_map; reflexivity).
    unfold keep. rewrite select_first_occurrences.
    apply NoDup_filter, keep_first_NoDup. }
  subst D.
  assert (Hi : lookup "id" (cols (_handle_missing_values (select_rows keep P)))
               = Some (mkSeries DInt64 (map VInt (select keep ids)))).
  { rewrite handle_missing_lookup, lookup_select_rows, Li.
    unfold take; cbn [option_map s_dtype s_values].
    rewrite select_map, handle_col_ints. reflexivity. }
  assert (Hs : lookup "data_source"
                 (cols (_handle_missing_values (select_rows keep P)))
               = Some (mkSeries DObject
                         (repeat (VStr "BooksToScrape_Web") (count_true keep)))).
  { rewrite handle_missing_lookup, lookup_select_rows, Ls.
    unfold take, const_series; cbn [option_map s_dtype s_values source_tag].
    rewrite <- Len, <- Lkeep, select_repeat, handle_col_text. reflexivity. }
  destruct (validate_int_ids _ _ _ _ Hi Hs H) as [Oi _].
  exists (select keep ids).
  split; [exact Oi|].
  split.
  { rewrite (validate_nrows _ _ H). simpl.
    apply select_length. exact Lkeep. }
  split; [exact ND|].
  apply Forall_forall. intros z I.
  apply (proj1 (Forall_forall _ _) Rng z). apply (select_incl _ _ _ I).
Qed.

Lemma web_ids_are_synthesized_witness :
  exists ids,
    lookup "id" (cols (frame_or_empty
                         (clean_web_scraped_data seed0 sample_time
                            [attic_with_id; attic])))
    = Some (mkSeries DInt64N (map VInt ids))
    /\ List.length ids = 1%nat
    /\ NoDup ids
    /\ Forall (fun z => 0 <= z < 1000000) ids.
Proof.
  destruct (clean_web_scraped_data seed0 sample_time [attic_with_id; attic])
    as [out|e] eqn:E; [|vm_compute in E; discriminate E].
  destruct (web_ids_are_synthesized seed0 sample_time [attic_with_id; attic] out
              ltac:(discriminate) E) as [ids [L [N [D R]]]].
  exists ids. cbn [frame_or_empty]. split; [exact L|].
  split; [|split; assumption].
  rewrite N. vm_compute in E. inversion E; reflexivity.
Defined.

(* ================================================================= *)
(** ** The API normalizer needs an id *)

Lemma add_keys_In ks : forall seen c,
  In c (add_keys seen ks) -> In c seen \/ In c ks.
Proof.
  induction ks as [|k ks IH]; intros seen c H; simpl in *; [auto|].
  destruct (IH _ _ H) as [I|I]; [|auto].
  destruct (mem_str k seen); [auto|].
  apply in_app_or in I. destruct I as [I|[<-|[]]]; auto.
Qed.

Lemma union_keys_In rs c :
  In c (union_keys rs) -> exists r, In r rs /\ In c (map fst r).
Proof.
  unfold union_keys.
  assert (G : forall seen,
             In c (fold_left (fun seen r => add_keys seen (map fst r)) rs seen) ->
             In c seen \/ exists r, In r rs /\ In c (map fst r)).
  { induction rs as [|r rs IH]; intros seen H; simpl in H; [auto|].
    destruct (IH _ H) as [I|[r' [I J]]].
    - destruct (add_keys_In _ _ _ I) as [K|K]; [auto|].
      right. exists r. split; [left; reflexivity | exact K].
    - right. exists r'. split; [right; exact I | exact J]. }
  intros H. destruct (G [] H) as [[]|X]. exact X.
Qed.

Lemma every_label_set_col (Q : string -> Prop) c s df :
  Q c -> every_label Q df -> every_label Q (set_col c s df).
Proof.
  intros Qc L c' I. unfold columns in I. apply in_map_iff in I.
  destruct I as [[k t] [<- I]]. simpl.
  destruct (in_set_col _ _ _ _ _ I) as [[-> _]|J]; [exact Qc|].
  apply L. unfold columns. apply in_map_iff. exists (k, t). auto.
Qed.

Lemma every_label_drop_col (Q : string -> Prop) c df :
  every_label Q df -> every_label Q (drop_col c df).
Proof.
  intros L c' I. unfold columns, drop_col in I; simpl in I.
  apply in_map_iff in I. destruct I as [[k t] [<- I]]. simpl.
  apply filter_In in I. destruct I as [I _].
  apply L. unfold columns. apply in_map_iff. exists (k, t). auto.
Qed.

Lemma prepare_api_without_id now products P :
  Forall (fun r : record => forall k, In k (map fst r) -> ~ names_id k)
         products ->
  prepare_api now products = Ok P ->
  lookup "id" (cols P) = None.
Proof.
  intros F H. unfold prepare_api in H.
  assert (L0 : every_label (fun c => ~ names_id c) (frame_of_records products)).
  { intros c I. unfold frame_of_records, columns in I; simpl in I.
    rewrite map_map in I; simpl in I. rewrite map_id in I.
    destruct (union_keys_In _ _ I) as [r [Ir Ic]].
    apply (proj1 (Forall_forall _ _) F r Ir c Ic). }
  inv_bind H. rename E into E1, a into d1.
  inv_bind H. rename E into E2, a into d2.
  inv_bind H. rename E into E3, a into d3.
  inv_bind H. rename E into E4, a into d4.
  inv_bind H. rename E into E5, a into d5.
  inversion H; subst P; clear H.
  assert (L1 : every_label (fun c => ~ names_id c) d1).
  { unfold when_col in E1.
    destruct (has_col "dimensions" (frame_of_records products));
      [|inversion E1; subst d1; exact L0].
    unfold flatten_dimensions in E1. inv_bind E1. inv_bind E1.
    destruct (existsb _ _) in E1; [discriminate E1|].
    inversion E1; subst d1; clear E1.
    intros c I. unfold columns in I; simpl in I.
    rewrite map_app in I. apply in_app_or in I. destruct I as [I|I].
    - apply (every_label_drop_col _ "dimensions" _ L0 c I).
    - rewrite map_map in I; simpl in I. apply in_map_iff in I.
      destruct I as [p [<- _]]. unfold names_id. cbn. discriminate. }
  assert (L2 : every_label (fun c => ~ names_id c) d2).
  { open_when E2; [|exact L1]. apply every_label_drop_col; exact L1. }
  assert (L3 : every_label (fun c => ~ names_id c) d3).
  { unfold when_col in E3.
    destruct (has_col "reviews" d2); [|inversion E3; subst d3; exact L2].
    unfold flatten_reviews in E3. repeat inv_bind E3.
    inversion E3; subst d3; clear E3.
    apply every_label_drop_col.
    apply every_label_set_col; [unfold names_id; cbn; discriminate|].
    apply every_label_set_col; [unfold names_id; cbn; discriminate|]. exact L2. }
  assert (L4 : every_label (fun c => ~ names_id c) d4).
  { unfold when_col in E4.
    destruct (has_col "images" d3); [|inversion E4; subst d4; exact L3].
    unfold flatten_images in E4. repeat inv_bind E4.
    inversion E4; subst d4; clear E4.
    apply every_label_drop_col.
    apply every_label_set_col; [unfold names_id; cbn; discriminate|].
    apply every_label_set_col; [unfold names_id; cbn; discriminate|]. exact L3. }
  assert (L5 : every_label (fun c => c <> "id") d5).
  { unfold standardize_columns in E5.
    match type of E5 with
    | (if ?b then _ else _) = _ => destruct b; [|discriminate E5]
    end.
    inversion E5; subst d5; clear E5.
    intros c I. unfold columns in I; simpl in I.
    rewrite map_map in I; simpl in I. apply in_map_iff in I.
    destruct I as [[k t] [<- I]]. simpl.
    apply L4. unfold columns. apply in_map_iff. exists (k, t). auto. }
  apply lookup_none_iff.
  destruct (mem_str "id" (map fst (cols (tag_source "DummyJSON_API" now d5))))
    eqn:M; [|reflexivity].
  apply mem_str_true_iff in M. exfalso.
  assert (L6 : every_label (fun c => c <> "id") (tag_source "DummyJSON_API" now d5)).
  { unfold tag_source.
    apply every_label_set_col; [discriminate|].
    apply every_label_set_col; [discriminate|]. exact L5. }
  apply (L6 "id" M). reflexivity.
Qed.

Lemma dedup_without_id df :
  df_empty df = false -> lookup "id" (cols df) = None ->
  drop_duplicates ["id"] df = Raise (KeyError "id").
Proof.
  intros NE L. unfold drop_duplicates. rewrite NE.
  cbn [mapM bind]. unfold get_col. rewrite L. reflexivity.
Qed.

(** X11. The API normalizer removes duplicates by id without looking whether
    there is an id: a batch none of whose records has an id key (in any
    capitalisation) ends in [KeyError: 'id'], unless flattening failed
    before. *)
Theorem api_batch_without_id_raises now products P :
  products <> [] ->
  Forall (fun r : record => forall k, In k (map fst r) -> ~ names_id k)
         products ->
  prepare_api now products = Ok P ->
  clean_api_data now products = Raise (KeyError "id").
Proof.
  intros NE F E.
  pose proof (prepare_api_without_id _ _ _ F E) as L.
  pose proof (prepare_not_empty Api now products P NE E) as NotEmpty.
  destruct products as [|r rs]; [contradiction|].
  unfold clean_api_data. rewrite E. cbn [bind].
  rewrite (dedup_without_id P NotEmpty L). reflexivity.
Qed.

Lemma api_batch_without_id_raises_witness :
  clean_api_data sample_time [[("title", VStr "Pen"); ("price", VInt 3)]]
  = Raise (KeyError "id").
Proof.
  apply (api_batch_without_id_raises sample_time
           [[("title", VStr "Pen"); ("price", VInt 3)]]
           (frame_or_empty
              (prepare_api sample_time
                 [[("title", VStr "Pen"); ("price", VInt 3)]]))).
  - discriminate.
  - constructor; [|constructor].
    intros k [<-|[<-|[]]]; unfold names_id; cbn; discriminate.
  - vm_compute. reflexivity.
Defined.

(* ================================================================= *)
(** ** Merging two tables *)

Lemma count_true_le m : (count_true m <= List.length m)%nat.
Proof. unfold count_true. apply filter_length_le. Qed.

Lemma select_rows_columns keep df : columns (select_rows keep df) = columns df.
Proof. unfold columns, select_rows; simpl. rewrite map_map. reflexivity. Qed.

Lemma concat_columns a b c :
  concat a b = Ok c ->
  columns c = (columns a ++ filter (fun x => negb (has_col x a)) (columns b))%list
  /\ nrows c = (nrows a + nrows b)%nat.
Proof.
  unfold concat. intros H. inv_bind H. inversion H; subst; clear H.
  split; [|reflexivity].
  apply (mapM_fst _ _ _ E (concat_column_fst a b)).
Qed.

(** X12. The merged table has the columns of the first table followed by the
    new columns of the second, each once, and at most the rows of both. *)
Theorem merge_labels_and_row_bound A B M :
  merge_datasets A B = Ok M ->
  columns M
  = (columns A ++ filter (fun c => negb (has_col c A)) (columns B))%list
  /\ (nrows M <= nrows A + nrows B)%nat.
Proof.
  intros H. unfold merge_datasets in H. inv_bind H. rename a into C.
  destruct (concat_columns _ _ _ E) as [Cc Cn].
  unfold drop_duplicates in H. destruct (df_empty C).
  - inversion H; subst M. split; [exact Cc | rewrite Cn; apply Nat.le_refl].
  - inv_bind H. inv_bind H. inversion H; subst M; clear H.
    rewrite select_rows_columns. split; [exact Cc|].
    cbn [nrows select_rows]. rewrite <- Cn.
    eapply Nat.le_trans; [apply count_true_le|].
    rewrite length_map, duplicated_length.
    destruct (Nat.le_gt_cases (List.length (row_keys (nrows C) a0)) (nrows C))
      as [Le|Gt]; [exact Le|].
    exfalso. clear - Gt. revert Gt.
    generalize (nrows C). intros n. induction a0 as [|ks rest IH]; simpl.
    + rewrite repeat_length. lia.
    + rewrite length_map, length_combine. lia.
Qed.

Lemma merge_labels_and_row_bound_witness :
  columns sample_both
  = (columns sample_api
     ++ filter (fun c => negb (has_col c sample_api)) (columns sample_web))%list
  /\ (nrows sample_both <= nrows sample_api + nrows sample_web)%nat.
Proof.
  apply (merge_labels_and_row_bound sample_api sample_web sample_both).
  vm_compute. reflexivity.
Defined.

(** X13. Whatever rows went in, no composite key (id, data_source) occurs
    twice in a merged table: for well-formed tables A and B, the keys of the
    rows of merge(A, B) are pairwise distinct, one key for every row. *)
Theorem merged_keys_are_distinct A B M :
  table A = true -> table B = true ->
  merge_datasets A B = Ok M ->
  nrows M <> 0%nat ->
  exists ks,
    composite_keys M = Ok ks /\ NoDup ks /\ List.length ks = nrows M.
Proof.
  intros TA TB H NZ. unfold merge_datasets in H. inv_bind H. rename a into C.
  pose proof (concat_table A B C TA TB E) as Tc.
  apply table_iff in Tc. destruct Tc as [W Z].
  destruct (drop_duplicates_inv _ _ _ H) as [[X ->]|[X [ss [ks [G [Hk ->]]]]]].
  - exfalso. apply NZ.
    unfold df_empty in X. apply orb_true_iff in X.
    destruct X as [X|X]; apply Nat.eqb_eq in X; [exact X|].
    apply Z. destruct (cols C); [reflexivity | discriminate X].
  - assert (Fk : Forall (fun k : list hkey => List.length k = nrows C) ks)
      by (eapply hash_keys_length; [eapply get_cols_length|]; eassumption).
    destruct (kept_keys (nrows C) ks Fk) as [K L].
    set (keep := map negb (duplicated [] (row_keys (nrows C) ks))) in *.
    exists (keep_first (row_keys (nrows C) ks)).
    split; [|split].
    + unfold composite_keys.
      rewrite (get_cols_map (take keep) C (select_rows keep C) _ ss eq_refl G).
      cbn [bind]. rewrite (hash_keys_take keep ss ks Hk). cbn [bind].
      cbn [nrows select_rows]. rewrite K. reflexivity.
    + apply keep_first_NoDup.
    + rewrite <- K. apply row_keys_length.
      apply Forall_map. eapply Forall_impl; [|exact Fk].
      intros k Lk; simpl in *. apply select_length. rewrite L, Lk. reflexivity.
Qed.

Lemma merged_keys_are_distinct_witness :
  exists ks,
    composite_keys sample_both = Ok ks /\ NoDup ks
    /\ List.length ks = nrows sample_both.
Proof.
  apply (merged_keys_are_distinct sample_api sample_web sample_both).
  - vm_compute; reflexivity.
  - vm_compute; reflexivity.
  - vm_compute; reflexivity.
  - discriminate.
Defined.

Lemma concat_empty_l df :
  well_formed df = true -> concat empty_frame df = Ok df.
Proof.
  intros W. apply well_formed_iff in W. destruct W as [N _].
  unfold concat. cbn [columns cols empty_frame map app nrows Nat.add].
  assert (Fl : forall l, filter (fun c => negb (has_col c empty_frame)) l = l).
  { induction l as [|c l IH]; simpl; [reflexivity | f_equal; exact IH]. }
  rewrite Fl. unfold columns.
  rewrite (mapM_ext_in (concat_column empty_frame df) (fun p => p) fst).
  - cbn [bind]. rewrite map_id. destruct df; reflexivity.
  - intros [c s] I. simpl. unfold concat_column.
    rewrite (NoDup_lookup _ c s N I). reflexivity.
Qed.

(** X14. When the API delivers nothing, merging hands the web table through:
    the empty table is a left identity of merge on every table of the web
    normalizer. *)
Theorem merge_of_nothing_and_web_table k now products B :
  clean_web_scraped_data k now products = Ok B ->
  merge_datasets empty_frame B = Ok B.
Proof.
  intros H. destruct products as [|r rs].
  - simpl in H. inversion H; reflexivity.
  - destruct (web_table_keys_distinct k now (r :: rs) B) as [ks [K N]];
      [discriminate | exact H |].
    pose proof (normalize_table (Web k) now (r :: rs) B H) as T.
    apply table_iff in T. destruct T as [W _].
    unfold merge_datasets. rewrite (concat_empty_l B W). cbn [bind].
    unfold composite_keys in K. inv_bind K. inv_bind K.
    inversion K; subst; clear K.
    apply (drop_duplicates_distinct _ B a a0); assumption.
Qed.

Lemma merge_of_nothing_and_web_table_witness :
  merge_datasets empty_frame sample_web = Ok sample_web
  /\ nrows sample_web = 1%nat.
Proof.
  split; [|reflexivity].
  apply (merge_of_nothing_and_web_table seed0 sample_time [attic] sample_web).
  vm_compute. reflexivity.
Defined.

Lemma mapM_lookup {B} (f : string -> result (string * B)) l bs x :
  mapM f l = Ok bs ->
  (forall y p, f y = Ok p -> fst p = y) ->
  In x l ->
  exists p, f x = Ok p /\ lookup x bs = Some (snd p).
Proof.
  revert bs; induction l as [|y l IH]; intros bs H F I; [destruct I|].
  simpl in H. inv_bind H. inv_bind H. inversion H; subst; clear H.
  destruct a as [k v]. pose proof (F _ _ E) as Fk. simpl in Fk. subst k.
  simpl. destruct (String.eqb x y) eqn:X.
  - apply String.eqb_eq in X. subst y. exists (x, v). auto.
  - destruct I as [->|I]; [rewrite String.eqb_refl in X; discriminate X|].
    apply (IH a0 eq_refl F I).
Qed.

(** A column both tables hold under one dtype is put end to end. *)
Lemma concat_shared_column a b c x sa sb :
  concat a b = Ok c ->
  lookup x (cols a) = Some sa -> lookup x (cols b) = Some sb ->
  s_dtype sb = s_dtype sa ->
  lookup x (cols c) = Some (mkSeries (s_dtype sa) (s_values sa ++ s_values sb)).
Proof.
  intros H La Lb D. unfold concat in H. inv_bind H.
  inversion H; subst c; clear H. cbn [cols].
  assert (I : In x (columns a
                    ++ filter (fun c => negb (has_col c a)) (columns b))%list).
  { apply in_or_app. left. apply has_col_In. apply has_col_lookup. eauto. }
  destruct (mapM_lookup _ _ _ x E (concat_column_fst a b) I) as [p [Cp Lp]].
  rewrite Lp. f_equal.
  unfold concat_column in Cp. rewrite La, Lb in Cp.
  destruct (Nat.eqb (nrows b) 0); [inversion Cp; reflexivity|].
  destruct (Nat.eqb (nrows a) 0); [inversion Cp; simpl; rewrite D; reflexivity|].
  rewrite D, common_dtype_same in Cp. cbn [bind] in Cp.
  rewrite !cast_cells_same in Cp. inversion Cp; reflexivity.
Qed.

Lemma tagged_keys df t ks :
  well_formed df = true ->
  lookup "data_source" (cols df)
  = Some (mkSeries DObject (repeat (VStr t) (nrows df))) ->
  composite_keys df = Ok ks ->
  exists s hs,
    lookup "id" (cols df) = Some s
    /\ mapM hash_key (s_values s) = Ok hs
    /\ List.length hs = nrows df
    /\ ks = map (fun h => [h; HStr t]) hs.
Proof.
  intros W Lt K. unfold composite_keys in K.
  cbn [mapM bind] in K. unfold get_col in K.
  destruct (lookup "id" (cols df)) as [s|] eqn:Li; [|discriminate K].
  rewrite Lt in K. cbn [bind mapM s_values] in K.
  destruct (mapM hash_key (s_values s)) as [hs|] eqn:Hs; [|discriminate K].
  rewrite hash_text_keys in K. cbn [bind] in K.
  inversion K; subst ks; clear K.
  assert (Len : List.length hs = nrows df).
  { rewrite (mapM_length _ _ _ Hs). apply (lookup_length df "id" s W Li). }
  exists s, hs. split; [reflexivity|]. split; [exact Hs|].
  split; [exact Len|].
  rewrite <- Len. apply row_keys_pair.
Qed.

(** Two tables under different source tags, each without a repeated key,
    lose no row when merged. *)
Lemma merge_under_different_tags A B ta tb ka kb sa sb :
  table A = true -> table B = true ->
  lookup "data_source" (cols A)
  = Some (mkSeries DObject (repeat (VStr ta) (nrows A))) ->
  lookup "data_source" (cols B)
  = Some (mkSeries DObject (repeat (VStr tb) (nrows B))) ->
  ta <> tb ->
  lookup "id" (cols A) = Some sa -> lookup "id" (cols B) = Some sb ->
  s_dtype sb = s_dtype sa ->
  composite_keys A = Ok ka -> NoDup ka ->
  composite_keys B = Ok kb -> NoDup kb ->
  merge_datasets A B = concat A B.
Proof.
  intros TA TB Lta Ltb Neq Lia Lib D Ka Na Kb Nb.
  unfold merge_datasets.
  destruct (concat A B) as [C|e] eqn:EC; cbn [bind]; [|reflexivity].
  pose proof (concat_table A B C TA TB EC) as TC.
  apply table_iff in TA, TB, TC.
  destruct TA as [WA _], TB as [WB _], TC as [WC _].
  destruct (tagged_keys A ta ka WA Lta Ka) as [sa' [ha [Lia' [Ha [La Eka]]]]].
  destruct (tagged_keys B tb kb WB Ltb Kb) as [sb' [hb [Lib' [Hb [Lb Ekb]]]]].
  rewrite Lia in Lia'. inversion Lia'; subst sa'; clear Lia'.
  rewrite Lib in Lib'. inversion Lib'; subst sb'; clear Lib'.
  pose proof (concat_shared_column A B C "id" sa sb EC Lia Lib D) as Ci.
  pose proof (concat_shared_column A B C "data_source" _ _ EC Lta Ltb eq_refl)
    as Ct.
  cbn [s_dtype s_values] in Ct.
  destruct (concat_columns _ _ _ EC) as [_ Cn].
  apply (drop_duplicates_distinct _ C
           [mkSeries (s_dtype sa) (s_values sa ++ s_values sb);
            mkSeries DObject (repeat (VStr ta) (nrows A)
                              ++ repeat (VStr tb) (nrows B))]
           [(ha ++ hb)%list;
            (repeat (HStr ta) (nrows A) ++ repeat (HStr tb) (nrows B))%list]).
  - exact WC.
  - cbn [mapM bind]. unfold get_col. rewrite Ci, Ct. reflexivity.
  - cbn [mapM bind s_values].
    rewrite (mapM_app _ _ _ _ _ Ha Hb). cbn [bind].
    rewrite (mapM_app _ _ _ _ _ (hash_text_keys ta (nrows A))
               (hash_text_keys tb (nrows B))).
    reflexivity.
  - rewrite Cn. cbn [row_keys].
    rewrite repeat_app.
    rewrite (combine_app (repeat (HStr ta) (nrows A)) _
               (repeat (@nil hkey) (nrows A)))
      by (rewrite !repeat_length; reflexivity).
    rewrite map_app.
    rewrite (combine_app ha hb)
      by (rewrite length_map, length_combine, !repeat_length, La;
          symmetry; apply Nat.min_id).
    rewrite map_app.
    change (map (fun p => fst p :: snd p)
              (combine ha
                 (map (fun p => fst p :: snd p)
                    (combine (repeat (HStr ta) (nrows A))
                       (repeat [] (nrows A))))))
      with (row_keys (nrows A) [ha; repeat (HStr ta) (nrows A)]).
    change (map (fun p => fst p :: snd p)
              (combine hb
                 (map (fun p => fst p :: snd p)
                    (combine (repeat (HStr tb) (nrows B))
                       (repeat [] (nrows B))))))
      with (row_keys (nrows B) [hb; repeat (HStr tb) (nrows B)]).
    rewrite <- La, <- Lb, !row_keys_pair. rewrite <- Eka, <- Ekb.
    apply NoDup_app; [exact Na | exact Nb|].
    intros x Ia Ib. rewrite Eka in Ia. rewrite Ekb in Ib.
    apply in_map_iff in Ia, Ib.
    destruct Ia as [h1 [E1 _]], Ib as [h2 [E2 _]].
    rewrite <- E2 in E1. inversion E1. apply Neq. assumption.
Qed.

Lemma normalize_id_dtype src now products out s :
  products <> [] ->
  normalize src now products = Ok out ->
  lookup "id" (cols out) = Some s ->
  s_dtype s = DInt64N.
Proof.
  intros NE H L. rewrite normalize_unfold in H by exact NE.
  inv_bind H. inv_bind H.
  apply (validate_id_cells _ _ _ H L).
Qed.

(** X15. Ids of different sources never collide: merging an API table without
    a repeated key and a web table drops no row, the merged table is the
    one table put on top of the other. *)
Theorem merge_never_mixes_up_the_sources now1 now2 k pa pw A B ka :
  pa <> [] -> pw <> [] ->
  clean_api_data now1 pa = Ok A ->
  clean_web_scraped_data k now2 pw = Ok B ->
  composite_keys A = Ok ka -> NoDup ka ->
  merge_datasets A B = concat A B
  /\ forall M, merge_datasets A B = Ok M ->
               nrows M = (nrows A + nrows B)%nat.
Proof.
  intros NA NB HA HB Ka Na.
  change (normalize Api now1 pa = Ok A) in HA.
  change (normalize (Web k) now2 pw = Ok B) in HB.
  destruct (web_table_keys_distinct k now2 pw B NB HB) as [kb [Kb Nb]].
  pose proof (normalize_source_tag _ _ _ _ NA HA) as Lta.
  pose proof (normalize_source_tag _ _ _ _ NB HB) as Ltb.
  pose proof (normalize_table _ _ _ _ HA) as TA.
  pose proof (normalize_table _ _ _ _ HB) as TB.
  assert (WA : well_formed A = true) by (apply table_iff in TA; tauto).
  assert (WB : well_formed B = true) by (apply table_iff in TB; tauto).
  destruct (tagged_keys A _ ka WA Lta Ka) as [sa [_ [Lia _]]].
  destruct (tagged_keys B _ kb WB Ltb Kb) as [sb [_ [Lib _]]].
  assert (E : merge_datasets A B = concat A B).
  { apply (merge_under_different_tags A B _ _ ka kb sa sb TA TB Lta Ltb);
      try assumption.
    - discriminate.
    - rewrite (normalize_id_dtype _ _ _ _ _ NA HA Lia).
      apply (normalize_id_dtype _ _ _ _ _ NB HB Lib). }
  split; [exact E|].
  intros M HM. rewrite E in HM.
  apply (proj2 (concat_columns _ _ _ HM)).
Qed.

Lemma merge_never_mixes_up_the_sources_witness :
  merge_datasets sample_api sample_web = concat sample_api sample_web
  /\ nrows sample_both = (nrows sample_api + nrows sample_web)%nat.
Proof.
  destruct (merge_never_mixes_up_the_sources sample_time sample_time seed0
              [phone; cable] [attic] sample_api sample_web
              [[HNum 1; HStr "DummyJSON_API"]; [HNum 2; HStr "DummyJSON_API"]])
    as [E R].
  - discriminate.
  - discriminate.
  - vm_compute; reflexivity.
  - vm_compute; reflexivity.
  - reflexivity.
  - repeat constructor; simpl; intuition discriminate.
  - split; [exact E|]. apply R. vm_compute. reflexivity.
Defined.

(* ================================================================= *)
(** ** The enricher *)

Lemma columns_set_col c s df :
  columns (set_col c s df)
  = if has_col c df then columns df else (columns df ++ [c])%list.
Proof.
  unfold set_col. destruct (has_col c df); unfold columns; simpl.
  - apply replace_col_names.
  - rewrite map_app. reflexivity.
Qed.

Lemma enriched_refl df : enriched_from df df.
Proof. unfold enriched_from. auto. Qed.

Lemma enriched_trans a b c :
  enriched_from a b -> enriched_from b c -> enriched_from a c.
Proof.
  intros [N1 [I1 [O1 W1]]] [N2 [I2 [O2 W2]]].
  split; [congruence|]. split; [auto|]. split; [|auto].
  intros x Hx. destruct (O2 x Hx) as [H|H]; auto.
Qed.

Lemma enriched_set_col c s df :
  In c derived_columns ->
  (well_formed df = true -> List.length (s_values s) = nrows df) ->
  enriched_from df (set_col c s df).
Proof.
  intros D L. split; [apply nrows_set_col|].
  rewrite columns_set_col. split; [|split].
  - intros x Hx. destruct (has_col c df); [exact Hx|].
    apply in_or_app; left; exact Hx.
  - intros x Hx. destruct (has_col c df); [left; exact Hx|].
    apply in_app_or in Hx. destruct Hx as [Hx|[<-|[]]]; auto.
  - intros W. apply set_col_well_formed; auto.
Qed.

Lemma cut_length bins labels s c :
  cut bins labels s = Ok c ->
  List.length (s_values c) = List.length (s_values s).
Proof.
  intros H. rewrite (cut_values _ _ _ _ H). simpl. apply length_map.
Qed.

Lemma str_method_length f s n :
  str_method f s = Ok n ->
  List.length (s_values n) = List.length (s_values s).
Proof.
  unfold str_method. destruct (s_dtype s); try discriminate.
  intros H. inv_bind H. inversion H; subst.
  rewrite infer_series_length. apply (mapM_length _ _ _ E).
Qed.

Lemma add_price_category_enriched df out :
  add_price_category df = Ok out -> enriched_from df out.
Proof.
  intros H. unfold add_price_category in H.
  open_when H; [|apply enriched_refl].
  apply enriched_set_col; [simpl; tauto|].
  intros W. rewrite (cut_length _ _ _ _ E0). apply (get_col_length _ _ _ W E).
Qed.

Lemma add_rating_category_enriched df out :
  add_rating_category df = Ok out -> enriched_from df out.
Proof.
  intros H. unfold add_rating_category in H.
  open_when H; [|apply enriched_refl].
  apply enriched_set_col; [simpl; tauto|].
  intros W. rewrite (cut_length _ _ _ _ E0). apply (get_col_length _ _ _ W E).
Qed.

Lemma get_col_set_other c c' s df :
  c <> c' -> get_col c (set_col c' s df) = get_col c df.
Proof.
  intros N. unfold get_col. rewrite lookup_set_col_other by exact N.
  reflexivity.
Qed.

Lemma add_title_metrics_enriched df out :
  add_title_metrics df = Ok out -> enriched_from df out.
Proof.
  intros H. unfold add_title_metrics in H.
  open_when H; [|apply enriched_refl].
  eapply enriched_trans.
  - apply (enriched_set_col "title_length" a0 df); [simpl; tauto|].
    intros W. rewrite (str_method_length _ _ _ E0).
    apply (get_col_length _ _ _ W E).
  - apply enriched_set_col; [simpl; tauto|].
    intros W. rewrite (str_method_length _ _ _ E2).
    apply (get_col_length _ _ _ W E1).
Qed.

Lemma add_description_metrics_enriched df out :
  add_description_metrics df = Ok out -> enriched_from df out.
Proof.
  intros H. unfold add_description_metrics in H.
  open_when H; [|apply enriched_refl].
  eapply enriched_trans; [|eapply enriched_trans].
  - apply (enriched_set_col "description_length" a0 df); [simpl; tauto|].
    intros W. rewrite (str_method_length _ _ _ E0).
    apply (get_col_length _ _ _ W E).
  - apply (enriched_set_col "description_word_count" a2); [simpl; tauto|].
    intros W. rewrite (str_method_length _ _ _ E2).
    apply (get_col_length _ _ _ W E1).
  - apply enriched_set_col; [simpl; tauto|].
    intros W. unfold positive; simpl. rewrite length_map.
    rewrite (str_method_length _ _ _ E4).
    apply (get_col_length _ _ _ W E3).
Qed.

Lemma discount_percentage_length r p d :
  discount_percentage r p = Ok d ->
  List.length (s_values d)
  = Nat.min (List.length (s_values r)) (List.length (s_values p)).
Proof.
  unfold discount_percentage.
  destruct (is_numeric_dtype (s_dtype r) && is_numeric_dtype (s_dtype p));
    [|discriminate].
  intros H. inv_bind H. inversion H; subst; simpl.
  rewrite (mapM_length _ _ _ E). apply length_combine.
Qed.

Lemma add_discount_enriched df out :
  add_discount df = Ok out -> enriched_from df out.
Proof.
  intros H. unfold add_discount in H.
  destruct (has_col "price" df && has_col "regularprice" df);
    [repeat inv_bind H|]; inversion H; subst; clear H; [|apply enriched_refl].
  apply enriched_set_col; [simpl; tauto|].
  intros W. rewrite (discount_percentage_length _ _ _ E1).
  rewrite (get_col_length _ _ _ W E), (get_col_length _ _ _ W E0).
  apply Nat.min_id.
Qed.

Lemma enrich_enriched df out :
  add_calculated_fields df = Ok out -> enriched_from df out.
Proof.
  intros H. unfold add_calculated_fields in H.
  inv_bind H. inv_bind H. inv_bind H. inv_bind H.
  eapply enriched_trans; [apply (add_price_category_enriched _ _ E)|].
  eapply enriched_trans; [apply (add_rating_category_enriched _ _ E0)|].
  eapply enriched_trans; [apply (add_title_metrics_enriched _ _ E1)|].
  eapply enriched_trans; [apply (add_description_metrics_enriched _ _ E2)|].
  apply (add_discount_enriched _ _ H).
Qed.

(** X16. The enricher only adds: it keeps the rows, keeps every column of its
    input, writes nothing but its eight derived columns, leaves every
    other column as it found it, and returns a well-formed table for a
    well-formed one. *)
Theorem enricher_only_adds_derived_columns df out :
  add_calculated_fields df = Ok out ->
  nrows out = nrows df
  /\ (forall c, In c (columns df) -> In c (columns out))
  /\ (forall c, In c (columns out) -> In c (columns df) \/ In c derived_columns)
  /\ (forall c, mem_str c derived_columns = false ->
                lookup c (cols out) = lookup c (cols df))
  /\ (well_formed df = true -> well_formed out = true).
Proof.
  intros H. destruct (enrich_enriched df out H) as [N [I [O W]]].
  split; [exact N|]. split; [exact I|]. split; [exact O|].
  split; [|exact W].
  intros c D. apply (enrich_keeps c df out H D).
Qed.

Lemma enricher_only_adds_derived_columns_witness :
  exists out,
    add_calculated_fields rated = Ok out
    /\ nrows out = 4%nat
    /\ lookup "price" (cols out) = lookup "price" (cols rated)
    /\ well_formed out = true.
Proof.
  eexists. split; [vm_compute; reflexivity|].
  destruct (enricher_only_adds_derived_columns rated _ eq_refl)
    as [N [_ [_ [K W]]]].
  split; [exact N|]. split; [apply (K "price"); reflexivity|].
  apply W. reflexivity.
Defined.

(** X17. The rating bins, read off the source: (0, 2] is "Poor", (2, 3] "Fair",
    (3, 4] "Good", (4, 5] "Excellent"; a rating above 5, like a rating of 0
    or below and like a missing rating, gets no bucket. *)
Theorem rating_buckets_by_row df out s :
  add_calculated_fields df = Ok out ->
  lookup "rating" (cols df) = Some s ->
  exists c,
    lookup "rating_category" (cols out) = Some c
    /\ s_dtype c = DCategory
    /\ forall i v,
         nth_error (s_values s) i = Some v ->
         (num_of v = None -> nth_error (s_values c) i = Some VNaN)
         /\ forall r, num_of v = Some r ->
              ((0 < r /\ r <= 2)%Q ->
                 nth_error (s_values c) i = Some (VStr "Poor"))
              /\ ((2 < r /\ r <= 3)%Q ->
                 nth_error (s_values c) i = Some (VStr "Fair"))
              /\ ((3 < r /\ r <= 4)%Q ->
                 nth_error (s_values c) i = Some (VStr "Good"))
              /\ ((4 < r /\ r <= 5)%Q ->
                 nth_error (s_values c) i = Some (VStr "Excellent"))
              /\ ((r <= 0 \/ 5 < r)%Q ->
                 nth_error (s_values c) i = Some VNaN).
Proof.
  intros H L.
  destruct (enrich_rating_category df out s H L) as [c [C Lc]].
  exists c. split; [exact Lc|].
  rewrite (cut_values _ _ _ _ C). split; [reflexivity|].
  intros i v Hv. cbn [s_values]. rewrite nth_error_map, Hv. cbn [option_map].
  unfold cut_cell. split.
  - intros ->. reflexivity.
  - intros r ->. rewrite rating_label_spec.
    destruct (Qle_bool r 0) eqn:E0; destruct (Qle_bool r 2) eqn:E1;
      destruct (Qle_bool r 3) eqn:E2; destruct (Qle_bool r 4) eqn:E3;
      destruct (Qle_bool r 5) eqn:E4; qle_cases;
      repeat split; intros; try reflexivity; exfalso; lra.
Qed.

Lemma rating_buckets_by_row_witness :
  exists c,
    lookup "rating_category"
      (cols (frame_or_empty (add_calculated_fields rated))) = Some c
    /\ nth_error (s_values c) 0 = Some (VStr "Poor")
    /\ nth_error (s_values c) 1 = Some (VStr "Excellent")
    /\ nth_error (s_values c) 2 = Some VNaN
    /\ nth_error (s_values c) 3 = Some VNaN.
Proof.
  destruct (rating_buckets_by_row rated
              (frame_or_empty (add_calculated_fields rated))
              (mkSeries DFloat64 [VFloat 2; VFloat (9 # 2); VFloat 6; VNaN]))
    as [c [L [_ R]]].
  - vm_compute. reflexivity.
  - reflexivity.
  - exists c. split; [exact L|].
    split; [apply (proj2 (R 0%nat (VFloat 2) eq_refl) 2%Q eq_refl); lra|].
    split; [apply (proj2 (R 1%nat (VFloat (9 # 2)) eq_refl) (9 # 2)%Q eq_refl);
            lra|].
    split; [apply (proj2 (R 2%nat (VFloat 6) eq_refl) 6%Q eq_refl); lra|].
    apply (proj1 (R 3%nat VNaN eq_refl)). reflexivity.
Defined.

Lemma mapM_nth {A B} (f : A -> result B) l bs i a :
  mapM f l = Ok bs -> nth_error l i = Some a ->
  exists b, f a = Ok b /\ nth_error bs i = Some b.
Proof.
  revert bs i; induction l as [|x l IH]; intros bs i H N.
  - destruct i; discriminate N.
  - simpl in H. inv_bind H. inv_bind H. inversion H; subst; clear H.
    destruct i as [|i]; simpl in N.
    + inversion N; subst. exists a0. auto.
    + apply (IH a1 i eq_refl N).
Qed.

Lemma infer_series_values vs :
  s_values (infer_series vs) = vs
  \/ s_values (infer_series vs) = map to_float_cell vs.
Proof.
  unfold infer_series.
  repeat match goal with
         | |- context [if ?b then _ else _] => destruct b
         end; simpl; auto.
Qed.

Lemma str_method_cells f s n i v :
  str_method f s = Ok n ->
  nth_error (s_values s) i = Some v ->
  exists w x,
    measured f v = Ok w
    /\ nth_error (s_values n) i = Some x
    /\ (x = w \/ x = to_float_cell w).
Proof.
  intros H N. unfold str_method in H.
  destruct (s_dtype s); try discriminate H.
  inv_bind H. inversion H; subst n; clear H.
  destruct (mapM_nth _ _ _ _ _ E N) as [w [Fw Nw]].
  exists w. fold (measured f v) in Fw.
  destruct (infer_series_values a) as [V|V]; rewrite V.
  - exists w. auto.
  - exists (to_float_cell w). split; [exact Fw|].
    split; [rewrite nth_error_map, Nw; reflexivity | auto].
Qed.

Lemma measured_number f v w x z :
  measured f v = Ok w -> (x = w \/ x = to_float_cell w) ->
  (forall t, v = VStr t -> f t = VInt (z t)) ->
  match v with
  | VStr t => num_of x = Some (inject_Z (z t))
  | _ => x = VNaN
  end.
Proof.
  intros M X F. destruct v; simpl in M; try discriminate M;
    inversion M; subst w; clear M;
    try (destruct X as [->| ->]; reflexivity).
  rewrite (F s eq_refl) in X. destruct X as [->| ->]; reflexivity.
Qed.




Lemma empty_text_has_no_length t :
  Qle_bool (inject_Z (Z.of_nat (String.length t))) 0 = String.eqb t "".
Proof.
  destruct t as [|c t]; [reflexivity|].
  cbn [String.eqb]. apply not_true_iff_false. rewrite Qle_bool_iff.
  unfold Qle; cbn [String.length Qnum Qden inject_Z]. lia.
Qed.

Lemma enrich_has_description df out s :
  add_calculated_fields df = Ok out ->
  lookup "description" (cols df) = Some s ->
  exists n,
    str_method str_len s = Ok n
    /\ lookup "has_description" (cols out) = Some (positive n).
Proof.
  intros H L. unfold add_calculated_fields in H.
  inv_bind H. inv_bind H. inv_bind H. inv_bind H.
  rewrite (add_discount_keeps _ _ _ H) by discriminate.
  assert (L1 : lookup "description" (cols a1) = Some s).
  { rewrite (add_title_metrics_keeps "description" _ _ E1) by discriminate.
    rewrite (add_rating_category_keeps "description" _ _ E0) by discriminate.
    rewrite (add_price_category_keeps "description" _ _ E) by discriminate.
    exact L. }
  assert (HC : has_col "description" a1 = true)
    by (apply has_col_lookup; eauto).
  clear - E2 L1 HC. unfold add_description_metrics, when_col in E2.
  rewrite HC in E2. cbv beta in E2.
  unfold get_col at 1 in E2. rewrite L1 in E2. cbn [bind] in E2.
  inv_bind E2. rewrite get_col_set_other in E2 by discriminate.
  unfold get_col at 1 in E2. rewrite L1 in E2. cbn [bind] in E2.
  inv_bind E2. rewrite !get_col_set_other in E2 by discriminate.
  unfold get_col in E2. rewrite L1 in E2. cbn [bind] in E2.
  rewrite E in E2. cbn [bind] in E2.
  inversion E2; subst a2; clear E2.
  exists a. split; [reflexivity | apply lookup_set_col_same].
Qed.

(** X19. has_description is a boolean column: true where the description is a
    text with at least one character, false where it is empty or missing. *)
Theorem has_description_means_nonempty_text df out s :
  add_calculated_fields df = Ok out ->
  lookup "description" (cols df) = Some s ->
  lookup "has_description" (cols out)
  = Some (mkSeries DBool
            (map (fun v => match v with
                           | VStr t => VBool (negb (String.eqb t ""))
                           | _ => VBool false
                           end) (s_values s))).
Proof.
  intros H L.
  destruct (enrich_has_description df out s H L) as [n [Sn Ln]].
  rewrite Ln. unfold positive. do 2 f_equal.
  apply nth_error_ext. intros i. rewrite !nth_error_map.
  destruct (nth_error (s_values s) i) as [v|] eqn:N.
  - destruct (str_method_cells _ _ _ _ _ Sn N) as [w [x [M [Nx X]]]].
    rewrite Nx. cbn [option_map]. f_equal.
    pose proof (measured_number str_len v w x
                  (fun t => Z.of_nat (String.length t)) M X
                  (fun t _ => eq_refl)) as P.
    destruct v; try (rewrite P; reflexivity).
    rewrite P, empty_text_has_no_length. reflexivity.
  - apply nth_error_None in N.
    rewrite <- (str_method_length _ _ _ Sn) in N.
    apply nth_error_None in N. rewrite N. reflexivity.
Qed.

Lemma has_description_means_nonempty_text_witness :
  lookup "has_description"
    (cols (frame_or_empty (add_calculated_fields rated)))
  = Some (mkSeries DBool [VBool true; VBool false; VBool false; VBool true]).
Proof.
  apply (has_description_means_nonempty_text rated
           (frame_or_empty (add_calculated_fields rated))
           (mkSeries DObject [VStr "Writes well"; VStr ""; VStr ""; VStr "x"])).
  - vm_compute. reflexivity.
  - reflexivity.
Defined.









(* ================================================================= *)
(** ** The statistics summarizer *)

Lemma count_true_negb bs :
  (count_true bs + count_true (map negb bs))%nat = List.length bs.
Proof.
  unfold count_true. induction bs as [|b bs IH]; simpl; [reflexivity|].
  destruct b; simpl; lia.
Qed.

Lemma statistics_stock_block df st :
  generate_statistics df = Ok st ->
  total_products st = nrows df
  /\ block_of "in_stock" (stock_block_of (nrows df)) df = Ok (stock_stats st).
Proof.
  intros H. unfold generate_statistics in H.
  repeat inv_bind H. inversion H; subst; split; reflexivity.
Qed.

(** X21. Every product is counted once in the stock block: in_stock and
    out_of_stock add up to total_products, a missing in_stock cell counting
    as out of stock; the block is there exactly when the column is. *)
Theorem stock_counts_add_up df st :
  well_formed df = true ->
  generate_statistics df = Ok st ->
  (stock_stats st = None <-> lookup "in_stock" (cols df) = None)
  /\ forall b, stock_stats st = Some b ->
               (in_stock b + out_of_stock b)%nat = total_products st.
Proof.
  intros W H. destruct (statistics_stock_block df st H) as [T B].
  unfold block_of in B.
  destruct (lookup "in_stock" (cols df)) as [s|] eqn:L.
  - inv_bind B. inversion B as [B']. split; [split; discriminate|].
    intros b Hb. inversion Hb; subst b; clear Hb.
    unfold stock_block_of in E. inv_bind E. inversion E; subst a; clear E.
    cbn [in_stock out_of_stock]. rewrite count_true_negb, T.
    rewrite (mapM_length _ _ _ E0), fillna_length.
    apply (lookup_length df "in_stock" s W L).
  - inversion B as [B']. split; [tauto|]. intros b Hb. discriminate Hb.
Qed.

Lemma stock_counts_add_up_witness :
  exists st,
    generate_statistics sample_both = Ok st
    /\ total_products st = 3%nat
    /\ forall b, stock_stats st = Some b ->
                 (in_stock b + out_of_stock b)%nat = 3%nat.
Proof.
  destruct (generate_statistics sample_both) as [st|e] eqn:E;
    [|vm_compute in E; discriminate E].
  exists st. split; [reflexivity|].
  assert (T : total_products st = 3%nat)
    by (vm_compute in E; inversion E; reflexivity).
  split; [exact T|].
  intros b Hb. rewrite <- T.
  apply (proj2 (stock_counts_add_up sample_both st eq_refl E) b Hb).
Defined.

Lemma total_count_bump k l : total_count (bump k l) = S (total_count l).
Proof.
  induction l as [|[k' n] l IH]; simpl; [reflexivity|].
  destruct (hkey_eqb k k'); simpl; [reflexivity|]. rewrite IH. lia.
Qed.

Lemma bump_In k l x :
  In x (map fst (bump k l)) -> x = k \/ In x (map fst l).
Proof.
  induction l as [|[k' n] l IH]; simpl.
  - intros [<-|[]]; auto.
  - destruct (hkey_eqb k k'); simpl; [auto|].
    intros [<-|I]; [auto|]. destruct (IH I); auto.
Qed.

Lemma bump_keys k l :
  NoDup (map fst l) -> NoDup (map fst (bump k l)).
Proof.
  induction l as [|[k' n] l IH]; simpl; intros N.
  - constructor; [intros [] | constructor].
  - inversion N; subst.
    destruct (hkey_eqb k k') eqn:E; simpl; [constructor; assumption|].
    constructor; [|apply IH; assumption].
    intros I. destruct (bump_In _ _ _ I) as [X|X]; [|contradiction].
    subst k'.
    assert (T : hkey_eqb k k = true) by (apply hkey_eqb_eq; reflexivity).
    congruence.
Qed.

Lemma counted_keys ks : forall acc,
  NoDup (map fst acc) ->
  NoDup (map fst (fold_left (fun acc k => bump k acc) ks acc))
  /\ total_count (fold_left (fun acc k => bump k acc) ks acc)
     = (List.length ks + total_count acc)%nat.
Proof.
  induction ks as [|k ks IH]; intros acc N; simpl; [auto|].
  destruct (IH (bump k acc) (bump_keys k acc N)) as [N' T].
  split; [exact N'|]. rewrite T, total_count_bump. lia.
Qed.

Lemma insert_by_count_In x l y :
  In y (insert_by_count x l) <-> y = x \/ In y l.
Proof.
  induction l as [|z l IH]; simpl; [intuition|].
  destruct (Nat.ltb (snd z) (snd x)); simpl; [intuition|].
  rewrite IH. intuition.
Qed.

Lemma insert_by_count_total x l :
  total_count (insert_by_count x l) = (snd x + total_count l)%nat.
Proof.
  induction l as [|z l IH]; simpl; [reflexivity|].
  destruct (Nat.ltb (snd z) (snd x)); simpl; [reflexivity|].
  rewrite IH. lia.
Qed.

Lemma insert_by_count_keys x l :
  NoDup (fst x :: map fst l) -> NoDup (map fst (insert_by_count x l)).
Proof.
  induction l as [|z l IH]; simpl; intros N; [exact N|].
  destruct (Nat.ltb (snd z) (snd x)); simpl; [exact N|].
  inversion N as [|? ? Nx N1]; subst. inversion N1 as [|? ? Nz N2]; subst.
  constructor.
  - intros I. apply in_map_iff in I. destruct I as [y [Ey Iy]].
    apply insert_by_count_In in Iy. destruct Iy as [->|Iy].
    + apply Nx. left. symmetry. exact Ey.
    + apply Nz. rewrite <- Ey. apply in_map. exact Iy.
  - apply IH. constructor; [|exact N2].
    intros I. apply Nx. right. exact I.
Qed.

Lemma insert_by_count_descending x l :
  descending l -> descending (insert_by_count x l).
Proof.
  induction l as [|z l IH]; simpl; intros D; [split; [intros y []|exact I]|].
  destruct D as [Dz D].
  destruct (Nat.ltb (snd z) (snd x)) eqn:E; simpl.
  - apply Nat.ltb_lt in E. split; [|split; assumption].
    intros y [<-|I]; [lia|]. specialize (Dz y I). lia.
  - apply Nat.ltb_ge in E. split; [|apply IH; exact D].
    intros y I. apply insert_by_count_In in I.
    destruct I as [->|I]; [exact E | apply Dz; exact I].
Qed.

Lemma sorted_counts l :
  NoDup (map fst l) ->
  NoDup (map fst (fold_right insert_by_count [] l))
  /\ total_count (fold_right insert_by_count [] l) = total_count l
  /\ descending (fold_right insert_by_count [] l)
  /\ forall y, In y (fold_right insert_by_count [] l) <-> In y l.
Proof.
  induction l as [|x l IH]; simpl; intros N.
  - repeat split; auto; tauto.
  - inversion N as [|? ? Nx N1]; subst.
    destruct (IH N1) as [K [T [D I]]].
    split; [|split; [|split]].
    + apply insert_by_count_keys. constructor; [|exact K].
      intros J. apply Nx. apply in_map_iff in J.
      destruct J as [y [Ey Iy]]. rewrite <- Ey. apply in_map. apply I. exact Iy.
    + rewrite insert_by_count_total, T. reflexivity.
    + apply insert_by_count_descending. exact D.
    + intros y. rewrite insert_by_count_In, I. intuition.
Qed.

Lemma value_counts_spec s d :
  value_counts s = Ok d ->
  NoDup (map fst d)
  /\ (total_count d + count_na (s_values s))%nat = List.length (s_values s)
  /\ descending d.
Proof.
  unfold value_counts. intros H. inv_bind H. inversion H; subst d; clear H.
  destruct (counted_keys a [] (NoDup_nil _)) as [N T].
  destruct (sorted_counts _ N) as [K [S [D _]]].
  split; [exact K|]. split; [|exact D].
  rewrite S, T, (mapM_length _ _ _ E). simpl. rewrite Nat.add_0_r.
  unfold count_na. clear.
  induction (s_values s) as [|v vs IH]; simpl; [reflexivity|].
  destruct (isna v); simpl; lia.
Qed.

Lemma statistics_distributions df st :
  generate_statistics df = Ok st ->
  block_of "category" value_counts df = Ok (category_distribution st)
  /\ block_of "data_source" value_counts df
     = Ok (data_source_distribution st).
Proof.
  intros H. unfold generate_statistics in H.
  repeat inv_bind H. inversion H; subst; split; reflexivity.
Qed.

(** X22. The two distributions count every row that has a value once: each
    lists every value under one key only, most frequent first, and its
    counts add up to the number of rows whose cell is not missing. *)
Theorem distributions_count_every_value df st c s d :
  well_formed df = true ->
  generate_statistics df = Ok st ->
  (c = "category" /\ category_distribution st = Some d
   \/ c = "data_source" /\ data_source_distribution st = Some d) ->
  lookup c (cols df) = Some s ->
  NoDup (map fst d)
  /\ descending d
  /\ (total_count d + count_na (s_values s))%nat = total_products st.
Proof.
  intros W H C L.
  destruct (statistics_distributions df st H) as [Bc Bs].
  destruct (statistics_stock_block df st H) as [T _].
  assert (V : value_counts s = Ok d).
  { destruct C as [[-> D]|[-> D]].
    - unfold block_of in Bc. rewrite L in Bc. inv_bind Bc.
      inversion Bc as [X]. rewrite D in X. inversion X; reflexivity.
    - unfold block_of in Bs. rewrite L in Bs. inv_bind Bs.
      inversion Bs as [X]. rewrite D in X. inversion X; reflexivity. }
  destruct (value_counts_spec s d V) as [K [S D]].
  split; [exact K|]. split; [exact D|].
  rewrite S, T. apply (lookup_length df c s W L).
Qed.

Lemma distributions_count_every_value_witness :
  exists st,
    generate_statistics sample_both = Ok st
    /\ data_source_distribution st
       = Some [(HStr "DummyJSON_API", 2%nat); (HStr "BooksToScrape_Web", 1%nat)]
    /\ total_products st = 3%nat.
Proof.
  destruct (generate_statistics sample_both) as [st|e] eqn:E;
    [|vm_compute in E; discriminate E].
  exists st. split; [reflexivity|].
  assert (D : data_source_distribution st
              = Some [(HStr "DummyJSON_API", 2%nat);
                      (HStr "BooksToScrape_Web", 1%nat)])
    by (vm_compute in E; inversion E; reflexivity).
  split; [exact D|].
  destruct (distributions_count_every_value sample_both st "data_source"
              (mkSeries DObject
                 [VStr "DummyJSON_API"; VStr "DummyJSON_API";
                  VStr "BooksToScrape_Web"])
              [(HStr "DummyJSON_API", 2%nat); (HStr "BooksToScrape_Web", 1%nat)]
              eq_refl E (or_intror (conj eq_refl D)) eq_refl) as [_ [_ S]].
  rewrite <- S. reflexivity.
Defined.

Lemma fold_min_spec qs : forall m,
  let r := fold_left (fun m x => if Qle_bool x m then x else m) qs m in
  (r <= m)%Q /\ (forall x, In x qs -> (r <= x)%Q) /\ (r = m \/ In r qs).
Proof.
  induction qs as [|q qs IH]; intros m; simpl.
  - split; [apply Qle_refl|]. split; [intros x []|auto].
  - destruct (Qle_bool q m) eqn:E.
    + destruct (IH q) as [A [B C]]. apply Qle_bool_iff in E.
      split; [eapply Qle_trans; eassumption|]. split.
      * intros x [<-|I]; [exact A | apply B; exact I].
      * right. destruct C as [->|C]; auto.
    + destruct (IH m) as [A [B C]].
      apply not_true_iff_false in E. rewrite Qle_bool_iff in E.
      split; [exact A|]. split.
      * intros x [<-|I]; [|apply B; exact I].
        eapply Qle_trans; [exact A|]. apply Qlt_le_weak, Qnot_le_lt, E.
      * destruct C as [C|C]; auto.
Qed.

Lemma fold_max_spec qs : forall m,
  let r := fold_left (fun m x => if Qle_bool m x then x else m) qs m in
  (m <= r)%Q /\ (forall x, In x qs -> (x <= r)%Q) /\ (r = m \/ In r qs).
Proof.
  induction qs as [|q qs IH]; intros m; simpl.
  - split; [apply Qle_refl|]. split; [intros x []|auto].
  - destruct (Qle_bool m q) eqn:E.
    + destruct (IH q) as [A [B C]]. apply Qle_bool_iff in E.
      split; [eapply Qle_trans; eassumption|]. split.
      * intros x [<-|I]; [exact A | apply B; exact I].
      * right. destruct C as [->|C]; auto.
    + destruct (IH m) as [A [B C]].
      apply not_true_iff_false in E. rewrite Qle_bool_iff in E.
      split; [exact A|]. split.
      * intros x [<-|I]; [|apply B; exact I].
        eapply Qle_trans; [|exact A]. apply Qlt_le_weak, Qnot_le_lt, E.
      * destruct C as [C|C]; auto.
Qed.





Lemma insert_sorted_In x l y : In y (insert_sorted x l) <-> y = x \/ In y l.
Proof.
  induction l as [|z l IH]; simpl; [intuition|].
  destruct (Qle_bool x z); simpl; [intuition|]. rewrite IH. intuition.
Qed.

Lemma sort_q_In l y : In y (sort_q l) <-> In y l.
Proof.
  unfold sort_q. induction l as [|x l IH]; simpl; [tauto|].
  rewrite insert_sorted_In, IH. intuition.
Qed.

Lemma numbers_floats qs : numbers (map VFloat qs) = qs.
Proof. induction qs as [|q qs IH]; simpl; [reflexivity | f_equal; exact IH]. Qed.

Lemma median_between lo hi qs :
  qs <> [] ->
  (forall x, In x qs -> (lo <= x <= hi)%Q) ->
  exists md, median (map VFloat qs) = VFloat md /\ (lo <= md <= hi)%Q.
Proof.
  intros NE B. unfold median. rewrite numbers_floats.
  assert (Bs : forall x, In x (sort_q qs) -> (lo <= x <= hi)%Q)
    by (intros x I; apply B, sort_q_In, I).
  destruct (sort_q qs) as [|y ys] eqn:S.
  - exfalso. destruct qs as [|q qs]; [contradiction|].
    unfold sort_q in S. simpl in S. exact (insert_sorted_not_nil _ _ S).
  - set (s := y :: ys) in *.
    assert (Pos : (0 < List.length s)%nat) by (simpl; lia).
    assert (Half : (Nat.div (List.length s) 2 < List.length s)%nat)
      by (apply Nat.div_lt; lia).
    destruct (Nat.odd (List.length s)).
    + eexists. split; [reflexivity|]. apply Bs, nth_In, Half.
    + eexists. split; [reflexivity|].
      assert (I1 : In (nth (Nat.div (List.length s) 2 - 1) s 0%Q) s)
        by (apply nth_In; lia).
      assert (I2 : In (nth (Nat.div (List.length s) 2) s 0%Q) s)
        by (apply nth_In, Half).
      destruct (Bs _ I1), (Bs _ I2).
      split; [apply Qle_shift_div_l | apply Qle_shift_div_r]; lra.
Qed.



Lemma extremes q qs :
  exists lo hi,
    qmin (q :: qs) = SNum lo /\ qmax (q :: qs) = SNum hi
    /\ In lo (q :: qs) /\ In hi (q :: qs)
    /\ forall x, In x (q :: qs) -> (lo <= x <= hi)%Q.
Proof.
  destruct (fold_min_spec qs q) as [A1 [B1 C1]].
  destruct (fold_max_spec qs q) as [A2 [B2 C2]].
  eexists. eexists. split; [reflexivity|]. split; [reflexivity|].
  split; [simpl; destruct C1 as [->|C1]; auto|].
  split; [simpl; destruct C2 as [->|C2]; auto|].
  intros x [<-|I]; split; auto.
Qed.



(** X24. A median fill invents no outlier: in an int64 or float64 column other
    than price, rating and stock that holds a number, every missing cell
    is filled with one value that lies between the smallest and the
    largest number of the column. *)
Theorem median_fill_lies_within_the_column df c s :
  lookup c (cols df) = Some s ->
  s_dtype s = DInt64 \/ s_dtype s = DFloat64 ->
  mem_str c quantity_columns = false ->
  numbers (s_values s) <> [] ->
  exists lo md hi,
    In lo (numbers (s_values s)) /\ In hi (numbers (s_values s))
    /\ (forall x, In x (numbers (s_values s)) -> (lo <= x <= hi)%Q)
    /\ (lo <= md <= hi)%Q
    /\ lookup c (cols (_handle_missing_values df))
       = Some (mkSeries (s_dtype s)
                 (map (fun v => if isna v then VFloat md else v)
                      (s_values s))).
Proof.
  intros L D Q NE.
  assert (M : median (s_values s) = median (map VFloat (numbers (s_values s))))
    by (unfold median; rewrite numbers_floats; reflexivity).
  destruct (numbers (s_values s)) as [|q qs] eqn:N; [contradiction|].
  destruct (extremes q qs) as [lo [hi [_ [_ [Il [Ih Bd]]]]]].
  destruct (median_between lo hi (q :: qs) NE Bd) as [md [Md Bm]].
  exists lo, md, hi.
  split; [exact Il|]. split; [exact Ih|]. split; [exact Bd|].
  split; [exact Bm|].
  rewrite handle_missing_lookup, L. cbn [option_map].
  rewrite (handle_col_numeric c s D), Q, M, Md. reflexivity.
Qed.

Lemma median_fill_lies_within_the_column_witness :
  exists lo md hi,
    (lo <= md <= hi)%Q
    /\ In lo [1%Q; 4%Q] /\ In hi [1%Q; 4%Q]
    /\ lookup "weight" (cols (_handle_missing_values gaps))
       = Some (mkSeries DFloat64 [VFloat 1; VFloat md; VFloat 4]).
Proof.
  destruct (median_fill_lies_within_the_column gaps "weight"
              (mkSeries DFloat64 [VFloat 1; VNaN; VFloat 4])
              eq_refl (or_intror eq_refl) eq_refl ltac:(discriminate))
    as [lo [md [hi [Il [Ih [_ [B F]]]]]]].
  exists lo, md, hi. split; [exact B|]. split; [exact Il|].
  split; [exact Ih | exact F].
Defined.

(* ================================================================= *)
(** ** The cleaning phase of the driver *)

(** X25. A batch without ids from the API costs the whole run: the KeyError of
    the API normalizer is caught by the driver, which returns None whatever
    the crawler delivered. *)
Theorem run_without_api_ids_returns_none k now_api now_web api web P :
  api <> [] ->
  Forall (fun r : record => forall key, In key (map fst r) -> ~ names_id key)
         api ->
  prepare_api now_api api = Ok P ->
  run_data_cleaning k now_api now_web api web = Ok None.
Proof.
  intros NE F E. unfold run_data_cleaning, cleaning_steps.
  pose proof (prepare_api_without_id _ _ _ F E) as L.
  pose proof (prepare_not_empty Api now_api api P NE E) as NotEmpty.
  destruct api as [|r rs]; [contradiction|].
  unfold clean_api_data. rewrite E. cbn [bind].
  rewrite (dedup_without_id P NotEmpty L). reflexivity.
Qed.

Lemma run_without_api_ids_returns_none_witness :
  run_data_cleaning seed0 sample_time sample_time
    [[("title", VStr "Pen"); ("price", VInt 3)]] [attic]
  = Ok None.
Proof.
  apply (run_without_api_ids_returns_none seed0 sample_time sample_time
           [[("title", VStr "Pen"); ("price", VInt 3)]] [attic]
           (frame_or_empty
              (prepare_api sample_time
                 [[("title", VStr "Pen"); ("price", VInt 3)]]))).
  - discriminate.
  - constructor; [|constructor].
    intros key [<-|[<-|[]]]; unfold names_id; cbn; discriminate.
  - vm_compute. reflexivity.
Defined.

Lemma dedup_keeps_a_row subset df out :
  well_formed df = true ->
  drop_duplicates subset df = Ok out ->
  nrows df <> 0%nat -> nrows out <> 0%nat.
Proof.
  intros W H NZ.
  destruct (drop_duplicates_inv _ _ _ H) as [[_ ->]|[_ [ss [ks [G [Hk ->]]]]]];
    [exact NZ|].
  assert (Fk : Forall (fun k : list hkey => List.length k = nrows df) ks)
    by (eapply hash_keys_length; [eapply get_cols_length|]; eassumption).
  pose proof (row_keys_length _ _ Fk) as L.
  cbn [nrows select_rows].
  destruct (row_keys (nrows df) ks) as [|k rest]; [simpl in L; congruence|].
  cbn [duplicated seen_before existsb map negb].
  unfold count_true. simpl. discriminate.
Qed.

Lemma handle_missing_nrows df : nrows (_handle_missing_values df) = nrows df.
Proof. reflexivity. Qed.

Lemma normalize_keeps_a_row src now products out :
  products <> [] ->
  normalize src now products = Ok out -> nrows out <> 0%nat.
Proof.
  intros NE H. rewrite normalize_unfold in H by exact NE.
  inv_bind H. inv_bind H.
  destruct (prepare_well_formed _ _ _ _ E) as [W [N _]].
  rewrite (validate_nrows _ _ H), handle_missing_nrows.
  apply (dedup_keeps_a_row _ _ _ W E0).
  rewrite N. destruct products; [contradiction | discriminate].
Qed.

(** X26. The cleaning phase returns a table without rows exactly when neither
    source delivered a record: one record from either source is enough
    for at least one row to come out. *)
Theorem cleaned_table_is_empty_only_for_empty_input
  k now_api now_web api web df :
  run_data_cleaning k now_api now_web api web = Ok (Some df) ->
  (nrows df = 0%nat <-> api = [] /\ web = []).
Proof.
  intros H. unfold run_data_cleaning in H.
  destruct (cleaning_steps k now_api now_web api web) as [out|e] eqn:S;
    [|destruct e; discriminate H].
  inversion H; subst out; clear H.
  unfold cleaning_steps in S.
  inv_bind S. inv_bind S. inv_bind S. rename a into A, a0 into B, a1 into M.
  destruct (enrich_enriched M df S) as [Nr _]. rewrite Nr.
  change (normalize Api now_api api = Ok A) in E.
  change (normalize (Web k) now_web web = Ok B) in E0.
  pose proof (normalize_table _ _ _ _ E) as TA.
  pose proof (normalize_table _ _ _ _ E0) as TB.
  unfold merge_datasets in E1. inv_bind E1. rename a into C.
  pose proof (concat_table A B C TA TB E2) as TC.
  apply table_iff in TC. destruct TC as [WC _].
  destruct (concat_columns _ _ _ E2) as [_ Cn].
  split.
  - intros Z.
    destruct api as [|ra api']; [destruct web as [|rw web']; [auto|]|];
      exfalso; revert Z; apply (dedup_keeps_a_row _ _ _ WC E1); rewrite Cn.
    + pose proof (normalize_keeps_a_row (Web k) now_web (rw :: web') B
                    ltac:(discriminate) E0). lia.
    + pose proof (normalize_keeps_a_row Api now_api (ra :: api') A
                    ltac:(discriminate) E). lia.
  - intros [-> ->]. simpl in E, E0.
    inversion E; subst A. inversion E0; subst B.
    vm_compute in E2. inversion E2; subst C.
    vm_compute in E1. inversion E1; subst M. reflexivity.
Qed.

Lemma cleaned_table_is_empty_only_for_empty_input_witness :
  exists df,
    run_data_cleaning seed0 sample_time sample_time [] [attic] = Ok (Some df)
    /\ nrows df <> 0%nat.
Proof.
  destruct (run_data_cleaning seed0 sample_time sample_time [] [attic])
    as [[df|]|e] eqn:R; try (vm_compute in R; discriminate R).
  exists df. split; [reflexivity|].
  intros Z.
  destruct (proj1 (cleaned_table_is_empty_only_for_empty_input
                     seed0 sample_time sample_time [] [attic] df R) Z)
    as [_ W].
  discriminate W.
Defined.

(* ================================================================= *)
(** ** Web helpers *)

Lemma split_ws_nonspace c s :
  is_space c = false ->
  exists w ws, split_ws (String c s) = String c w :: ws.
Proof.
  intros C. cbn [split_ws]. rewrite C.
  destruct s as [|c' s']; [eexists; eexists; reflexivity|].
  destruct (is_space c'); [eexists; eexists; reflexivity|].
  destruct (split_ws (String c' s')); eexists; eexists; reflexivity.
Qed.

(** The word count of the enricher is the length of the split. *)
Lemma word_count_split s : word_count s = List.length (split_ws s).
Proof.
  unfold word_count.
  assert (G : word_count_from false s = List.length (split_ws s)
              /\ forall c, is_space c = false ->
                   S (word_count_from true s)
                   = List.length (split_ws (String c s))).
  { induction s as [|d s [IH1 IH2]].
    - split; [reflexivity|]. intros c C. cbn [split_ws]. rewrite C. reflexivity.
    - split.
      + cbn [word_count_from]. destruct (is_space d) eqn:D.
        * cbn [split_ws]. rewrite D. exact IH1.
        * apply IH2. exact D.
      + intros c C. cbn [word_count_from].
        destruct (is_space d) eqn:D.
        * cbn [split_ws]. rewrite C, D. cbn [List.length]. f_equal.
          exact IH1.
        * rewrite (IH2 d D).
          destruct (split_ws_nonspace d s D) as [w [ws E]].
          change (split_ws (String c (String d s)))
            with (if is_space c then split_ws (String d s)
                  else if is_space d then String c EmptyString
                                          :: split_ws (String d s)
                       else match split_ws (String d s) with
                            | w :: ws => String c w :: ws
                            | [] => [String c EmptyString]
                            end).
          rewrite C, D, E. reflexivity. }
  apply G.
Qed.

Lemma split_ws_words s : Forall (fun w => is_word w = true) (split_ws s).
Proof.
  induction s as [|c s IH]; [constructor|].
  cbn [split_ws]. destruct (is_space c) eqn:C; [exact IH|].
  destruct s as [|c' s'].
  - constructor; [|constructor]. unfold is_word; simpl. rewrite C. reflexivity.
  - destruct (is_space c') eqn:C'.
    + constructor; [|exact IH]. unfold is_word; simpl. rewrite C. reflexivity.
    + destruct (split_ws (String c' s')) as [|w ws].
      * constructor; [|constructor].
        unfold is_word; simpl. rewrite C. reflexivity.
      * inversion IH as [|? ? Hw Hws]; subst. constructor; [|exact Hws].
        unfold is_word in *. cbn [String.eqb spaceless negb andb].
        rewrite C. apply andb_true_iff in Hw. destruct Hw as [_ Hw].
        rewrite Hw. reflexivity.
Qed.

Lemma split_word_then_space w s :
  is_word w = true ->
  split_ws (w ++ String " " s) = w :: split_ws s.
Proof.
  unfold is_word. induction w as [|c w IH]; [discriminate|].
  cbn [String.eqb negb andb spaceless]. intros H.
  apply andb_true_iff in H. destruct H as [C S].
  apply negb_true_iff in C.
  destruct w as [|c' w'].
  - cbn [append split_ws]. rewrite C.
    change (is_space " ") with true. cbn iota. reflexivity.
  - assert (W : negb (String.eqb (String c' w') "") && spaceless (String c' w')
                = true) by (cbn [String.eqb negb andb]; exact S).
    specialize (IH W).
    cbn [spaceless] in S. apply andb_true_iff in S. destruct S as [C' _].
    apply negb_true_iff in C'.
    change (split_ws (String c (String c' w') ++ String " " s))
      with (if is_space c then split_ws (String c' w' ++ String " " s)
            else if is_space c'
                 then String c EmptyString
                      :: split_ws (String c' w' ++ String " " s)
                 else match split_ws (String c' w' ++ String " " s) with
                      | w :: ws => String c w :: ws
                      | [] => [String c EmptyString]
                      end).
    rewrite C, C', IH. reflexivity.
Qed.

Lemma split_one_word w : is_word w = true -> split_ws w = [w].
Proof.
  unfold is_word. induction w as [|c w IH]; [discriminate|].
  cbn [String.eqb negb andb spaceless]. intros H.
  apply andb_true_iff in H. destruct H as [C S].
  apply negb_true_iff in C.
  destruct w as [|c' w'].
  - cbn [split_ws]. rewrite C. reflexivity.
  - assert (W : negb (String.eqb (String c' w') "") && spaceless (String c' w')
                = true) by (cbn [String.eqb negb andb]; exact S).
    specialize (IH W).
    cbn [spaceless] in S. apply andb_true_iff in S. destruct S as [C' _].
    apply negb_true_iff in C'.
    change (split_ws (String c (String c' w')))
      with (if is_space c then split_ws (String c' w')
            else if is_space c'
                 then String c EmptyString :: split_ws (String c' w')
                 else match split_ws (String c' w') with
                      | w :: ws => String c w :: ws
                      | [] => [String c EmptyString]
                      end).
    rewrite C, C', IH. reflexivity.
Qed.

Lemma split_join ws :
  Forall (fun w => is_word w = true) ws -> split_ws (join " " ws) = ws.
Proof.
  induction 1 as [|w ws Hw F IH]; [reflexivity|].
  destruct ws as [|w' ws'].
  - apply split_one_word; exact Hw.
  - change (join " " (w :: w' :: ws'))
      with (w ++ String " " (join " " (w' :: ws'))).
    rewrite (split_word_then_space _ _ Hw), IH. reflexivity.
Qed.

Lemma lstrip_word_app w s : is_word w = true -> lstrip (w ++ s) = w ++ s.
Proof.
  unfold is_word. destruct w as [|c w]; [discriminate|].
  cbn [String.eqb negb andb spaceless]. intros H.
  apply andb_true_iff in H. destruct H as [C _].
  apply negb_true_iff in C. cbn [append lstrip]. rewrite C. reflexivity.
Qed.

Lemma rstrip_word w : is_word w = true -> rstrip w = w.
Proof.
  unfold is_word. induction w as [|c w IH]; [discriminate|].
  cbn [String.eqb negb andb spaceless]. intros H.
  apply andb_true_iff in H. destruct H as [C S].
  apply negb_true_iff in C.
  destruct w as [|c' w'].
  - cbn [rstrip]. rewrite C. reflexivity.
  - assert (W : negb (String.eqb (String c' w') "") && spaceless (String c' w')
                = true) by (cbn [String.eqb negb andb]; exact S).
    change (rstrip (String c (String c' w')))
      with (match rstrip (String c' w') with
            | EmptyString =>
                if is_space c then EmptyString else String c EmptyString
            | r => String c r
            end).
    rewrite (IH W). reflexivity.
Qed.

Lemma rstrip_app_nonempty a b :
  rstrip b = b -> b <> EmptyString -> rstrip (a ++ b) = a ++ b.
Proof.
  intros R N. induction a as [|c a IH]; [exact R|].
  cbn [append rstrip]. rewrite IH.
  destruct (a ++ b) eqn:E; [|reflexivity].
  destruct a; simpl in E; [contradiction | discriminate E].
Qed.

Lemma word_not_empty w : is_word w = true -> w <> EmptyString.
Proof. intros H E. subst w. discriminate H. Qed.

Lemma join_words_clean ws :
  Forall (fun w => is_word w = true) ws ->
  ws <> [] ->
  rstrip (join " " ws) = join " " ws
  /\ join " " ws <> EmptyString
  /\ lstrip (join " " ws) = join " " ws.
Proof.
  induction 1 as [|w ws Hw F IH]; intros NE; [contradiction|].
  destruct ws as [|w' ws'].
  - cbn [join]. split; [apply rstrip_word; exact Hw|].
    split; [apply word_not_empty; exact Hw|].
    clear - Hw. unfold is_word in Hw. destruct w as [|c w]; [discriminate Hw|].
    cbn [String.eqb negb andb spaceless] in Hw.
    apply andb_true_iff in Hw. destruct Hw as [C _].
    apply negb_true_iff in C. cbn [lstrip]. rewrite C. reflexivity.
  - destruct (IH ltac:(discriminate)) as [R [N _]].
    change (join " " (w :: w' :: ws'))
      with (w ++ (" " ++ join " " (w' :: ws'))).
    split; [|split].
    + apply rstrip_app_nonempty; [|discriminate].
      apply (rstrip_app_nonempty " " _ R N).
    + destruct w; [discriminate Hw | discriminate].
    + apply lstrip_word_app; exact Hw.
Qed.

Lemma strip_join ws :
  Forall (fun w => is_word w = true) ws ->
  strip (join " " ws) = join " " ws.
Proof.
  intros F. destruct ws as [|w ws]; [reflexivity|].
  destruct (join_words_clean (w :: ws) F ltac:(discriminate)) as [R [_ L]].
  unfold strip. rewrite R. exact L.
Qed.

Lemma clean_text_join t : clean_text (Some t) = join " " (split_ws t).
Proof.
  unfold clean_text. destruct (String.eqb t "") eqn:E.
  - apply String.eqb_eq in E. subst t. reflexivity.
  - apply strip_join, split_ws_words.
Qed.

(** X27. [clean_text] keeps the words of a text in their order and puts one
    space between them: the result is the words joined by single spaces (so
    the final strip finds nothing to remove), splitting it gives the same
    words, and cleaning a cleaned text changes nothing. *)
Theorem clean_text_normalizes_white_space t :
  clean_text (Some t) = join " " (split_ws t)
  /\ split_ws (clean_text (Some t)) = split_ws t
  /\ clean_text (Some (clean_text (Some t))) = clean_text (Some t).
Proof.
  split; [apply clean_text_join|].
  assert (S : split_ws (clean_text (Some t)) = split_ws t).
  { rewrite clean_text_join. apply split_join, split_ws_words. }
  split; [exact S|].
  rewrite (clean_text_join (clean_text (Some t))), S.
  symmetry. apply clean_text_join.
Qed.

Lemma first_rating_range ws n :
  first_rating ws = Some n -> In n [1; 2; 3; 4; 5].
Proof.
  induction ws as [|w ws IH]; [discriminate|].
  cbn [first_rating]. destruct (lookup w rating_map) as [m|] eqn:L.
  - intros H. inversion H; subst m. clear - L.
    unfold rating_map in L. cbn [lookup] in L.
    repeat match type of L with
           | (if ?b then _ else _) = _ =>
               destruct b; [inversion L; simpl; tauto|]
           end.
    discriminate L.
  - exact IH.
Qed.

(** X28. A rating read off a star class is a whole number from 1 to 5, and the
    enricher has a bucket for every one of them: one and two stars are
    "Poor", three "Fair", four "Good", five "Excellent". *)
Theorem scraped_rating_always_has_a_bucket rating_class n :
  normalize_rating rating_class = Some n ->
  1 <= n <= 5
  /\ cut_cell rating_bins rating_labels (VInt n)
     = VStr (if n <=? 2 then "Poor"
             else if n <=? 3 then "Fair"
             else if n <=? 4 then "Good" else "Excellent").
Proof.
  unfold normalize_rating. intros H.
  apply first_rating_range in H. simpl in H.
  destruct H as [<-|[<-|[<-|[<-|[<-|[]]]]]]; split; try lia; reflexivity.
Qed.

Lemma scraped_rating_always_has_a_bucket_witness :
  normalize_rating "star-rating Three" = Some 3
  /\ cut_cell rating_bins rating_labels (VInt 3) = VStr "Fair".
Proof.
  split; [reflexivity|].
  apply (scraped_rating_always_has_a_bucket "star-rating Three" 3).
  reflexivity.
Defined.
